(** * Shallow embedding of the ARC1 grid transformation engine

    Sources: grid_ops.py (GridOperations), transform_analysis.py
    (TransformationAnalyzer), transform_predictor.py
    (TransformationPredictor), pattern_testing.py (PatternTester) and
    recipe_testing/data_handlers.py (validate_grid).

    A numpy integer grid is a [list (list Z)] in row-major order; its shape
    is (number of rows, length of the first row). *)

From Stdlib Require Import ZArith List Bool Lia QArith.
From Stdlib Require Import Floats.SpecFloat.
From stdpp Require Import base list gmap sorting strings.
Import ListNotations.
Open Scope Z_scope.

(* ================================================================== *)
(** ** Grids *)

Abbreviation grid := (list (list Z)).
Abbreviation cell := (Z * Z)%type.

(** [grid.shape] *)
Definition height (g : grid) : Z := Z.of_nat (length g).
Definition width (g : grid) : Z := Z.of_nat (length (hd [] g)).

(** [grid[r, c]] for an in-bounds index *)
Definition get (g : grid) (r c : Z) : Z :=
  nth (Z.to_nat c) (nth (Z.to_nat r) g []) 0.

Definition in_bounds (g : grid) (rc : cell) : Prop :=
  0 <= fst rc < height g /\ 0 <= snd rc < width g.

(** A well-formed grid: at least one row, all rows of the same positive
    length. *)
Definition well_formed (g : grid) : Prop :=
  g <> [] /\ (0 < length (hd [] g))%nat /\
  Forall (fun row => length row = length (hd [] g)) g.

(** [range(n)] as a list of Python ints *)
Definition zrange (n : Z) : list Z := map Z.of_nat (seq 0 (Z.to_nat n)).

(** [for r in range(h): for c in range(w)] *)
Definition row_major_cells (g : grid) : list cell :=
  flat_map (fun r => map (fun c => (r, c)) (zrange (width g))) (zrange (height g)).

(* ================================================================== *)
(** ** float64 *)

(** numpy float64 values are IEEE 754 binary64 numbers: [spec_float]
    with 53 bits of precision and maximal exponent 1024, rounding to
    nearest, ties to even. *)
Definition f64 := spec_float.

(** Conversion of an integer to float64 ([int64 -> float64] cast). *)
Definition float_of_Z (x : Z) : f64 := binary_normalize 53 1024 x 0 false.

Definition fadd (x y : f64) : f64 := SFadd 53 1024 x y.
Definition fsub (x y : f64) : f64 := SFsub 53 1024 x y.
Definition fdivf (x y : f64) : f64 := SFdiv 53 1024 x y.

(** [x / y] on numpy int64 values: both are converted to float64 and
    divided, with no exception; a zero divisor gives [inf], [-inf] or
    [nan] (with a warning). *)
Definition fdiv (x y : Z) : f64 := fdivf (float_of_Z x) (float_of_Z y).

(** Python's [==] on floats ([0.0 == -0.0]; [nan] equals nothing). *)
Definition feqb (a b : f64) : bool := SFeqb a b.

Definition is_nan (a : f64) : bool := match a with S754_nan => true | _ => false end.

(* ================================================================== *)
(** ** GridOperations.get_objects *)

(** The object dictionary built by [get_objects].  [center] holds twice
    the Python center: [(max + min) / 2] is stored as [max + min], which
    keeps it an integer (the float value is exact for grid coordinates). *)
Record obj := mk_obj {
  value : Z;
  coords : list cell;
  min_r : Z; max_r : Z; min_c : Z; max_c : Z;
  size : Z;
  dimensions : Z * Z;
  center2 : Z * Z
}.

Definition zmin (l : list Z) : Z := fold_left Z.min (tl l) (hd 0 l).
Definition zmax (l : list Z) : Z := fold_left Z.max (tl l) (hd 0 l).

Definition make_obj (v : Z) (cs : list cell) : obj :=
  let rs := map fst cs in
  let cs' := map snd cs in
  {| value := v; coords := cs;
     min_r := zmin rs; max_r := zmax rs; min_c := zmin cs'; max_c := zmax cs';
     size := Z.of_nat (length cs);
     dimensions := (zmax rs - zmin rs + 1, zmax cs' - zmin cs' + 1);
     center2 := (zmax rs + zmin rs, zmax cs' + zmin cs') |}.

(** The nested [flood_fill].  The set [seen] is threaded explicitly; the
    result is the list of collected coordinates and the new [seen].  The
    Python recursion has no fuel; every call that does not return [[]]
    adds a fresh in-bounds cell to [seen], so the recursion depth is at
    most [H*W + 1] and [get_objects] passes that much fuel. *)
Fixpoint flood_fill (fuel : nat) (g : grid) (r c v : Z) (seen : list cell)
  : list cell * list cell :=
  match fuel with
  | O => ([], seen)
  | S fuel' =>
    if (r <? 0) || (r >=? height g) || (c <? 0) || (c >=? width g)
       || negb (get g r c =? v) || bool_decide ((r, c) ∈ seen)
    then ([], seen)
    else
      let seen0 := (r, c) :: seen in
      let '(l1, s1) := flood_fill fuel' g (r + 1) c v seen0 in
      let '(l2, s2) := flood_fill fuel' g (r - 1) c v s1 in
      let '(l3, s3) := flood_fill fuel' g r (c + 1) v s2 in
      let '(l4, s4) := flood_fill fuel' g r (c - 1) v s3 in
      ((r, c) :: l1 ++ l2 ++ l3 ++ l4, s4)
  end.

Definition ff_fuel (g : grid) : nat := (length g * length (hd [] g) + 1)%nat.

(** One iteration of the scan loop over [(r, c)]. *)
Definition scan_cell (g : grid) (st : list obj * list cell) (rc : cell)
  : list obj * list cell :=
  let '(objects, seen) := st in
  let '(r, c) := rc in
  if negb (bool_decide ((r, c) ∈ seen)) && negb (get g r c =? 0) then
    let '(cs, seen') := flood_fill (ff_fuel g) g r c (get g r c) seen in
    match cs with
    | [] => (objects, seen')
    | _ :: _ => (objects ++ [make_obj (get g r c) cs], seen')
    end
  else (objects, seen).

Definition get_objects (g : grid) : list obj :=
  fst (fold_left (scan_cell g) (row_major_cells g) ([], [])).

(* ================================================================== *)
(** ** Python errors and a small error monad *)

Inductive py_error :=
  | KeyError (key : string)
  | IndexError
  | ValueError
  | ZeroDivisionError
  | TaskError (msg : string).

Inductive result (A : Type) :=
  | Ok (a : A)
  | Err (e : py_error).
Arguments Ok {A} a.
Arguments Err {A} e.

Global Instance result_ret : MRet result := fun A a => Ok a.
Global Instance result_bind : MBind result :=
  fun A B f m => match m with Ok a => f a | Err e => Err e end.

(* ================================================================== *)
(** ** numpy helpers *)

Fixpoint dedup_sorted (l : list Z) : list Z :=
  match l with
  | x :: ((y :: _) as t) => if x =? y then dedup_sorted t else x :: dedup_sorted t
  | _ => l
  end.

(** [np.unique]: sorted distinct values *)
Definition np_unique (l : list Z) : list Z := dedup_sorted (merge_sort Z.le l).

Definition shape (g : grid) : Z * Z := (height g, width g).

Definition transpose (g : grid) : grid :=
  map (fun j => map (fun row => nth j row 0) g) (seq 0 (length (hd [] g))).

(** [np.rot90(g, k)]: counterclockwise quarter turns, [k] taken mod 4 *)
Definition rot90_once (g : grid) : grid := rev (transpose g).
Definition rot90 (g : grid) (k : Z) : grid :=
  Nat.iter (Z.to_nat (k mod 4)) rot90_once g.

(** [np.flip(g, axis=0)] and [np.flip(g, axis=1)] *)
Definition flip0 (g : grid) : grid := rev g.
Definition flip1 (g : grid) : grid := map (@rev Z) g.

(** [g != 0] *)
Definition nz_mask (g : grid) : list (list bool) := map (map (fun x => negb (x =? 0))) g.

(** [np.array_equal] on rectangular arrays is list equality. *)
Definition grid_eqb (a b : grid) : bool := bool_decide (a = b).

(* ================================================================== *)
(** ** TransformationAnalyzer: value mappings *)

Inductive pos_type := Corner | Edge | Interior.

(** [_get_position_type] *)
Definition get_position_type (pos : cell) (shp : Z * Z) : pos_type :=
  let '(r, c) := pos in
  let '(h, w) := shp in
  if ((r =? 0) || (r =? h - 1)) && ((c =? 0) || (c =? w - 1)) then Corner
  else if (r =? 0) || (r =? h - 1) || (c =? 0) || (c =? w - 1) then Edge
  else Interior.

(** A dictionary keyed by position type. *)
Record by_pos (A : Type) := mk_by_pos {
  at_corner : option A; at_edge : option A; at_interior : option A }.
Arguments mk_by_pos {A} _ _ _.
Arguments at_corner {A} _.
Arguments at_edge {A} _.
Arguments at_interior {A} _.

Definition bp_empty {A} : by_pos A := mk_by_pos None None None.
Definition bp_get {A} (d : by_pos A) (k : pos_type) : option A :=
  match k with Corner => at_corner d | Edge => at_edge d | Interior => at_interior d end.
Definition bp_set {A} (d : by_pos A) (k : pos_type) (x : A) : by_pos A :=
  match k with
  | Corner => mk_by_pos (Some x) (at_edge d) (at_interior d)
  | Edge => mk_by_pos (at_corner d) (Some x) (at_interior d)
  | Interior => mk_by_pos (at_corner d) (at_edge d) (Some x)
  end.
Definition bp_omap {A B} (f : A -> option B) (d : by_pos A) : by_pos B :=
  mk_by_pos (at_corner d ≫= f) (at_edge d ≫= f) (at_interior d ≫= f).
Definition bp_is_empty {A} (d : by_pos A) : bool :=
  match at_corner d, at_edge d, at_interior d with None, None, None => true | _, _, _ => false end.

Inductive value_mapping :=
  | Direct (to : Z)
  | Conditional (conditions : by_pos Z)
  | Complex (position_values : by_pos (list Z)).

(** [len(set(values)) == 1] *)
Definition single_value (values : list Z) : bool :=
  match values with [] => false | x :: xs => forallb (Z.eqb x) xs end.

(** [position_based[key].append(int(out_val))] over [zip(positions, out_vals)] *)
Definition group_by_position (shp : Z * Z) (pairs : list (cell * Z)) : by_pos (list Z) :=
  fold_left (fun acc '(pos, ov) =>
               let key := get_position_type pos shp in
               bp_set acc key (default [] (bp_get acc key) ++ [ov]))
            pairs bp_empty.

(** [{pos_type: values[0]}] for the categories with a single value *)
Definition conditional_table (position_based : by_pos (list Z)) : by_pos Z :=
  bp_omap (fun values => if single_value values then Some (hd 0 values) else None)
          position_based.

(** [np.argwhere(input_grid == in_val)] *)
Definition value_positions (i : grid) (v : Z) : list cell :=
  List.filter (fun rc => get i rc.1 rc.2 =? v) (row_major_cells i).

(** The body of the loop of [analyze_value_mappings] for a non-zero value
    whose mask has the output's shape. *)
Definition classify_value (i o : grid) (v : Z) : option value_mapping :=
  let positions := value_positions i v in
  let out_vals := map (fun rc => get o rc.1 rc.2) positions in
  let unique_out := np_unique out_vals in
  if Nat.eqb (length unique_out) 1 then Some (Direct (hd 0 unique_out))
  else if Nat.ltb 1 (length unique_out) then
    let position_based := group_by_position (shape i) (combine positions out_vals) in
    let conditional := conditional_table position_based in
    if negb (bp_is_empty conditional) then Some (Conditional conditional)
    else Some (Complex position_based)
  else None.

(** [analyze_value_mappings]; [output_grid[mask]] raises [IndexError]
    when the boolean mask and the output differ in shape. *)
Definition analyze_value_mappings (i o : grid) : result (gmap Z value_mapping) :=
  fold_left (fun acc in_val =>
               m ← acc;
               if in_val =? 0 then Ok m
               else if negb (bool_decide (shape i = shape o)) then Err IndexError
               else match classify_value i o in_val with
                    | Some vm => Ok (<[in_val := vm]> m)
                    | None => Ok m
                    end)
            (np_unique (concat i)) (Ok ∅).

(* ================================================================== *)
(** ** TransformationAnalyzer: object and global transforms *)

Inductive axis := Horizontal | Vertical.

(** The transform dictionaries ([{'type': 'none'}], [{'type': 'scale',
    'factor': k}], ...), shared by object and global transforms. *)
Inductive transform :=
  | TNone
  | TValueChange (from to : Z)
  | TScale (factor : Z)
  | TRotation (degrees : Z)
  | TFlip (ax : axis)
  | TComplex.

Global Instance axis_eq_dec : EqDecision axis.
Proof. solve_decision. Defined.
Global Instance transform_eq_dec : EqDecision transform.
Proof. solve_decision. Defined.
Global Instance pos_type_eq_dec : EqDecision pos_type.
Proof. solve_decision. Defined.
Global Instance by_pos_eq_dec {A} `{EqDecision A} : EqDecision (by_pos A).
Proof. solve_decision. Defined.
Global Instance value_mapping_eq_dec : EqDecision value_mapping.
Proof. solve_decision. Defined.



(** [h2 % h1 == 0 and w2 % w1 == 0] followed by the equal-factor test;
    Python's [%] raises on a zero divisor. *)
Definition scale_check (h1 w1 h2 w2 : Z) : result (option transform) :=
  if h1 =? 0 then Err ZeroDivisionError
  else if negb (h2 mod h1 =? 0) then Ok None
  else if w1 =? 0 then Err ZeroDivisionError
  else if negb (w2 mod w1 =? 0) then Ok None
  else if h2 / h1 =? w2 / w1 then Ok (Some (TScale (h2 / h1)))
  else Ok None.

(** [np.unique(obj[obj != 0])] *)
Definition nonzero_unique (g : grid) : list Z :=
  np_unique (List.filter (fun x => negb (x =? 0)) (concat g)).

(** The rotation loop [for k in range(1, 4)] of [_find_object_transform]:
    the masks of the rotation and of [obj2] are compared. *)
Definition first_mask_rotation (obj1 obj2 : grid) : option Z :=
  find (fun k => bool_decide (nz_mask (rot90 obj1 k) = nz_mask obj2)) [1; 2; 3].

(** [_find_object_transform] *)
Definition find_object_transform (obj1 obj2 : grid) : result transform :=
  let '(h1, w1) := shape obj1 in
  let '(h2, w2) := shape obj2 in
  let same_shape_result :=
    if (h1 =? h2) && (w1 =? w2) then
      if grid_eqb obj1 obj2 then Some TNone
      else match nonzero_unique obj1, nonzero_unique obj2 with
           | [u1], [u2] => Some (TValueChange u1 u2)
           | _, _ => None
           end
    else None in
  match same_shape_result with
  | Some t => Ok t
  | None =>
    sc ← scale_check h1 w1 h2 w2;
    match sc with
    | Some t => Ok t
    | None =>
      match first_mask_rotation obj1 obj2 with
      | Some k => Ok (TRotation (k * 90))
      | None =>
        if bool_decide (nz_mask (flip0 obj1) = nz_mask obj2) then Ok (TFlip Horizontal)
        else if bool_decide (nz_mask (flip1 obj1) = nz_mask obj2) then Ok (TFlip Vertical)
        else Ok TComplex
      end
    end
  end.

(** The rotation loop of [_find_global_transform]: whole grids compared. *)
Definition first_rotation (g1 g2 : grid) : option Z :=
  find (fun k => grid_eqb (rot90 g1 k) g2) [1; 2; 3].

(** [_find_global_transform] *)
Definition find_global_transform (g1 g2 : grid) : result transform :=
  let '(h1, w1) := shape g1 in
  let '(h2, w2) := shape g2 in
  let same_shape_result :=
    if (h1 =? h2) && (w1 =? w2) then
      match first_rotation g1 g2 with
      | Some k => Some (TRotation (k * 90))
      | None =>
        if grid_eqb (flip0 g1) g2 then Some (TFlip Horizontal)
        else if grid_eqb (flip1 g1) g2 then Some (TFlip Vertical)
        else None
      end
    else None in
  match same_shape_result with
  | Some t => Ok t
  | None =>
    sc ← scale_check h1 w1 h2 w2;
    match sc with
    | Some t => Ok t
    | None => Ok TNone
    end
  end.

(** [get_object_grid]: the bounding box with non-member cells zeroed. *)
Definition get_object_grid (g : grid) (o : obj) : grid :=
  map (fun r => map (fun c => if bool_decide ((r, c) ∈ coords o) then get g r c else 0)
                    (map (fun k => min_c o + k) (zrange (max_c o - min_c o + 1))))
      (map (fun k => min_r o + k) (zrange (max_r o - min_r o + 1))).

Record obj_match := mk_match { output_object : obj; mtransform : transform }.
Record obj_mapping := mk_mapping { input_object : obj; matches : list obj_match }.
Record obj_analysis := mk_obj_analysis {
  object_count_change : Z; object_mappings : list obj_mapping }.

(** [mapM] in the error monad *)
Fixpoint result_map {A B} (f : A -> result B) (l : list A) : result (list B) :=
  match l with
  | [] => Ok []
  | x :: xs => y ← f x; ys ← result_map f xs; Ok (y :: ys)
  end.

(** [analyze_object_transformations] *)
Definition analyze_object_transformations (i o : grid) : result obj_analysis :=
  let input_objects := get_objects i in
  let output_objects := get_objects o in
  mappings ← result_map (fun in_obj =>
      let in_grid := get_object_grid i in_obj in
      found ← result_map (fun out_obj =>
          t ← find_object_transform in_grid (get_object_grid o out_obj);
          Ok (out_obj, t)) output_objects;
      let ms := map (fun '(oo, t) => mk_match oo t)
                    (List.filter (fun '(_, t) => negb (bool_decide (t = TNone))) found) in
      Ok (match ms with [] => None | _ => Some (mk_mapping in_obj ms) end))
    input_objects;
  Ok (mk_obj_analysis (Z.of_nat (length output_objects) - Z.of_nat (length input_objects))
                      (omap id mappings)).

(** [_get_relative_position]; [dx] and [dy] are kept doubled like the
    centers.  The dictionary's [distance] and [angle] are functions of
    [dx] and [dy], so two such dictionaries are equal exactly when their
    [dx] and [dy] are. *)
Record rel_pos := mk_rel_pos { dx2 : Z; dy2 : Z }.

Definition get_relative_position (o1 o2 : obj) : rel_pos :=
  mk_rel_pos ((center2 o2).2 - (center2 o1).2) ((center2 o2).1 - (center2 o1).1).

(** [_find_matching_object]: best score, first one on ties. *)
Definition match_score (o other : obj) : Z :=
  (if value o =? value other then 1 else 0) +
  (if size o =? size other then 1 else 0) +
  (if bool_decide (dimensions o = dimensions other) then 1 else 0).

Definition find_matching_object (o : obj) (objects : list obj) : option obj :=
  let '(best_match, best_score) :=
    fold_left (fun '(bm, bs) other =>
                 let score := match_score o other in
                 if bs <? score then (Some other, score) else (bm, bs))
              objects (None, 0) in
  if 0 <? best_score then best_match else None.

Record rel_change := mk_rel_change {
  robjects : Z * Z; rfrom : rel_pos; rto : rel_pos }.

Global Instance rel_pos_eq_dec : EqDecision rel_pos.
Proof. solve_decision. Defined.
Global Instance rel_change_eq_dec : EqDecision rel_change.
Proof. solve_decision. Defined.

Record spatial_analysis := mk_spatial {
  global_transform : transform; relative_positions : list rel_change }.

(** The pairs [(in_obj1, in_obj2)] of [enumerate(input_objects[:-1])] and
    [input_objects[i+1:]]. *)
Fixpoint ordered_pairs {A} (l : list A) : list (A * A) :=
  match l with
  | [] => []
  | x :: xs => map (fun y => (x, y)) xs ++ ordered_pairs xs
  end.

(** [analyze_spatial_transformations] *)
Definition analyze_spatial_transformations (i o : grid) : result spatial_analysis :=
  let input_objects := get_objects i in
  let output_objects := get_objects o in
  gt ← find_global_transform i o;
  let rels :=
    if Nat.ltb 1 (length input_objects) && Nat.eqb (length input_objects) (length output_objects)
    then omap (fun '(in1, in2) =>
                 let in_rel := get_relative_position in1 in2 in
                 match find_matching_object in1 output_objects,
                       find_matching_object in2 output_objects with
                 | Some out1, Some out2 =>
                   let out_rel := get_relative_position out1 out2 in
                   if bool_decide (in_rel = out_rel) then None
                   else Some (mk_rel_change (value in1, value in2) in_rel out_rel)
                 | _, _ => None
                 end)
              (ordered_pairs input_objects)
    else [] in
  Ok (mk_spatial gt rels).

(** One entry of [transforms] in [predict_output]. *)
Record analysis := mk_analysis {
  value_mappings : gmap Z value_mapping;
  object_transforms : obj_analysis;
  spatial_transforms : spatial_analysis }.

Definition analyze_pair (i o : grid) : result analysis :=
  vm ← analyze_value_mappings i o;
  ot ← analyze_object_transformations i o;
  st ← analyze_spatial_transformations i o;
  Ok (mk_analysis vm ot st).

(* ================================================================== *)
(** ** TransformationPredictor._find_consistent_transforms *)

Record consistent_objects := mk_cobj {
  c_object_count_change : option Z;   (** the key may be absent *)
  c_mappings : list (Z * transform) }. (** [{'input_value', 'transform'}] *)

Record consistent_spatial := mk_cspatial {
  c_global_transform : option transform; (** the key may be absent *)
  c_relative_positions : list rel_change }.

Record consistent := mk_consistent {
  c_value_mappings : gmap Z value_mapping;
  c_object_transforms : consistent_objects;
  c_spatial_transforms : consistent_spatial }.

(** [len(m['matches']) == 1 and m['matches'][0]['transform'] == transform] *)
Definition single_match_with (t : transform) (m : obj_mapping) : bool :=
  match matches m with
  | [mt] => bool_decide (mtransform mt = t)
  | _ => false
  end.

(** [_find_consistent_transforms]; [None] is the empty dictionary [{}]
    returned for an empty list. *)
Definition find_consistent_transforms (transforms : list analysis) : option consistent :=
  match transforms with
  | [] => None
  | first :: rest =>
    let vms :=
      filter (fun '(val, mapping) =>
                Forall (fun t => value_mappings t !! val = Some mapping) rest)
             (value_mappings first) in
    let first_obj := object_transforms first in
    let count :=
      if forallb (fun t => object_count_change (object_transforms t)
                             =? object_count_change first_obj) rest
      then Some (object_count_change first_obj) else None in
    let obj_mappings :=
      omap (fun mapping =>
              match matches mapping with
              | [mt] =>
                let t := mtransform mt in
                if bool_decide (t = TComplex) then None
                else if forallb (fun tr => existsb (single_match_with t)
                                             (object_mappings (object_transforms tr))) rest
                then Some (value (input_object mapping), t)
                else None
              | _ => None
              end)
           (object_mappings first_obj) in
    let first_spatial := spatial_transforms first in
    let gt :=
      if forallb (fun t => bool_decide (global_transform (spatial_transforms t)
                                        = global_transform first_spatial)) rest
      then Some (global_transform first_spatial) else None in
    let rels :=
      List.filter (fun rc => forallb (fun t => existsb (fun oc => bool_decide (rc = oc))
                                        (relative_positions (spatial_transforms t))) rest)
             (relative_positions first_spatial) in
    Some (mk_consistent vms (mk_cobj count obj_mappings) (mk_cspatial gt rels))
  end.

(* ================================================================== *)
(** ** numpy arrays over a store of buffers

    An array is a view on a buffer of the store: its shape and the map
    from an index [(i, j)] to a position of the buffer.  [copy] and
    [np.kron] allocate a new buffer; [np.rot90] and [np.flip] return views
    on the same buffer; index assignments write through to the buffer.
    (The float dtype produced by [np.kron] with [np.ones] is not tracked:
    the values it holds are the same integers.) *)

Record ndarray := mk_nd {
  buf : nat; nrows : nat; ncols : nat; offset : nat -> nat -> nat }.

Abbreviation store := (list (list Z)).

(** State and error monad over the store. *)
Definition M (A : Type) : Type := store -> result (A * store).

Global Instance M_ret : MRet M := fun A a st => Ok (a, st).
Global Instance M_bind : MBind M :=
  fun A B f m st => match m st with Ok (a, st') => f a st' | Err e => Err e end.

Definition raise {A} (e : py_error) : M A := fun _ => Err e.
Definition gets {A} (f : store -> A) : M A := fun st => Ok (f st, st).
Definition lift {A} (r : result A) : M A :=
  fun st => match r with Ok a => Ok (a, st) | Err e => Err e end.

Fixpoint miter {B} (f : B -> M unit) (l : list B) : M unit :=
  match l with [] => mret tt | x :: xs => f x;; miter f xs end.

Definition read_cell (st : store) (a : ndarray) (i j : nat) : Z :=
  default 0 (st !! buf a ≫= fun d => d !! offset a i j).

(** The values of an array, row by row. *)
Definition to_grid (st : store) (a : ndarray) : grid :=
  map (fun i => map (fun j => read_cell st a i j) (seq 0 (ncols a))) (seq 0 (nrows a)).

(** [np.array(g)]: a new contiguous buffer holding [g] row by row. *)
Definition alloc_grid (g : grid) : M ndarray :=
  fun st =>
    let c := length (hd [] g) in
    Ok (mk_nd (length st) (length g) c (fun i j => (i * c + j)%nat), st ++ [concat g]).

(** [a.copy()] *)
Definition copy (a : ndarray) : M ndarray :=
  fun st => alloc_grid (to_grid st a) st.

(** [a[i, j] = v] *)
Definition write_cell (a : ndarray) (v : Z) (ij : nat * nat) : M unit :=
  fun st => Ok (tt, alter (fun d => <[offset a ij.1 ij.2 := v]> d) (buf a) st).

Definition write_cells (a : ndarray) (ijs : list (nat * nat)) (v : Z) : M unit :=
  miter (write_cell a v) ijs.

(** Views: [np.rot90(a)] (one counterclockwise turn), [np.flip(a, 0)],
    [np.flip(a, 1)]. *)
Definition rot90_view_once (a : ndarray) : ndarray :=
  mk_nd (buf a) (ncols a) (nrows a) (fun i j => offset a j (ncols a - 1 - i)).
Definition rot90_view (a : ndarray) (k : Z) : ndarray :=
  Nat.iter (Z.to_nat (k mod 4)) rot90_view_once a.
Definition flip_view (a : ndarray) (ax : nat) : ndarray :=
  match ax with
  | O => mk_nd (buf a) (nrows a) (ncols a) (fun i j => offset a (nrows a - 1 - i) j)
  | _ => mk_nd (buf a) (nrows a) (ncols a) (fun i j => offset a i (ncols a - 1 - j))
  end.

(** [np.kron(g, np.ones((f, f)))] on values *)
Definition kron_grid (g : grid) (f : nat) : grid :=
  map (fun i => map (fun j => get g (Z.of_nat (i / f)) (Z.of_nat (j / f)))
                    (seq 0 (length (hd [] g) * f)))
      (seq 0 (length g * f)).

(** The index pairs of an array in row-major order, and [a == v] as the
    list of its true positions. *)
Definition cells_of (a : ndarray) : list (nat * nat) :=
  list_prod (seq 0 (nrows a)) (seq 0 (ncols a)).
Definition mask_cells (st : store) (a : ndarray) (v : Z) : list (nat * nat) :=
  List.filter (fun ij => read_cell st a ij.1 ij.2 =? v) (cells_of a).

(* ================================================================== *)
(** ** TransformationPredictor._apply_transforms *)

(** Step 1: the global transform ([{'type': 'none'}] when absent). *)
Definition apply_global (prediction : ndarray) (gt : option transform) : M ndarray :=
  match default TNone gt with
  | TRotation d => mret (rot90_view prediction (d / 90))
  | TFlip ax => mret (flip_view prediction (match ax with Horizontal => 0 | Vertical => 1 end)%nat)
  | TScale f =>
    if f <? 0 then raise ValueError
    else g ← gets (fun st => to_grid st prediction); alloc_grid (kron_grid g (Z.to_nat f))
  | _ => mret prediction
  end.

(** The [conditions.items()] of a conditional mapping.  The categories
    are disjoint and the mask is fixed before the loop, so the order of
    the items does not change the result. *)
Definition bp_items {A} (d : by_pos A) : list (pos_type * A) :=
  omap (fun k => (fun x => (k, x)) <$> bp_get d k) [Corner; Edge; Interior].

(** Step 2, one entry [val, mapping] of [transforms['value_mappings']]. *)
Definition apply_value_mapping (prediction : ndarray) (val : Z) (mapping : value_mapping)
  : M unit :=
  mask ← gets (fun st => mask_cells st prediction val);
  match mapping with
  | Direct to => write_cells prediction mask to
  | Conditional conds =>
    miter (fun '(pt, new_val) =>
             write_cells prediction
               (List.filter (fun ij => bool_decide
                          (get_position_type (Z.of_nat ij.1, Z.of_nat ij.2)
                             (Z.of_nat (nrows prediction), Z.of_nat (ncols prediction)) = pt))
                       mask) new_val)
          (bp_items conds)
  | Complex _ => mret tt
  end.

(** The dictionary's iteration order: the keys are inserted in ascending
    order by [analyze_value_mappings] (from [np.unique]) and kept in that
    order by the reduction. *)
Definition sorted_keys {V} (m : gmap Z V) : list Z :=
  merge_sort Z.le (map fst (map_to_list m)).

(** Step 3: the transformed object subgrid. *)
Definition transform_obj_grid (t : transform) (og : grid) : result grid :=
  match t with
  | TValueChange _ to => Ok (map (map (fun x => if x =? 0 then x else to)) og)
  | TScale f => if f <? 0 then Err ValueError else Ok (kron_grid og (Z.to_nat f))
  | TRotation d => Ok (rot90 og (d / 90))
  | TFlip Horizontal => Ok (flip0 og)
  | TFlip Vertical => Ok (flip1 og)
  | _ => Ok og
  end.

(** [prediction[r1:r2, c1:c2] = obj_grid] *)
Definition write_region (a : ndarray) (r1 c1 : Z) (og : grid) : M unit :=
  miter (fun '(i, j) => write_cell a (get og (Z.of_nat i) (Z.of_nat j))
                          (Z.to_nat r1 + i, Z.to_nat c1 + j)%nat)
        (list_prod (seq 0 (length og)) (seq 0 (length (hd [] og)))).

Definition apply_obj_mapping (prediction : ndarray) (o : obj) (m : Z * transform) : M unit :=
  let '(input_value, t) := m in
  if input_value =? value o then
    og ← gets (fun st => get_object_grid (to_grid st prediction) o);
    og' ← lift (transform_obj_grid t og);
    if bool_decide (shape og' = (max_r o - min_r o + 1, max_c o - min_c o + 1))
    then write_region prediction (min_r o) (min_c o) og'
    else mret tt
  else mret tt.

(** [np.mean(np.argwhere(mask), axis=0)]: the coordinates are summed in
    float64 and divided by their number.  They are non-negative integers
    whose sums stay far below [2^53], so the float64 sum is the exact sum
    whatever order numpy adds them in. *)
Definition mean_pos (ijs : list (nat * nat)) : f64 * f64 :=
  let n := float_of_Z (Z.of_nat (length ijs)) in
  (fdivf (float_of_Z (Z.of_nat (list_sum (map fst ijs)))) n,
   fdivf (float_of_Z (Z.of_nat (list_sum (map snd ijs)))) n).

(** [(p >= 0).all() and (p < shape).all()] for a float64 position [p]
    ([nan] compares false). *)
Definition f_in_bounds (p : f64 * f64) (h w : nat) : bool :=
  SFleb (float_of_Z 0) p.1 && SFltb p.1 (float_of_Z (Z.of_nat h)) &&
  SFleb (float_of_Z 0) p.2 && SFltb p.2 (float_of_Z (Z.of_nat w)).

(** Step 4, one relative-position change.  The target offsets
    [rel_change['to']['dx']] and [['dy']] are the float64 halves of
    [dx2] and [dy2].  [dx] and [dy] are floats, so
    [old_positions + np.array([dy, dx])] is a float array and indexing
    [new_prediction] with it raises [IndexError] whenever a valid position
    remains. *)
Definition apply_rel_change (prediction : ndarray) (rc : rel_change) : M unit :=
  let '(v1, v2) := robjects rc in
  m1 ← gets (fun st => mask_cells st prediction v1);
  m2 ← gets (fun st => mask_cells st prediction v2);
  match m1, m2 with
  | _ :: _, _ :: _ =>
    let p1 := mean_pos m1 in
    let p2 := mean_pos m2 in
    let cdx := fsub p2.2 p1.2 in
    let cdy := fsub p2.1 p1.1 in
    let tdx := fdivf (float_of_Z (dx2 (rto rc))) (float_of_Z 2) in
    let tdy := fdivf (float_of_Z (dy2 (rto rc))) (float_of_Z 2) in
    if feqb cdx tdx && feqb cdy tdy then mret tt
    else
      let dx := fsub tdx cdx in
      let dy := fsub tdy cdy in
      new_prediction ← copy prediction;
      write_cells new_prediction m2 0;;
      if existsb (fun ij => f_in_bounds (fadd (float_of_Z (Z.of_nat ij.1)) dy,
                                         fadd (float_of_Z (Z.of_nat ij.2)) dx)
                                        (nrows prediction) (ncols prediction)) m2
      then raise IndexError
      else mret tt
  | _, _ => mret tt
  end.

(** [_apply_transforms]; [None] is the empty dictionary, on which
    [transforms['spatial_transforms']] raises. *)
Definition apply_transforms (input : ndarray) (transforms : option consistent) : M ndarray :=
  prediction ← copy input;
  match transforms with
  | None => raise (KeyError "spatial_transforms")
  | Some tr =>
    prediction ← apply_global prediction (c_global_transform (c_spatial_transforms tr));
    miter (fun k => match c_value_mappings tr !! k with
                    | Some m => apply_value_mapping prediction k m
                    | None => mret tt
                    end) (sorted_keys (c_value_mappings tr));;
    objects ← gets (fun st => get_objects (to_grid st prediction));
    miter (fun o => miter (apply_obj_mapping prediction o)
                          (c_mappings (c_object_transforms tr))) objects;;
    miter (apply_rel_change prediction)
          (c_relative_positions (c_spatial_transforms tr));;
    mret prediction
  end.

(** [predict_output]; [zip] stops at the shorter list. *)
Definition predict_output (input : ndarray) (training_inputs training_outputs : list grid)
  : M ndarray :=
  transforms ← lift (result_map (fun '(i, o) => analyze_pair i o)
                                (combine training_inputs training_outputs));
  apply_transforms input (find_consistent_transforms transforms).

(** A run from an empty store on a freshly built input array, returning
    the values of the result. *)
Definition run_predict (input : grid) (training_inputs training_outputs : list grid)
  : result grid :=
  match (a ← alloc_grid input;
         p ← predict_output a training_inputs training_outputs;
         gets (fun st => to_grid st p)) [] with
  | Ok (g, _) => Ok g
  | Err e => Err e
  end.

(** The values after step 1 of [_apply_transforms] alone, on a fresh
    array holding [g]. *)
Definition run_global (gt : option transform) (g : grid) : result grid :=
  match (a ← alloc_grid g; p ← apply_global a gt; gets (fun st => to_grid st p)) [] with
  | Ok (g', _) => Ok g'
  | Err e => Err e
  end.

(** A reduction result in which nothing survived: no value mapping, no
    object mapping, no global transform other than none and no
    relative-position change. *)
Definition empty_consistent (c : consistent) : Prop :=
  c_value_mappings c = ∅ /\
  c_mappings (c_object_transforms c) = [] /\
  default TNone (c_global_transform (c_spatial_transforms c)) = TNone /\
  c_relative_positions (c_spatial_transforms c) = [].

(** A computation that returns leaves the first [n] buffers of the store
    as they were and satisfies [Q]. *)
Definition keeps {A} (n : nat) (m : M A) (Q : A -> Prop) : Prop :=
  forall st r st', (n <= length st)%nat -> m st = Ok (r, st') ->
    (n <= length st')%nat /\ take n st' = take n st /\ Q r.

(** Invariant of the scan loop: [seen] is duplicate free, holds exactly
    the cells of the objects found so far, and only non-zero in-bounds
    cells. *)
Definition scan_inv (g : grid) (st : list obj * list cell) : Prop :=
  NoDup st.2 /\ Permutation st.2 (concat (map coords st.1)) /\
  (forall x, x ∈ st.2 -> in_bounds g x /\ get g x.1 x.2 <> 0).

(* ================================================================== *)
(** ** PatternTester.test_progression *)

(** The pairs [(row[1:][k], row[:-1][k])] divided by [row[1:] / row[:-1]]. *)
Definition adjacent_pairs (row : list Z) : list (Z * Z) := combine (tl row) (removelast row).

Definition ratios (row : list Z) : list f64 :=
  map (fun '(a, b) => fdiv a b) (adjacent_pairs row).

(** int64 arithmetic wraps around modulo [2^64]. *)
Definition wrap64 (z : Z) : Z := (z + 2 ^ 63) mod 2 ^ 64 - 2 ^ 63.

(** [np.diff(row)] on an int64 row *)
Definition diffs (row : list Z) : list Z := map (fun '(a, b) => wrap64 (a - b)) (adjacent_pairs row).

Inductive line := Row (i : nat) | Col (i : nat).

Inductive prog_finding :=
  | Arithmetic (location : line) (difference : Z)
  | Geometric (location : line) (ratio : f64).

(** [len(set(diffs)) == 1] *)
Definition one_distinct_Z (l : list Z) : bool :=
  match l with [] => false | x :: xs => forallb (Z.eqb x) xs end.

(** [len(set(ratios[~np.isnan(ratios)])) == 1] *)
Definition one_distinct_f (l : list f64) : bool :=
  match List.filter (fun x => negb (is_nan x)) l with
  | [] => false
  | x :: xs => forallb (feqb x) xs
  end.

(** The findings of one row or column. *)
Definition line_findings (loc : line) (row : list Z) : list prog_finding :=
  let ds := diffs row in
  let rs := ratios row in
  (if one_distinct_Z ds then [Arithmetic loc (hd 0 ds)] else []) ++
  (if Nat.ltb 1 (length (List.filter (fun x => negb (x =? 0)) row)) && one_distinct_f rs
   then [Geometric loc (hd S754_nan rs)] else []).

Fixpoint enumerate_from {A} (k : nat) (l : list A) : list (nat * A) :=
  match l with [] => [] | x :: xs => (k, x) :: enumerate_from (S k) xs end.

(** [test_progression]: ([progression_found], [progression_types]) *)
Definition test_progression (g : grid) : bool * list prog_finding :=
  let found :=
    flat_map (fun '(i, row) => line_findings (Row i) row) (enumerate_from 0 g) ++
    flat_map (fun '(i, col) => line_findings (Col i) col) (enumerate_from 0 (transpose g)) in
  (negb (bool_decide (found = [])), found).

(** The values of a row or column of a grid. *)
Definition line_values (g : grid) (loc : line) : list Z :=
  match loc with
  | Row i => nth i g []
  | Col i => nth i (transpose g) []
  end.

(* ================================================================== *)
(** ** recipe_testing.data_handlers: validate_grid *)

(** The nested [validate_grid] of [validate_task_data].  The checks that
    every row is a list and every value a number hold by the type. *)
Definition validate_grid (g : grid) (grid_name : string) : result unit :=
  match g with
  | [] => Err (TaskError (grid_name +:+ " must be non-empty"))
  | first :: _ =>
    let w := length first in
    if forallb (fun row => Nat.eqb (length row) w) g then Ok tt
    else Err (TaskError (grid_name +:+ " must be rectangular"))
  end.

(* ================================================================== *)
(** ** grid_ops: connectivity, rotation and flip, counts and properties *)

(** The four neighbours visited by the flood fill of [get_objects]. *)
Definition neighbors (x : cell) : list cell :=
  [(x.1 + 1, x.2); (x.1 - 1, x.2); (x.1, x.2 + 1); (x.1, x.2 - 1)].

(** [linked s x y]: [y] is reached from [x] by 4-neighbour steps inside [s]. *)
Inductive linked (s : list cell) : cell -> cell -> Prop :=
  | linked_refl x : x ∈ s -> linked s x x
  | linked_step x y z : linked s x y -> z ∈ neighbors y -> z ∈ s -> linked s x z.

(** [GridOperations.rotate_grid]: [np.rot90(grid, k)] *)
Definition rotate_grid (g : grid) (k : Z) : grid := rot90 g k.

(** [GridOperations.flip_grid]: [np.flip(grid, axis)].  An axis outside
    [-2 .. 1] raises numpy's AxisError, a subclass of ValueError. *)
Definition flip_grid (g : grid) (axis : Z) : result grid :=
  if (axis =? 0) || (axis =? -2) then Ok (flip0 g)
  else if (axis =? 1) || (axis =? -1) then Ok (flip1 g)
  else Err ValueError.

(** An [h] by [w] grid with [h, w > 0]. *)
Definition dims (g : grid) (h w : nat) : Prop :=
  length g = h /\ Forall (fun row => length row = w) g /\ (0 < h)%nat /\ (0 < w)%nat.

Definition entry (g : grid) (i j : nat) : Z := nth j (nth i g []) 0.

(** [count_values]: the dictionary [{v: count}] in [np.unique] order *)
Definition count_values (g : grid) : list (Z * nat) :=
  map (fun v => (v, count_occ Z.eq_dec (concat g) v)) (np_unique (concat g)).



(* ================================================================== *)
(** ** PatternTester.test_symmetry *)

Inductive symmetry_type :=
  | HorizontalReflection (position : Z)
  | VerticalReflection (position : Z)
  | Rotational (degrees order : Z).

Record symmetry_result := mk_symmetry_result {
  symmetry_found : bool; symmetry_types : list symmetry_type }.

Definition add_symmetry (res : symmetry_result) (t : symmetry_type) : symmetry_result :=
  mk_symmetry_result true (symmetry_types res ++ [t]).

(** [PatternTester.test_symmetry].  For an empty list [grid.shape[1]]
    raises IndexError (the row loop is empty). *)
Definition test_symmetry (g : grid) : result symmetry_result :=
  match g with
  | [] => Err IndexError
  | _ =>
    let r0 := mk_symmetry_result false [] in
    let r1 := fold_left (fun res i =>
                let top := firstn i g in
                let bottom := skipn i g in
                if Nat.eqb (length top) (length bottom) then
                  if grid_eqb top (flip0 bottom)
                  then add_symmetry res (HorizontalReflection (Z.of_nat i)) else res
                else res) (seq 1 (length g - 1)) r0 in
    let r2 := fold_left (fun res i =>
                let left := map (firstn i) g in
                let right := map (skipn i) g in
                if Nat.eqb (length (hd [] left)) (length (hd [] right)) then
                  if grid_eqb left (flip1 right)
                  then add_symmetry res (VerticalReflection (Z.of_nat i)) else res
                else res) (seq 1 (length (hd [] g) - 1)) r1 in
    let r3 := fold_left (fun res k =>
                if grid_eqb g (rot90 g k)
                then add_symmetry res (Rotational (360 / k) k) else res) [2; 4] r2 in
    Ok r3
  end.

(* ================================================================== *)
(** ** GridOperations.extract_subgrids and find_subgrid *)

(** Python's bounds for a slice [l[a:b]] with step 1: a negative bound
    counts from the end, and both are clamped to [0 .. len(l)]. *)
Definition py_norm (n x : Z) : Z := if x <? 0 then Z.max 0 (x + n) else Z.min x n.

Definition py_slice {A} (l : list A) (a b : Z) : list A :=
  let n := Z.of_nat (length l) in
  let a' := py_norm n a in
  let b' := py_norm n b in
  firstn (Z.to_nat (b' - a')) (skipn (Z.to_nat a') l).

(** [grid[r1:r2, c1:c2]] *)
Definition slice2 (g : grid) (r1 r2 c1 c2 : Z) : grid :=
  map (fun row => py_slice row c1 c2) (py_slice g r1 r2).

(** [GridOperations.extract_subgrids].  An empty list is a 1-D array:
    [grid.shape[1]] raises IndexError unless [h > grid.shape[0]] already
    returned. *)
Definition extract_subgrids (g : grid) (size : Z * Z) : result (list grid) :=
  let '(h, w) := size in
  if h >? height g then Ok []
  else match g with
       | [] => Err IndexError
       | _ =>
         if w >? width g then Ok []
         else Ok (flat_map (fun i => map (fun j => slice2 g i (i + h) j (j + w))
                                         (zrange (width g - w + 1)))
                           (zrange (height g - h + 1)))
       end.

(** [GridOperations.find_subgrid].  An empty subgrid is a 1-D array, so
    unpacking its shape raises ValueError. *)
Definition find_subgrid (g sub : grid) : result (list (Z * Z)) :=
  match sub with
  | [] => Err ValueError
  | _ =>
    let h := height sub in
    let w := width sub in
    Ok (flat_map (fun i => flat_map (fun j =>
          if grid_eqb (slice2 g i (i + h) j (j + w)) sub then [(i, j)] else [])
          (zrange (width g - w + 1)))
        (zrange (height g - h + 1)))
  end.

(* ================================================================== *)
(** ** PatternTester.test_repetition *)

(** [range(start, stop, step)] for a positive step *)
Definition py_range (start stop step : Z) : list Z :=
  map (fun k => start + k * step) (zrange ((stop - start + step - 1) / step)).

Inductive repeat_kind := HorizontalRepeat | VerticalRepeat.

Record repetition_pattern := mk_repetition_pattern {
  rp_type : repeat_kind; rp_block : grid; rp_block_size : Z * Z; rp_repetitions : Z }.

Record repetition_result := mk_repetition_result {
  repetition_found : bool; rp_patterns : list repetition_pattern }.

Definition add_pattern (res : repetition_result) (p : repetition_pattern) : repetition_result :=
  mk_repetition_result true (rp_patterns res ++ [p]).

(** [PatternTester.test_repetition] *)
Definition test_repetition (g : grid) : repetition_result :=
  fold_left (fun res h =>
    fold_left (fun res w =>
      let block := slice2 g 0 h 0 w in
      let res :=
        if width g mod w =? 0 then
          let horizontal_blocks := map (fun i => slice2 g 0 h i (i + w)) (py_range 0 (width g) w) in
          if forallb (fun b => grid_eqb block b) horizontal_blocks
          then add_pattern res (mk_repetition_pattern HorizontalRepeat block (h, w)
                                  (Z.of_nat (length horizontal_blocks)))
          else res
        else res in
      if height g mod h =? 0 then
        let vertical_blocks := map (fun i => slice2 g i (i + h) 0 w) (py_range 0 (height g) h) in
        if forallb (fun b => grid_eqb block b) vertical_blocks
        then add_pattern res (mk_repetition_pattern VerticalRepeat block (h, w)
                                (Z.of_nat (length vertical_blocks)))
        else res
      else res)
    (py_range 1 (width g / 2 + 1) 1) res)
  (py_range 1 (height g / 2 + 1) 1) (mk_repetition_result false []).

Definition extend (res : repetition_result) (ps : list repetition_pattern) : repetition_result :=
  mk_repetition_result (repetition_found res || negb (bool_decide (ps = []))) (rp_patterns res ++ ps).

(* ================================================================== *)
(** ** PatternTester.test_spatial_relations *)

(** [np.argwhere(grid == val)]: the cells holding [val], in row-major order *)
Definition argwhere_eq (g : grid) (v : Z) : list cell :=
  List.filter (fun rc => get g (fst rc) (snd rc) =? v) (row_major_cells g).

(** [np.diff(coords, axis=0)] *)
Definition cell_diffs (cs : list cell) : list cell :=
  map (fun '(a, b) => (fst a - fst b, snd a - snd b)) (combine (tl cs) (removelast cs)).

(** [len(set(map(tuple, l))) == 1] *)
Definition one_distinct_cell (l : list cell) : bool :=
  match l with [] => false | x :: xs => forallb (fun y => bool_decide (y = x)) xs end.

Inductive spatial_pattern :=
  | LinearArrangement (value : Z) (direction : cell) (count : Z)
  | DiagonalPattern (value : Z) (direction : string) (count : Z)
  | RectangularArrangement (value : Z) (dimensions : Z * Z) (position : Z * Z).

Record spatial_result := mk_spatial_result {
  spatial_patterns_found : bool; spatial_patterns : list spatial_pattern }.

(** The patterns the loop body of [test_spatial_relations] appends for [val] *)
Definition value_patterns (g : grid) (val : Z) : list spatial_pattern :=
  let coords := argwhere_eq g val in
  if Nat.ltb 1 (length coords) then
    let ds := cell_diffs coords in
    let diag_diffs := map (fun d => (Z.abs (fst d), Z.abs (snd d))) ds in
    let d0 := hd (0, 0) ds in
    (if one_distinct_cell ds
     then [LinearArrangement val d0 (Z.of_nat (length coords))] else []) ++
    (if one_distinct_cell diag_diffs && forallb (fun d => fst d =? snd d) diag_diffs
     then [DiagonalPattern val (if 0 <? fst d0 * snd d0 then "positive" else "negative")
                           (Z.of_nat (length coords))] else []) ++
    (if Nat.leb 4 (length coords) then
       let min_r := zmin (map fst coords) in
       let min_c := zmin (map snd coords) in
       let max_r := zmax (map fst coords) in
       let max_c := zmax (map snd coords) in
       let rect := slice2 g min_r (max_r + 1) min_c (max_c + 1) in
       if forallb (fun x => x =? val) (List.filter (fun x => negb (x =? 0)) (concat rect))
       then [RectangularArrangement val (max_r - min_r + 1, max_c - min_c + 1) (min_r, min_c)]
       else []
     else [])
  else [].

(** [PatternTester.test_spatial_relations]; [spatial_patterns_found] is set
    exactly when a pattern is appended. *)
Definition test_spatial_relations (g : grid) : spatial_result :=
  let unique_values := np_unique (List.filter (fun x => negb (x =? 0)) (concat g)) in
  let pats := flat_map (value_patterns g) unique_values in
  mk_spatial_result (match pats with [] => false | _ => true end) pats.

(* ================================================================== *)
(** ** Lemmas on the object extraction *)

Lemma zrange_spec (n z : Z) : In z (zrange n) <-> 0 <= z < n.
Proof.
  unfold zrange. rewrite in_map_iff. split.
  - intros [k [<- Hk]]. apply in_seq in Hk. lia.
  - intros Hz. exists (Z.to_nat z). split; [lia|]. apply in_seq. lia.
Qed.

Lemma row_major_cells_spec (g : grid) (rc : cell) :
  In rc (row_major_cells g) <-> in_bounds g rc.
Proof.
  destruct rc as [r c]. unfold row_major_cells, in_bounds. simpl.
  rewrite in_flat_map. split.
  - intros [r' [Hr Hin]]. apply in_map_iff in Hin as [c' [Heq Hc]].
    inversion Heq; subst. rewrite zrange_spec in Hr, Hc. lia.
  - intros [Hr Hc]. exists r. split; [by apply zrange_spec|].
    apply in_map_iff. exists c. split; [done|by apply zrange_spec].
Qed.

Lemma elem_of_In_iff {A} (x : A) (l : list A) : x ∈ l <-> In x l.
Proof. apply list_elem_of_In. Qed.

Lemma forallb_false_iff {A} (f : A -> bool) (l : list A) :
  forallb f l = false <-> exists x, In x l /\ f x = false.
Proof.
  induction l as [|a l IH]; simpl.
  - split; [discriminate|]. intros [x [[] _]].
  - rewrite andb_false_iff, IH. split.
    + intros [Ha | [x [Hx Hfx]]]; [exists a; auto|exists x; auto].
    + intros [x [[<- | Hx] Hfx]]; [by left|right; by exists x].
Qed.

(** The flood fill adds to [seen] exactly the cells it returns, each once,
    and every returned cell is an in-bounds cell holding [v]. *)
Lemma flood_fill_spec (fuel : nat) (g : grid) :
  forall (r c v : Z) (seen : list cell), NoDup seen ->
  let res := flood_fill fuel g r c v seen in
  NoDup res.2 /\ Permutation res.2 (res.1 ++ seen) /\
  (forall x, x ∈ res.1 -> in_bounds g x /\ get g x.1 x.2 = v).
Proof.
  induction fuel as [|fuel IH]; intros r c v seen Hnd; simpl.
  { split; [done|]. split; [done|]. intros x Hx. by apply not_elem_of_nil in Hx. }
  destruct ((r <? 0) || (r >=? height g) || (c <? 0) || (c >=? width g)
            || negb (get g r c =? v) || bool_decide ((r, c) ∈ seen)) eqn:Hcond.
  { simpl. split; [done|]. split; [done|]. intros x Hx. by apply not_elem_of_nil in Hx. }
  repeat rewrite orb_false_iff in Hcond.
  destruct Hcond as [[[[[H1 H2] H3] H4] H5] H6].
  apply bool_decide_eq_false in H6.
  apply negb_false_iff, Z.eqb_eq in H5.
  assert (Hnd0 : NoDup ((r, c) :: seen)) by (apply NoDup_cons_2; assumption).
  destruct (flood_fill fuel g (r + 1) c v ((r, c) :: seen)) as [l1 s1] eqn:E1.
  pose proof (IH (r + 1) c v _ Hnd0) as IH1. rewrite E1 in IH1.
  destruct IH1 as [Hn1 [Hp1 Hv1]]; simpl in *.
  destruct (flood_fill fuel g (r - 1) c v s1) as [l2 s2] eqn:E2.
  pose proof (IH (r - 1) c v _ Hn1) as IH2. rewrite E2 in IH2.
  destruct IH2 as [Hn2 [Hp2 Hv2]]; simpl in *.
  destruct (flood_fill fuel g r (c + 1) v s2) as [l3 s3] eqn:E3.
  pose proof (IH r (c + 1) v _ Hn2) as IH3. rewrite E3 in IH3.
  destruct IH3 as [Hn3 [Hp3 Hv3]]; simpl in *.
  destruct (flood_fill fuel g r (c - 1) v s3) as [l4 s4] eqn:E4.
  pose proof (IH r (c - 1) v _ Hn3) as IH4. rewrite E4 in IH4.
  destruct IH4 as [Hn4 [Hp4 Hv4]]; simpl in *.
  split; [done|]. split.
  - rewrite Hp4, Hp3, Hp2, Hp1. solve_Permutation.
  - intros x Hx. apply elem_of_cons in Hx. destruct Hx as [-> | Hx].
    + unfold in_bounds; simpl. lia.
    + repeat rewrite elem_of_app in Hx.
      destruct Hx as [Hx|[Hx|[Hx|Hx]]]; auto.
Qed.

(** A flood fill started on an unseen in-bounds cell holding its value
    returns that cell first. *)
Lemma flood_fill_seed (fuel : nat) (g : grid) (r c : Z) (seen : list cell) :
  in_bounds g (r, c) -> (r, c) ∉ seen ->
  (r, c) ∈ (flood_fill (S fuel) g r c (get g r c) seen).1.
Proof.
  intros [Hr Hc] Hs. simpl in Hr, Hc. simpl.
  replace ((r <? 0) || (r >=? height g) || (c <? 0) || (c >=? width g)
            || negb (get g r c =? get g r c) || bool_decide ((r, c) ∈ seen))
    with false.
  - repeat destruct (flood_fill _ _ _ _ _ _). simpl. apply elem_of_cons. by left.
  - rewrite Z.eqb_refl. simpl.
    rewrite bool_decide_eq_false_2 by done.
    symmetry. repeat rewrite orb_false_iff. repeat split; lia.
Qed.

Lemma elem_of_concat_map {A B} (f : A -> list B) (l : list A) (x : B) :
  x ∈ concat (map f l) <-> exists a, a ∈ l /\ x ∈ f a.
Proof.
  induction l as [|a l IH]; simpl.
  - split; [intros Hx; by apply not_elem_of_nil in Hx|].
    intros [a [Ha _]]. by apply not_elem_of_nil in Ha.
  - rewrite elem_of_app, IH. split.
    + intros [Hx | [b [Hb Hx]]].
      * exists a. split; [apply elem_of_cons; by left|done].
      * exists b. split; [apply elem_of_cons; by right|done].
    + intros [b [Hb Hx]]. apply elem_of_cons in Hb as [-> | Hb]; [by left|].
      right. by exists b.
Qed.

(** Two different positions of a list whose concatenated images have no
    duplicates have disjoint images. *)
Lemma NoDup_concat_map_disjoint {A B} (f : A -> list B) (l : list A) :
  NoDup (concat (map f l)) ->
  forall (i j : nat) (a b : A), l !! i = Some a -> l !! j = Some b -> i <> j ->
  forall x, x ∈ f a -> x ∉ f b.
Proof.
  induction l as [|a0 l IH]; intros Hnd i j a b Hi Hj Hij x Hx Hy; [done|].
  simpl in Hnd. apply NoDup_app in Hnd as [Hn0 [Hdis Hnl]].
  destruct i as [|i], j as [|j]; simpl in Hi, Hj.
  - done.
  - injection Hi as ->. apply (Hdis x Hx). apply elem_of_concat_map.
    exists b. split; [by eapply list_elem_of_lookup_2|done].
  - injection Hj as ->. apply (Hdis x Hy). apply elem_of_concat_map.
    exists a. split; [by eapply list_elem_of_lookup_2|done].
  - eapply (IH Hnl i j a b); eauto.
Qed.

Lemma scan_cell_inv (g : grid) (st : list obj * list cell) (rc : cell) :
  in_bounds g rc -> scan_inv g st ->
  scan_inv g (scan_cell g st rc) /\
  (forall x, x ∈ st.2 -> x ∈ (scan_cell g st rc).2) /\
  (get g rc.1 rc.2 <> 0 -> rc ∈ (scan_cell g st rc).2).
Proof.
  destruct st as [objs seen], rc as [r c].
  intros Hb [Hnd [Hp Hv]]; simpl in *. unfold scan_cell.
  destruct (negb (bool_decide ((r, c) ∈ seen)) && negb (get g r c =? 0)) eqn:Hc.
  - apply andb_true_iff in Hc as [Hc1 Hc2].
    apply negb_true_iff, bool_decide_eq_false in Hc1.
    apply negb_true_iff, Z.eqb_neq in Hc2.
    pose proof (flood_fill_seed (length g * length (hd [] g)) g r c seen Hb Hc1)
      as Hseed.
    pose proof (flood_fill_spec (ff_fuel g) g r c (get g r c) seen Hnd) as Hff.
    unfold ff_fuel in Hff. rewrite Nat.add_1_r in Hff.
    destruct (flood_fill (S (length g * length (hd [] g))) g r c (get g r c) seen)
      as [cs seen'] eqn:E.
    unfold ff_fuel. rewrite Nat.add_1_r, E.
    simpl in Hff, Hseed. destruct Hff as [Hnd' [Hp' Hv']].
    destruct cs as [|p cs]; [by apply not_elem_of_nil in Hseed|].
    cbn [fst snd]. split; [split; [done|split]|split].
    + cbn [fst snd]. rewrite Hp', Hp, map_app, concat_app. simpl. rewrite app_nil_r.
      apply (Permutation_app_comm (p :: cs)).
    + intros x Hx. rewrite Hp' in Hx. apply elem_of_app in Hx as [Hx|Hx].
      * destruct (Hv' x Hx) as [Hxb Hxv]. split; [done|]. by rewrite Hxv.
      * by apply Hv.
    + intros x Hx. rewrite Hp'. apply elem_of_app. by right.
    + intros _. rewrite Hp'. apply elem_of_app. by left.
  - simpl. split; [done|]. split; [done|]. intros Hnz.
    apply andb_false_iff in Hc as [Hc|Hc].
    + apply negb_false_iff, bool_decide_eq_true in Hc. done.
    + apply negb_false_iff, Z.eqb_eq in Hc. done.
Qed.

Lemma scan_fold_inv (g : grid) (L : list cell) :
  forall st, (forall x, In x L -> in_bounds g x) -> scan_inv g st ->
  let st' := fold_left (scan_cell g) L st in
  scan_inv g st' /\ (forall x, x ∈ st.2 -> x ∈ st'.2) /\
  (forall x, In x L -> get g x.1 x.2 <> 0 -> x ∈ st'.2).
Proof.
  induction L as [|rc L IH]; intros st HL Hinv; simpl.
  - split; [done|]. split; [done|]. intros x [].
  - destruct (scan_cell_inv g st rc (HL rc (or_introl eq_refl)) Hinv)
      as [Hinv1 [Hmono1 Hrc1]].
    destruct (IH (scan_cell g st rc) (fun x Hx => HL x (or_intror Hx)) Hinv1)
      as [Hinv2 [Hmono2 Hcov2]].
    split; [done|]. split; [auto|].
    intros x [<- | Hx] Hnz; auto.
Qed.

(** Claim C1: for every well-formed grid, the objects returned by
    [get_objects] have pairwise disjoint cell sets, and the union of their
    cells is exactly the set of non-zero cells of the grid. *)
Theorem get_objects_partition (g : grid) :
  well_formed g ->
  let objs := get_objects g in
  (forall (i j : nat) (oi oj : obj), objs !! i = Some oi -> objs !! j = Some oj ->
     i <> j -> forall x, x ∈ coords oi -> x ∉ coords oj) /\
  (forall x : cell,
     (exists o, o ∈ objs /\ x ∈ coords o) <-> in_bounds g x /\ get g x.1 x.2 <> 0).
Proof.
  intros _. unfold get_objects.
  assert (Hinv0 : scan_inv g ([], [])).
  { split; [constructor|]. split; [done|].
    intros x Hx. by apply not_elem_of_nil in Hx. }
  destruct (scan_fold_inv g (row_major_cells g) ([], [])
              (fun x Hx => proj1 (row_major_cells_spec g x) Hx) Hinv0)
    as [[Hnd [Hp Hv]] [_ Hcov]].
  destruct (fold_left (scan_cell g) (row_major_cells g) ([], [])) as [objs seen].
  simpl in *. split.
  - apply NoDup_concat_map_disjoint. by rewrite <- Hp.
  - intros x. rewrite <- elem_of_concat_map, <- Hp. split.
    + apply Hv.
    + intros [Hb Hnz]. apply Hcov; [|done]. by apply row_major_cells_spec.
Qed.

(* ================================================================== *)
(** ** Lemmas on the value-mapping analysis *)

Lemma dedup_sorted_In (l : list Z) (x : Z) : In x (dedup_sorted l) <-> In x l.
Proof.
  induction l as [|a l IH]; [done|].
  destruct l as [|b l']; [done|].
  change (In x (if a =? b then dedup_sorted (b :: l') else a :: dedup_sorted (b :: l'))
          <-> In x (a :: b :: l')).
  destruct (Z.eqb_spec a b) as [->|Hab].
  - rewrite IH. simpl. tauto.
  - simpl. rewrite IH. simpl. tauto.
Qed.

Lemma np_unique_In (l : list Z) (x : Z) : In x (np_unique l) <-> In x l.
Proof.
  unfold np_unique. rewrite dedup_sorted_In, <- !elem_of_In_iff.
  by rewrite (merge_sort_Permutation Z.le l).
Qed.








Lemma get_in_concat (g : grid) (r c : Z) : get g r c <> 0 -> In (get g r c) (concat g).
Proof.
  unfold get. intros H. apply in_concat.
  destruct (Nat.lt_ge_cases (Z.to_nat r) (length g)) as [Hr|Hr];
    [|rewrite (nth_overflow g) in H by done; by destruct (Z.to_nat c)].
  exists (nth (Z.to_nat r) g []). split; [by apply nth_In|].
  destruct (Nat.lt_ge_cases (Z.to_nat c) (length (nth (Z.to_nat r) g []))) as [Hc|Hc];
    [by apply nth_In|]. by rewrite nth_overflow in H.
Qed.

Lemma analyze_value_mappings_fold (i o : grid) (L : list Z) (m0 : gmap Z value_mapping) :
  shape i = shape o ->
  exists m,
    fold_left (fun acc in_val =>
               m ← acc;
               if in_val =? 0 then Ok m
               else if negb (bool_decide (shape i = shape o)) then Err IndexError
               else match classify_value i o in_val with
                    | Some vm => Ok (<[in_val := vm]> m)
                    | None => Ok m
                    end) L (Ok m0) = Ok m /\
    (forall v, v <> 0 -> In v L -> m !! v = classify_value i o v ∪ m0 !! v) /\
    (forall v, ~ (v <> 0 /\ In v L) -> m !! v = m0 !! v).
Proof.
  intros Hs. revert m0. induction L as [|x L IH]; intros m0; simpl.
  - exists m0. split; [reflexivity|]. split; [by intros v _ []|done].
  - set (m1 := if x =? 0 then m0 else match classify_value i o x with
                                      | Some vm => <[x:=vm]> m0 | None => m0 end).
    assert (Hm1 : forall v, m1 !! v =
              if decide (v = x /\ x <> 0) then classify_value i o v ∪ m0 !! v else m0 !! v).
    { intros v. subst m1. destruct (Z.eqb_spec x 0) as [->|Hx].
      - rewrite decide_False by naive_solver. done.
      - destruct (decide (v = x)) as [->|Hv].
        + rewrite decide_True by done. destruct (classify_value i o x); simpl.
          * rewrite lookup_insert_eq. by destruct (m0 !! x).
          * by destruct (m0 !! x).
        + rewrite decide_False by tauto. destruct (classify_value i o x); [|done].
          by rewrite lookup_insert_ne. }
    destruct (IH m1) as (m & Hf & Hin & Hout). exists m. split.
    { rewrite <- Hf. f_equal. simpl. rewrite bool_decide_true by done.
      subst m1. destruct (x =? 0); [done|]. by destruct (classify_value i o x). }
    split.
    + intros v Hv [->|HL].
      * destruct (in_dec Z.eq_dec v L) as [HL|HL].
        -- rewrite Hin, Hm1 by done. rewrite decide_True by done.
           destruct (classify_value i o v), (m0 !! v); reflexivity.
        -- rewrite Hout by tauto. rewrite Hm1, decide_True by done. done.
      * rewrite Hin, Hm1 by done.
        destruct (decide (v = x /\ x <> 0)) as [[-> _]|Hd]; [|done].
        destruct (classify_value i o x), (m0 !! x); reflexivity.
    + intros v Hv. rewrite Hout by (simpl in Hv; tauto).
      rewrite Hm1, decide_False by (simpl in Hv; intros [-> ?]; tauto). done.
Qed.

(* ================================================================== *)
(** ** Lemmas on the consistency reduction *)

Lemma Forall_perm {A} (P : A -> Prop) (l l' : list A) :
  l ≡ₚ l' -> Forall P l -> Forall P l'.
Proof.
  intros Hp. rewrite !Forall_forall. intros H x Hx.
  apply H. by rewrite Hp.
Qed.

Lemma forallb_Forall {A} (f : A -> bool) (P : A -> Prop) (l : list A) :
  (forall x, f x = true <-> P x) -> (forallb f l = true <-> Forall P l).
Proof.
  intros Hf. rewrite forallb_forall, List.Forall_forall. split; intros H x Hx; apply Hf, H; done.
Qed.

Lemma consistent_vms_spec (first : analysis) (rest : list analysis) (c : consistent) (k : Z) (x : value_mapping) :
  find_consistent_transforms (first :: rest) = Some c ->
  c_value_mappings c !! k = Some x <-> Forall (fun t => value_mappings t !! k = Some x) (first :: rest).
Proof.
  intros [= <-]. simpl. rewrite map_lookup_filter_Some, Forall_cons. simpl. tauto.
Qed.

Lemma consistent_count_spec (first : analysis) (rest : list analysis) (c : consistent) (n : Z) :
  find_consistent_transforms (first :: rest) = Some c ->
  c_object_count_change (c_object_transforms c) = Some n <->
  Forall (fun t => object_count_change (object_transforms t) = n) (first :: rest).
Proof.
  intros [= <-]. simpl. rewrite Forall_cons.
  destruct (forallb _ rest) eqn:Hf.
  - apply (forallb_Forall _ (fun t => object_count_change (object_transforms t) =
                                     object_count_change (object_transforms first))) in Hf;
      [|intros t; apply Z.eqb_eq].
    split.
    + intros [= <-]. by split.
    + intros [<- _]. done.
  - split; [discriminate|]. intros [Hn Hall]. rewrite <- not_true_iff_false in Hf.
    exfalso. apply Hf, (forallb_Forall _ (fun t => object_count_change (object_transforms t) = n));
      [intros t; rewrite Z.eqb_eq; subst; done|done].
Qed.

Lemma consistent_global_spec (first : analysis) (rest : list analysis) (c : consistent) (gt : transform) :
  find_consistent_transforms (first :: rest) = Some c ->
  c_global_transform (c_spatial_transforms c) = Some gt <->
  Forall (fun t => global_transform (spatial_transforms t) = gt) (first :: rest).
Proof.
  intros [= <-]. simpl. rewrite Forall_cons.
  destruct (forallb _ rest) eqn:Hf.
  - apply (forallb_Forall _ (fun t => global_transform (spatial_transforms t) =
                                     global_transform (spatial_transforms first))) in Hf;
      [|intros t; apply bool_decide_eq_true].
    split.
    + intros [= <-]. by split.
    + intros [<- _]. done.
  - split; [discriminate|]. intros [Hn Hall]. rewrite <- not_true_iff_false in Hf.
    exfalso. apply Hf, (forallb_Forall _ (fun t => global_transform (spatial_transforms t) = gt));
      [intros t; rewrite bool_decide_eq_true; subst; done|done].
Qed.

Lemma consistent_rels_spec (first : analysis) (rest : list analysis) (c : consistent) (rc : rel_change) :
  find_consistent_transforms (first :: rest) = Some c ->
  In rc (c_relative_positions (c_spatial_transforms c)) <->
  Forall (fun t => In rc (relative_positions (spatial_transforms t))) (first :: rest).
Proof.
  intros [= <-]. simpl. rewrite filter_In, Forall_cons.
  rewrite (forallb_Forall _ (fun t => In rc (relative_positions (spatial_transforms t)))); [done|].
  intros t. rewrite existsb_exists. split.
  - intros (oc & Hoc & Heq). apply bool_decide_eq_true in Heq. by subst.
  - intros Hin. exists rc. split; [done|]. by apply bool_decide_eq_true.
Qed.

Lemma single_match_with_spec (T : transform) (m : obj_mapping) :
  single_match_with T m = true <-> exists mt, matches m = [mt] /\ mtransform mt = T.
Proof.
  unfold single_match_with. destruct (matches m) as [|mt [|? ?]].
  - split; [discriminate|]. by intros (? & ? & _).
  - rewrite bool_decide_eq_true. split; [eauto|]. by intros (? & [= ->] & ?).
  - split; [discriminate|]. by intros (? & ? & _).
Qed.

Lemma consistent_mappings_spec (first : analysis) (rest : list analysis) (c : consistent) (v : Z) (T : transform) :
  find_consistent_transforms (first :: rest) = Some c ->
  In (v, T) (c_mappings (c_object_transforms c)) <->
  T <> TComplex /\
  (exists m, In m (object_mappings (object_transforms first)) /\
             value (input_object m) = v /\ single_match_with T m = true) /\
  Forall (fun t => exists m, In m (object_mappings (object_transforms t)) /\
                             single_match_with T m = true) rest.
Proof.
  intros [= <-]. simpl. rewrite <- elem_of_In_iff, list_elem_of_omap.
  assert (Hrest : forall T', forallb (fun tr => existsb (single_match_with T')
                     (object_mappings (object_transforms tr))) rest = true <->
                  Forall (fun t => exists m, In m (object_mappings (object_transforms t)) /\
                             single_match_with T' m = true) rest).
  { intros T'. apply forallb_Forall. intros t. apply existsb_exists. }
  split.
  - intros (m & Hm & Hf). apply elem_of_In_iff in Hm.
    destruct (matches m) as [|mt [|? ?]] eqn:Hmt; try discriminate.
    case_bool_decide as Hc; [discriminate|].
    destruct (forallb _ rest) eqn:Hfa; [|discriminate].
    injection Hf as <- <-. split; [done|]. split.
    + exists m. split; [done|]. split; [done|]. apply single_match_with_spec. eauto.
    + by apply Hrest.
  - intros (Hc & (m & Hm & Hv & Hs) & Hall). exists m. split; [by apply elem_of_In_iff|].
    apply single_match_with_spec in Hs as (mt & Hmt & <-). rewrite Hmt.
    rewrite bool_decide_false by done. apply Hrest in Hall. rewrite Hall. by subst.
Qed.

(* ================================================================== *)
(** ** Lemmas on the store and [_apply_transforms] *)

Lemma keeps_bind {A B} (n : nat) (m : M A) (f : A -> M B) (Q : A -> Prop) (R : B -> Prop) :
  keeps n m Q -> (forall a, Q a -> keeps n (f a) R) -> keeps n (m ≫= f) R.
Proof.
  intros Hm Hf st r st'' Hn. unfold mbind, M_bind.
  destruct (m st) as [[a st']|e] eqn:E; [|discriminate]. intros Hr.
  destruct (Hm st a st' Hn E) as (Hn' & Ht & Hq).
  destruct (Hf a Hq st' r st'' Hn' Hr) as (Hn'' & Ht' & HR).
  split; [done|]. split; [|done]. by rewrite Ht', Ht.
Qed.

Lemma keeps_ret {A} (n : nat) (a : A) (Q : A -> Prop) : Q a -> keeps n (mret a) Q.
Proof. intros Hq st r st' Hn [= <- <-]. done. Qed.

Lemma keeps_raise {A} (n : nat) (e : py_error) (Q : A -> Prop) : keeps n (raise e) Q.
Proof. intros st r st' _ H. discriminate. Qed.

Lemma keeps_gets {A} (n : nat) (f : store -> A) : keeps n (gets f) (fun _ => True).
Proof. intros st r st' Hn [= <- <-]. done. Qed.

Lemma keeps_lift {A} (n : nat) (r : result A) : keeps n (lift r) (fun _ => True).
Proof. intros st a st' Hn. unfold lift. destruct r; [intros [= <- <-]; done|discriminate]. Qed.

Lemma keeps_miter {B} (n : nat) (f : B -> M unit) (l : list B) :
  (forall x, In x l -> keeps n (f x) (fun _ => True)) -> keeps n (miter f l) (fun _ => True).
Proof.
  induction l as [|x l IH]; intros Hf; simpl.
  - by apply keeps_ret.
  - apply (keeps_bind _ _ _ (fun _ => True)); [apply Hf; by left|].
    intros _ _. apply IH. intros y Hy. apply Hf. by right.
Qed.

Lemma keeps_alloc_grid (n : nat) (g : grid) : keeps n (alloc_grid g) (fun a => (n <= buf a)%nat).
Proof.
  intros st r st' Hn [= <- <-]. simpl. rewrite length_app. simpl.
  split; [lia|]. split; [by rewrite take_app_le|done].
Qed.

Lemma keeps_copy (n : nat) (a : ndarray) : keeps n (copy a) (fun a' => (n <= buf a')%nat).
Proof. intros st r st' Hn E. by apply (keeps_alloc_grid n (to_grid st a) st). Qed.

Lemma keeps_write_cell (n : nat) (a : ndarray) (v : Z) (ij : nat * nat) :
  (n <= buf a)%nat -> keeps n (write_cell a v ij) (fun _ => True).
Proof.
  intros Hb st r st' Hn [= <- <-]. rewrite length_alter.
  split; [done|]. split; [by apply take_alter_ge|done].
Qed.

Lemma keeps_write_cells (n : nat) (a : ndarray) (ijs : list (nat * nat)) (v : Z) :
  (n <= buf a)%nat -> keeps n (write_cells a ijs v) (fun _ => True).
Proof. intros Hb. apply keeps_miter. intros x _. by apply keeps_write_cell. Qed.

Lemma rot90_view_buf (a : ndarray) (k : Z) : buf (rot90_view a k) = buf a.
Proof. unfold rot90_view. induction (Z.to_nat (k mod 4)) as [|m IH]; simpl; done. Qed.

Lemma keeps_apply_global (n : nat) (a : ndarray) (gt : option transform) :
  (n <= buf a)%nat -> keeps n (apply_global a gt) (fun a' => (n <= buf a')%nat).
Proof.
  intros Hb. unfold apply_global. destruct (default TNone gt) as [| | f |d|ax|]; try by apply keeps_ret.
  - destruct (f <? 0); [apply keeps_raise|].
    apply (keeps_bind _ _ _ (fun _ => True)); [apply keeps_gets|].
    intros g _. apply keeps_alloc_grid.
  - apply keeps_ret. by rewrite rot90_view_buf.
  - apply keeps_ret. by destruct ax.
Qed.

Lemma keeps_apply_value_mapping (n : nat) (a : ndarray) (val : Z) (mapping : value_mapping) :
  (n <= buf a)%nat -> keeps n (apply_value_mapping a val mapping) (fun _ => True).
Proof.
  intros Hb. unfold apply_value_mapping.
  apply (keeps_bind _ _ _ (fun _ => True)); [apply keeps_gets|]. intros mask _.
  destruct mapping as [to|conds|pv].
  - by apply keeps_write_cells.
  - apply keeps_miter. intros [pt nv] _. by apply keeps_write_cells.
  - by apply keeps_ret.
Qed.

Lemma keeps_apply_obj_mapping (n : nat) (a : ndarray) (o : obj) (m : Z * transform) :
  (n <= buf a)%nat -> keeps n (apply_obj_mapping a o m) (fun _ => True).
Proof.
  intros Hb. destruct m as [iv t]. unfold apply_obj_mapping.
  destruct (iv =? value o); [|by apply keeps_ret].
  apply (keeps_bind _ _ _ (fun _ => True)); [apply keeps_gets|]. intros og _.
  apply (keeps_bind _ _ _ (fun _ => True)); [apply keeps_lift|]. intros og' _.
  case_bool_decide; [|by apply keeps_ret].
  apply keeps_miter. intros [i j] _. by apply keeps_write_cell.
Qed.

Lemma keeps_apply_rel_change (n : nat) (a : ndarray) (rc : rel_change) :
  (n <= buf a)%nat -> keeps n (apply_rel_change a rc) (fun _ => True).
Proof.
  intros Hb. unfold apply_rel_change. destruct (robjects rc) as [v1 v2].
  apply (keeps_bind _ _ _ (fun _ => True)); [apply keeps_gets|]. intros m1 _.
  apply (keeps_bind _ _ _ (fun _ => True)); [apply keeps_gets|]. intros m2 _.
  destruct m1 as [|p1 m1], m2 as [|p2 m2]; try by apply keeps_ret.
  cbn zeta. destruct (_ && _); [by apply keeps_ret|].
  apply (keeps_bind _ _ _ (fun a' => (n <= buf a')%nat)); [apply keeps_copy|]. intros np Hnp.
  apply (keeps_bind _ _ _ (fun _ => True)); [by apply keeps_write_cells|]. intros _ _.
  destruct (existsb _ _); [apply keeps_raise|by apply keeps_ret].
Qed.

Lemma keeps_apply_transforms (n : nat) (input : ndarray) (tr : option consistent) :
  keeps n (apply_transforms input tr) (fun a => (n <= buf a)%nat).
Proof.
  unfold apply_transforms.
  apply (keeps_bind _ _ _ (fun a' => (n <= buf a')%nat)); [apply keeps_copy|]. intros p Hp.
  destruct tr as [c|]; [|apply keeps_raise].
  apply (keeps_bind _ _ _ (fun a' => (n <= buf a')%nat)); [by apply keeps_apply_global|].
  intros p' Hp'.
  apply (keeps_bind _ _ _ (fun _ => True)).
  { apply keeps_miter. intros k _. destruct (_ !! k); [by apply keeps_apply_value_mapping|by apply keeps_ret]. }
  intros _ _.
  apply (keeps_bind _ _ _ (fun _ => True)); [apply keeps_gets|]. intros objs _.
  apply (keeps_bind _ _ _ (fun _ => True)).
  { apply keeps_miter. intros o _. apply keeps_miter. intros m _. by apply keeps_apply_obj_mapping. }
  intros _ _.
  apply (keeps_bind _ _ _ (fun _ => True)).
  { apply keeps_miter. intros rc _. by apply keeps_apply_rel_change. }
  intros _ _. by apply keeps_ret.
Qed.

Lemma bind_Ok_step {A B} (m : M A) (f : A -> M B) (st st' : store) (a : A) :
  m st = Ok (a, st') -> (m ≫= f) st = f a st'.
Proof. intros E. unfold mbind, M_bind. by rewrite E. Qed.

Lemma miter_nil_objects {B C} (f : B -> C -> M unit) (objs : list B) (st : store) :
  miter (fun o => miter (f o) []) objs st = Ok (tt, st).
Proof. induction objs as [|o objs IH]; [done|]. simpl. unfold mbind, M_bind. simpl. exact IH. Qed.

Lemma concat_lookup_rect (g : grid) (w i j : nat) :
  Forall (fun row => length row = w) g -> (j < w)%nat ->
  concat g !! (i * w + j)%nat = g !! i ≫= (fun row => row !! j).
Proof.
  intros Hg Hj. revert i. induction Hg as [|row g Hrow Hg IH]; intros i; simpl.
  - by rewrite lookup_nil.
  - destruct i as [|i]; simpl.
    + apply lookup_app_l. lia.
    + rewrite lookup_app_r by lia. rewrite <- IH. f_equal. lia.
Qed.

Lemma map_seq_lookup (row : list Z) :
  map (fun j => default 0 (row !! j)) (seq 0 (length row)) = row.
Proof.
  apply list_eq. intros j. rewrite list_lookup_fmap.
  destruct (decide (j < length row)%nat) as [Hj|Hj].
  - rewrite lookup_seq_lt by done. simpl.
    destruct (lookup_lt_is_Some_2 row j Hj) as [x Hx]. by rewrite Hx.
  - rewrite lookup_seq_ge by lia. rewrite lookup_ge_None_2 by lia. done.
Qed.

Lemma alloc_read_back (st : store) (g : grid) (w : nat) :
  Forall (fun row => length row = w) g ->
  to_grid (st ++ [concat g])
          (mk_nd (length st) (length g) (length (hd [] g)) (fun i j => (i * length (hd [] g) + j)%nat))
  = g.
Proof.
  intros Hg. destruct g as [|row0 g0] eqn:Eg; [done|]. rewrite <- Eg in Hg |- *.
  assert (Hw : length (hd [] g) = w) by (subst g; by inversion Hg).
  rewrite Hw. unfold to_grid. simpl.
  apply list_eq. intros i. rewrite list_lookup_fmap.
  destruct (decide (i < length g)%nat) as [Hi|Hi].
  - rewrite lookup_seq_lt by done. simpl.
    destruct (lookup_lt_is_Some_2 g i Hi) as [row Hrow]. rewrite Hrow. f_equal.
    assert (Hlen : length row = w).
    { rewrite Forall_lookup in Hg. by apply (Hg i). }
    transitivity (map (fun j => default 0 (row !! j)) (seq 0 (length row))); [|apply map_seq_lookup]. rewrite Hlen.
    apply map_ext_in. intros j Hj. apply in_seq in Hj.
    unfold read_cell. simpl. rewrite list_lookup_middle by done. simpl.
    rewrite (concat_lookup_rect _ w) by (done || lia). by rewrite Hrow.
  - rewrite lookup_seq_ge by lia. rewrite lookup_ge_None_2 by lia. done.
Qed.

Lemma to_grid_rect (st : store) (a : ndarray) :
  Forall (fun row => length row = ncols a) (to_grid st a).
Proof.
  unfold to_grid. apply List.Forall_forall. intros row Hrow.
  apply in_map_iff in Hrow as (i & <- & _). by rewrite length_map, length_seq.
Qed.

Lemma apply_transforms_empty (input : ndarray) (c : consistent) (st : store) :
  empty_consistent c ->
  apply_transforms input (Some c) st =
  Ok (mk_nd (length st) (length (to_grid st input)) (length (hd [] (to_grid st input)))
            (fun i j => (i * length (hd [] (to_grid st input)) + j)%nat),
      st ++ [concat (to_grid st input)]).
Proof.
  destruct c as [vms [cnt maps] [gt rels]]. unfold empty_consistent. simpl.
  intros (-> & -> & Hgt & ->). unfold apply_transforms.
  erewrite bind_Ok_step by reflexivity. cbv beta iota.
  cbn [c_global_transform c_spatial_transforms c_value_mappings c_object_transforms c_mappings c_relative_positions].
  erewrite bind_Ok_step by (unfold apply_global; rewrite Hgt; reflexivity).
  erewrite bind_Ok_step by reflexivity.
  erewrite bind_Ok_step by reflexivity.
  erewrite bind_Ok_step by (apply miter_nil_objects).
  erewrite bind_Ok_step by reflexivity.
  reflexivity.
Qed.

(* ================================================================== *)
(** ** Lemmas on the global transform *)

Lemma scale_check_spec (h1 w1 h2 w2 : Z) :
  h1 <> 0 -> w1 <> 0 ->
  scale_check h1 w1 h2 w2 =
  if decide (h2 mod h1 = 0 /\ w2 mod w1 = 0 /\ h2 / h1 = w2 / w1)
  then Ok (Some (TScale (h2 / h1))) else Ok None.
Proof.
  intros H1 W1. unfold scale_check.
  rewrite (proj2 (Z.eqb_neq h1 0) H1), (proj2 (Z.eqb_neq w1 0) W1).
  destruct (Z.eqb_spec (h2 mod h1) 0), (Z.eqb_spec (w2 mod w1) 0),
           (Z.eqb_spec (h2 / h1) (w2 / w1)); simpl;
    case_decide; first [reflexivity | tauto].
Qed.

Lemma first_rotation_spec (g1 g2 : grid) :
  match first_rotation g1 g2 with
  | Some k => k ∈ [1; 2; 3] /\ rot90 g1 k = g2
  | None => forall k, k ∈ [1; 2; 3] -> rot90 g1 k <> g2
  end.
Proof.
  unfold first_rotation, grid_eqb. simpl.
  repeat case_bool_decide; (split; [set_solver|done]) || idtac.
  intros k Hk. repeat rewrite elem_of_cons in Hk.
  destruct Hk as [->|[->|[->|Hk]]]; [done|done|done|by apply not_elem_of_nil in Hk].
Qed.

(* ================================================================== *)
(** ** Lemmas on the progression detector *)

Lemma enumerate_from_spec {A} (k : nat) (l : list A) (d : A) (i : nat) (x : A) :
  In (i, x) (enumerate_from k l) -> (k <= i)%nat /\ nth (i - k) l d = x.
Proof.
  revert k. induction l as [|a l IH]; intros k H; simpl in H; [done|].
  destruct H as [H|H].
  - injection H as <- <-. rewrite Nat.sub_diag. split; [lia|done].
  - destruct (IH (S k) H) as [Hk Hn]. split; [lia|].
    replace (i - k)%nat with (S (i - S k)) by lia. done.
Qed.

Lemma compare_cont_Eq_iff (m1 m2 : positive) : Pos.compare_cont Eq m1 m2 = Eq <-> m1 = m2.
Proof.
  change (Pos.compare_cont Eq m1 m2) with (Pos.compare m1 m2). apply Pos.compare_eq_iff.
Qed.

(** [==] on floats: zeros of either sign are equal, [nan] equals nothing,
    other values are equal when they are the same number. *)
Lemma feqb_spec (x y : f64) :
  feqb x y = true <->
  match x, y with
  | S754_zero _, S754_zero _ => True
  | S754_nan, _ | _, S754_nan => False
  | _, _ => x = y
  end.
Proof.
  unfold feqb, SFeqb.
  destruct x as [sx|sx| |sx mx ex], y as [sy|sy| |sy my ey];
    try destruct sx; try destruct sy; simpl; try (split; intros; done).
  - destruct (Z.compare_spec ex ey) as [<-|H|H];
      [|split; [done|intros [=]; lia]|split; [done|intros [=]; lia]].
    destruct (Pos.compare_cont Eq mx my) eqn:E; simpl; split; try done.
    + intros _. apply compare_cont_Eq_iff in E. by subst.
    + intros [= ->]. by rewrite (proj2 (compare_cont_Eq_iff my my) eq_refl) in E.
    + intros [= ->]. by rewrite (proj2 (compare_cont_Eq_iff my my) eq_refl) in E.
  - destruct (Z.compare_spec ex ey) as [<-|H|H];
      [|split; [done|intros [=]; lia]|split; [done|intros [=]; lia]].
    destruct (Pos.compare_cont Eq mx my) eqn:E; simpl; split; try done.
    + intros _. apply compare_cont_Eq_iff in E. by subst.
    + intros [= ->]. by rewrite (proj2 (compare_cont_Eq_iff my my) eq_refl) in E.
    + intros [= ->]. by rewrite (proj2 (compare_cont_Eq_iff my my) eq_refl) in E.
Qed.

Lemma feqb_refl (x : f64) : is_nan x = false -> feqb x x = true.
Proof. intros H. apply feqb_spec. destruct x; done. Qed.

Lemma feqb_sym (x y : f64) : feqb x y = true -> feqb y x = true.
Proof.
  rewrite !feqb_spec. destruct x, y; try done; intros E; by rewrite E.
Qed.

Lemma feqb_trans (x y z : f64) : feqb x y = true -> feqb y z = true -> feqb x z = true.
Proof.
  rewrite !feqb_spec. destruct x, y, z; try done; intros E1 E2; congruence.
Qed.

(** When [one_distinct_f] holds, the ratios that are not [nan] all
    compare equal ([==]) to one another. *)
Lemma one_distinct_f_spec (l : list f64) :
  one_distinct_f l = true ->
  forall x y, In x l -> In y l -> is_nan x = false -> is_nan y = false -> feqb x y = true.
Proof.
  unfold one_distinct_f.
  destruct (List.filter (fun x => negb (is_nan x)) l) as [|h xs] eqn:Hf; [discriminate|].
  intros Hall.
  assert (Hh : is_nan h = false).
  { assert (Hx : In h (List.filter (fun x => negb (is_nan x)) l)) by (rewrite Hf; by left).
    apply filter_In in Hx as [_ Hx]. by apply negb_true_iff in Hx. }
  assert (Hto : forall y, In y l -> is_nan y = false -> feqb h y = true).
  { intros y Hy Hny.
    assert (Hin : In y (h :: xs)).
    { rewrite <- Hf. apply filter_In. split; [done|]. by rewrite Hny. }
    destruct Hin as [<- | Hin]; [by apply feqb_refl|].
    by apply (proj1 (forallb_forall _ _) Hall). }
  intros x y Hx Hy Hnx Hny. apply (feqb_trans _ h); [apply feqb_sym|]; auto.
Qed.

Lemma line_findings_geometric (loc' loc : line) (row : list Z) (r : f64) :
  In (Geometric loc r) (line_findings loc' row) ->
  loc = loc' /\ (1 < length (List.filter (fun x => negb (Z.eqb x 0)) row))%nat /\
  one_distinct_f (ratios row) = true /\ r = hd S754_nan (ratios row).
Proof.
  unfold line_findings. rewrite in_app_iff. intros [H|H].
  - destruct (one_distinct_Z (diffs row)); simpl in H; [|done].
    destruct H as [H|[]]. discriminate.
  - destruct (Nat.ltb 1 _ && one_distinct_f (ratios row)) eqn:Hc; simpl in H; [|done].
    destruct H as [H|[]]. injection H as -> ->.
    apply andb_true_iff in Hc as [Hc1 Hc2]. apply Nat.ltb_lt in Hc1. done.
Qed.

(* ================================================================== *)
(** ** Concrete scenarios *)

(** Claim C3 (counterexample): on the scenario-1 pair the value-mapping
    analysis does not report [{0: direct->1, 1: direct->0}]. *)
Lemma value_mappings_scenario1_counterexample :
  ~ (exists m, analyze_value_mappings [[0;0;0];[0;1;0];[0;0;0]] [[1;1;1];[1;0;1];[1;1;1]] = Ok m
               /\ m !! 0 = Some (Direct 1) /\ m !! 1 = Some (Direct 0)).
Proof.
  intros [m [Hm [H0 _]]]. vm_compute in Hm. injection Hm as <-. vm_compute in H0.
  discriminate.
Qed.

(** Claim C3 (amended): on the scenario-1 pair the value-mapping analysis
    reports exactly [{1: direct->0}]; the background value 0 is skipped. *)
Theorem value_mappings_scenario1 :
  analyze_value_mappings [[0;0;0];[0;1;0];[0;0;0]] [[1;1;1];[1;0;1];[1;1;1]]
  = Ok {[1 := Direct 0]}.
Proof. vm_compute. reflexivity. Qed.

(** Claim C6 (counterexample): on the scenario-2 pair the global-transform
    analysis does not report [flip(axis=vertical)], and the global
    transform it reports does not leave the test input unchanged. *)
Lemma global_transform_scenario2_counterexample :
  find_global_transform [[1;0;0];[0;0;0];[0;0;0]] [[0;0;1];[0;0;0];[0;0;0]]
    <> Ok (TFlip Vertical) /\
  run_global (Some (TRotation 270)) [[0;1;0];[0;0;0];[0;0;0]]
    <> Ok [[0;1;0];[0;0;0];[0;0;0]].
Proof. split; vm_compute; discriminate. Qed.

(** Claim C6 (amended): on the scenario-2 pair the global-transform
    analysis reports [rotation(270)] (rotations are tried before flips);
    applied to [[0,1,0],[0,0,0],[0,0,0]] that transform gives
    [[0,0,0],[0,0,1],[0,0,0]], and the whole prediction, which also
    applies the learned mapping [1 -> 0], is the all-zero grid. *)
Theorem global_transform_scenario2 :
  find_global_transform [[1;0;0];[0;0;0];[0;0;0]] [[0;0;1];[0;0;0];[0;0;0]]
    = Ok (TRotation 270) /\
  run_global (Some (TRotation 270)) [[0;1;0];[0;0;0];[0;0;0]]
    = Ok [[0;0;0];[0;0;1];[0;0;0]] /\
  run_predict [[0;1;0];[0;0;0];[0;0;0]]
              [[[1;0;0];[0;0;0];[0;0;0]]] [[[0;0;1];[0;0;0];[0;0;0]]]
    = Ok [[0;0;0];[0;0;0];[0;0;0]].
Proof. vm_compute. repeat split. Qed.

(** Claim C10: with no training pairs the consistent set is the empty
    dictionary and the application step raises [KeyError] on the
    missing ['spatial_transforms'] key, whatever the input array and the
    store. *)
Theorem predict_output_no_pairs_key_error (input : ndarray) (st : store) :
  find_consistent_transforms [] = None /\
  predict_output input [] [] st = Err (KeyError "spatial_transforms").
Proof. split; reflexivity. Qed.

(** Claim C7 (counterexample): the object extraction accepts the empty
    grid (it returns no objects), and the only validation of the
    repository reports a [TaskError], not a dedicated malformed-grid
    error. *)
Lemma malformed_grid_counterexample :
  get_objects [] = [] /\
  validate_grid [] "input" = Err (TaskError "input must be non-empty").
Proof. split; reflexivity. Qed.

(** Claim C7 (amended): the repository's grid validation is
    [validate_grid] of the task-data loader.  It raises [TaskError]
    exactly when the grid has no row or some row differs in length from
    the first, and every well-formed grid passes. *)
Theorem validate_grid_spec (g : grid) (name : string) :
  ((exists msg, validate_grid g name = Err (TaskError msg)) <->
   (g = [] \/ exists row, row ∈ g /\ length row <> length (hd [] g))) /\
  (well_formed g -> validate_grid g name = Ok tt).
Proof.
  unfold validate_grid. destruct g as [|first rows]; cbn -[forallb].
  - split; [split; [intros _; by left|intros _; eexists; reflexivity]|].
    intros [H _]. done.
  - destruct (forallb (fun row => Nat.eqb (length row) (length first)) (first :: rows)) eqn:Hf.
    + pose proof (proj1 (forallb_forall _ _) Hf) as Hall. clear Hf. split.
      * split; [intros [msg Hm]; discriminate|].
        intros [Hn|[row [Hrow Hlen]]]; [discriminate|].
        apply elem_of_In_iff in Hrow. apply Hall, Nat.eqb_eq in Hrow. done.
      * intros _. reflexivity.
    + split.
      * split; [intros _; right|intros _; eexists; reflexivity].
        destruct (proj1 (forallb_false_iff _ _) Hf) as [row [Hrow Hlen]].
        apply Nat.eqb_neq in Hlen. exists row. split; [by apply elem_of_In_iff|done].
      * intros [_ [_ Hall]]. exfalso.
        destruct (proj1 (forallb_false_iff _ _) Hf) as [row [Hrow Hlen]].
        apply Nat.eqb_neq in Hlen. apply Hlen.
        rewrite Forall_forall in Hall. by apply (Hall row), elem_of_In_iff.
Qed.

(** Claim C5 (counterexample): two equally sized grids with different
    content, neither a rotation nor a flip of each other, are reported
    as a scaling, not as [none]. *)
Lemma global_transform_same_size_counterexample :
  find_global_transform [[1;2];[3;4]] [[5;6];[7;8]] = Ok (TScale 1).
Proof. vm_compute. reflexivity. Qed.

(** Claim C5 (amended): for a grid [g1] with a row and a column, the
    global transform is [none] exactly when no whole-grid rotation or
    flip equality holds (tested only for equal shapes) and the output's
    height and width are not the same integer multiple of the input's.
    The scaling test compares dimensions only, so two equally sized grids
    that are neither a rotation nor a flip of each other get
    [scale(factor=1)]. *)
Theorem global_transform_none_iff (g1 g2 : grid) :
  0 < height g1 -> 0 < width g1 ->
  (find_global_transform g1 g2 = Ok TNone <->
     ~ (shape g1 = shape g2 /\
        ((exists k, k ∈ [1; 2; 3] /\ rot90 g1 k = g2) \/ flip0 g1 = g2 \/ flip1 g1 = g2)) /\
     ~ (height g2 mod height g1 = 0 /\ width g2 mod width g1 = 0 /\
        height g2 / height g1 = width g2 / width g1)) /\
  (shape g1 = shape g2 ->
   ~ (exists k, k ∈ [1; 2; 3] /\ rot90 g1 k = g2) -> flip0 g1 <> g2 -> flip1 g1 <> g2 ->
   find_global_transform g1 g2 = Ok (TScale 1)).
Proof.
  intros Hh Hw. unfold find_global_transform, shape, grid_eqb.
  cbv iota beta zeta.
  rewrite (scale_check_spec (height g1) (width g1) (height g2) (width g2) ltac:(lia) ltac:(lia)).
  pose proof (first_rotation_spec g1 g2) as Hrot.
  split.
  - destruct ((height g1 =? height g2) && (width g1 =? width g2)) eqn:Hs.
    + apply andb_true_iff in Hs as [Hs1 Hs2].
      apply Z.eqb_eq in Hs1, Hs2.
      destruct (first_rotation g1 g2) as [k|] eqn:Ek.
      * split; [discriminate|]. intros [Hn _]. exfalso. apply Hn.
        split; [by rewrite Hs1, Hs2|]. left. by exists k.
      * case_bool_decide as Hf0; [split; [discriminate|]; intros [Hn _]; exfalso;
          apply Hn; split; [by rewrite Hs1, Hs2|]; right; by left|].
        case_bool_decide as Hf1; [split; [discriminate|]; intros [Hn _]; exfalso;
          apply Hn; split; [by rewrite Hs1, Hs2|]; right; by right|].
        case_decide as Hsc.
        -- split; [discriminate|]. intros [_ Hn]. done.
        -- split; [intros _|reflexivity]. split; [|done].
           intros [_ [[k [Hk Hk']]|[H0|H0]]]; [by apply (Hrot k)|done|done].
    + assert (Hne : (height g1, width g1) <> (height g2, width g2)).
      { intros Heq. injection Heq as E1 E2. rewrite E1, E2, !Z.eqb_refl in Hs. discriminate. }
      case_decide as Hsc.
      * split; [discriminate|]. intros [_ Hn]. done.
      * split; [intros _|reflexivity]. split; [|done]. intros [Heq _]. done.
  - intros Hsh Hnrot Hf0 Hf1. injection Hsh as E1 E2.
    rewrite <- E1, <- E2, !Z.eqb_refl. simpl.
    destruct (first_rotation g1 g2) as [k|] eqn:Ek.
    { exfalso. apply Hnrot. by exists k. }
    rewrite !bool_decide_eq_false_2 by done.
    rewrite decide_True by (rewrite !Z.mod_same, !Z.div_same by lia; lia).
    rewrite Z.div_same by lia. reflexivity.
Qed.

(** Claim C9 (counterexample): the detector divides every adjacent pair,
    also those whose divisor is zero: on the row [[1, 0, 2]] it computes
    [2 / 0], which numpy evaluates to [inf]. *)
Lemma progression_zero_divisor_counterexample :
  In (2, 0) (adjacent_pairs (line_values [[1; 0; 2]] (Row 0))) /\
  In (S754_infinity false) (ratios (line_values [[1; 0; 2]] (Row 0))).
Proof. split; simpl; auto. Qed.

(** Claim C9 (amended): the progression detector divides every adjacent
    pair of a row or column, including pairs with a zero divisor (numpy
    gives [inf], [-inf] or [nan] there and raises nothing), and it divides
    in float64.  It reports a geometric progression only when the line
    holds more than one non-zero value and all its float64 ratios that are
    not [nan] compare equal; the reported ratio is the first one. *)
Theorem geometric_progression_reported (g : grid) (loc : line) (r : f64) :
  In (Geometric loc r) (test_progression g).2 ->
  (1 < length (List.filter (fun x => negb (Z.eqb x 0)) (line_values g loc)))%nat /\
  r = hd S754_nan (ratios (line_values g loc)) /\
  forall a1 b1 a2 b2,
    In (a1, b1) (adjacent_pairs (line_values g loc)) ->
    In (a2, b2) (adjacent_pairs (line_values g loc)) ->
    is_nan (fdiv a1 b1) = false -> is_nan (fdiv a2 b2) = false ->
    feqb (fdiv a1 b1) (fdiv a2 b2) = true.
Proof.
  unfold test_progression. simpl. rewrite in_app_iff. intros [H|H];
    apply in_flat_map in H as [[i row] [Hi Hrow]];
    destruct (line_findings_geometric _ _ _ _ Hrow) as [-> [Hcnt [Hone Hr]]];
    destruct (enumerate_from_spec 0 _ [] i row Hi) as [_ Hn];
    rewrite Nat.sub_0_r in Hn; simpl; rewrite Hn;
    (split; [done|split; [done|]]);
    intros a1 b1 a2 b2 H1 H2 Hn1 Hn2;
    (apply (one_distinct_f_spec _ Hone); [| |done|done]);
    unfold ratios; apply in_map_iff;
    first [exists (a1, b1); by split | exists (a2, b2); by split].
Qed.




Lemma get_objects_partition_witness :
  well_formed [[1;0];[0;2]] /\
  let objs := get_objects [[1;0];[0;2]] in
  (forall (i j : nat) (oi oj : obj), objs !! i = Some oi -> objs !! j = Some oj ->
     i <> j -> forall x, x ∈ coords oi -> x ∉ coords oj) /\
  (forall x : cell,
     (exists o, o ∈ objs /\ x ∈ coords o) <->
     in_bounds [[1;0];[0;2]] x /\ get [[1;0];[0;2]] x.1 x.2 <> 0).
Proof.
  assert (Hwf : well_formed [[1;0];[0;2]]).
  { split; [discriminate|]. split; [simpl; lia|]. repeat constructor. }
  split; [exact Hwf|]. exact (get_objects_partition [[1;0];[0;2]] Hwf).
Defined.

Lemma global_transform_none_iff_witness :
  0 < height [[1;2];[3;4]] /\ 0 < width [[1;2];[3;4]] /\
  (find_global_transform [[1;2];[3;4]] [[5;6];[7;8]] = Ok TNone <->
     ~ (shape [[1;2];[3;4]] = shape [[5;6];[7;8]] /\
        ((exists k, k ∈ [1; 2; 3] /\ rot90 [[1;2];[3;4]] k = [[5;6];[7;8]]) \/
         flip0 [[1;2];[3;4]] = [[5;6];[7;8]] \/ flip1 [[1;2];[3;4]] = [[5;6];[7;8]])) /\
     ~ (height [[5;6];[7;8]] mod height [[1;2];[3;4]] = 0 /\
        width [[5;6];[7;8]] mod width [[1;2];[3;4]] = 0 /\
        height [[5;6];[7;8]] / height [[1;2];[3;4]] = width [[5;6];[7;8]] / width [[1;2];[3;4]])) /\
  (shape [[1;2];[3;4]] = shape [[5;6];[7;8]] ->
   ~ (exists k, k ∈ [1; 2; 3] /\ rot90 [[1;2];[3;4]] k = [[5;6];[7;8]]) ->
   flip0 [[1;2];[3;4]] <> [[5;6];[7;8]] -> flip1 [[1;2];[3;4]] <> [[5;6];[7;8]] ->
   find_global_transform [[1;2];[3;4]] [[5;6];[7;8]] = Ok (TScale 1)).
Proof.
  assert (Hh : 0 < height [[1;2];[3;4]]) by (vm_compute; reflexivity).
  assert (Hw : 0 < width [[1;2];[3;4]]) by (vm_compute; reflexivity).
  split; [exact Hh|]. split; [exact Hw|].
  exact (global_transform_none_iff [[1;2];[3;4]] [[5;6];[7;8]] Hh Hw).
Defined.

Lemma validate_grid_spec_witness :
  well_formed [[1;2];[3;4]] /\
  ((exists msg, validate_grid [[1;2];[3;4]] "input" = Err (TaskError msg)) <->
   ([[1;2];[3;4]] = [] \/ exists row, row ∈ [[1;2];[3;4]] /\ length row <> length (hd [] [[1;2];[3;4]]))) /\
  (well_formed [[1;2];[3;4]] -> validate_grid [[1;2];[3;4]] "input" = Ok tt).
Proof.
  split.
  - split; [discriminate|]. split; [simpl; lia|]. repeat constructor.
  - exact (validate_grid_spec [[1;2];[3;4]] "input").
Defined.

Lemma geometric_progression_reported_witness :
  In (Geometric (Row 0) (fdiv 1 1))
     (test_progression [[9007199254740992%Z; 9007199254740993%Z; 9007199254740993%Z]]).2 /\
  (1 < length (List.filter (fun x => negb (Z.eqb x 0))
                 (line_values [[9007199254740992%Z; 9007199254740993%Z; 9007199254740993%Z]] (Row 0))))%nat /\
  fdiv 1 1 = hd S754_nan (ratios (line_values [[9007199254740992%Z; 9007199254740993%Z; 9007199254740993%Z]] (Row 0))) /\
  forall a1 b1 a2 b2,
    In (a1, b1) (adjacent_pairs (line_values [[9007199254740992%Z; 9007199254740993%Z; 9007199254740993%Z]] (Row 0))) ->
    In (a2, b2) (adjacent_pairs (line_values [[9007199254740992%Z; 9007199254740993%Z; 9007199254740993%Z]] (Row 0))) ->
    is_nan (fdiv a1 b1) = false -> is_nan (fdiv a2 b2) = false ->
    feqb (fdiv a1 b1) (fdiv a2 b2) = true.
Proof.
  assert (Hin : In (Geometric (Row 0) (fdiv 1 1))
     (test_progression [[9007199254740992%Z; 9007199254740993%Z; 9007199254740993%Z]]).2)
    by (vm_compute; left; reflexivity).
  split; [exact Hin|].
  exact (geometric_progression_reported _ (Row 0) (fdiv 1 1) Hin).
Defined.

(** C2 (counterexample): two training pairs, each scaling its single
    object by 2, one of value 3 and one of value 5. The surviving object
    mapping is taken from whichever analysis comes first, so the two
    orders of the list give different results. *)
Lemma consistent_order_counterexample :
  match analyze_pair [[3;0];[0;0]] [[3;3];[3;3]], analyze_pair [[5;0];[0;0]] [[5;5];[5;5]] with
  | Ok a, Ok b =>
      option_map (fun c => c_mappings (c_object_transforms c))
                 (find_consistent_transforms [a; b]) = Some [(3, TScale 2)] /\
      option_map (fun c => c_mappings (c_object_transforms c))
                 (find_consistent_transforms [b; a]) = Some [(5, TScale 2)]
  | _, _ => False
  end.
Proof. vm_compute. split; reflexivity. Qed.

(** C2 (amended): for a non-empty list of analyses the reduction keeps a
    value mapping, the object-count change, the global transform or a
    relative-position change exactly when every analysis has it
    identically (with one analysis, all of them survive). An object
    mapping (v, T) is kept exactly when T is not [complex], the first
    analysis has an object of value v whose only match is T, and every
    other analysis has some mapping whose only match is T. Permuting the
    list leaves the value mappings, the count change and the global
    transform unchanged. *)
Theorem find_consistent_transforms_spec :
  (forall (first : analysis) (rest : list analysis),
   exists c, find_consistent_transforms (first :: rest) = Some c /\
   (forall k x, c_value_mappings c !! k = Some x <->
                Forall (fun t => value_mappings t !! k = Some x) (first :: rest)) /\
   (forall n, c_object_count_change (c_object_transforms c) = Some n <->
              Forall (fun t => object_count_change (object_transforms t) = n) (first :: rest)) /\
   (forall gt, c_global_transform (c_spatial_transforms c) = Some gt <->
               Forall (fun t => global_transform (spatial_transforms t) = gt) (first :: rest)) /\
   (forall rc, In rc (c_relative_positions (c_spatial_transforms c)) <->
               Forall (fun t => In rc (relative_positions (spatial_transforms t))) (first :: rest)) /\
   (forall v T, In (v, T) (c_mappings (c_object_transforms c)) <->
      T <> TComplex /\
      (exists m, In m (object_mappings (object_transforms first)) /\
                 value (input_object m) = v /\ single_match_with T m = true) /\
      Forall (fun t => exists m, In m (object_mappings (object_transforms t)) /\
                                 single_match_with T m = true) rest)) /\
  (forall (l l' : list analysis) (c c' : consistent),
   l ≡ₚ l' -> find_consistent_transforms l = Some c -> find_consistent_transforms l' = Some c' ->
   c_value_mappings c = c_value_mappings c' /\
   c_object_count_change (c_object_transforms c) = c_object_count_change (c_object_transforms c') /\
   c_global_transform (c_spatial_transforms c) = c_global_transform (c_spatial_transforms c')).
Proof.
  split.
  - intros first rest. eexists. split; [reflexivity|].
    split; [intros k x; by apply consistent_vms_spec|].
    split; [intros n; by apply consistent_count_spec|].
    split; [intros gt; by apply consistent_global_spec|].
    split; [intros rc; by apply consistent_rels_spec|].
    intros v T. by apply consistent_mappings_spec.
  - intros [|f r] [|f' r'] c c' Hp Hc Hc'; try discriminate.
    (* two option values agree when they are [Some x] for the same [x] *)
    assert (Hopt : forall {A} (o o' : option A), (forall x, o = Some x <-> o' = Some x) -> o = o').
    { intros A o o' H. destruct o as [x|], o' as [x'|]; try done.
      - by apply H.
      - by destruct (proj1 (H x) eq_refl).
      - by destruct (proj2 (H x') eq_refl). }
    split; [|split].
    + apply map_eq. intros k. apply Hopt. intros x.
      rewrite (consistent_vms_spec _ _ _ _ _ Hc), (consistent_vms_spec _ _ _ _ _ Hc').
      split; apply Forall_perm; [done|by symmetry].
    + apply Hopt. intros n.
      rewrite (consistent_count_spec _ _ _ _ Hc), (consistent_count_spec _ _ _ _ Hc').
      split; apply Forall_perm; [done|by symmetry].
    + apply Hopt. intros gt.
      rewrite (consistent_global_spec _ _ _ _ Hc), (consistent_global_spec _ _ _ _ Hc').
      split; apply Forall_perm; [done|by symmetry].
Qed.

Lemma find_consistent_transforms_spec_witness :
  exists c c',
  find_consistent_transforms
    [mk_analysis {[1 := Direct 2]} (mk_obj_analysis 0 []) (mk_spatial (TRotation 90) []);
     mk_analysis {[1 := Direct 2; 3 := Direct 4]} (mk_obj_analysis 0 []) (mk_spatial (TRotation 90) [])]
    = Some c /\
  find_consistent_transforms
    [mk_analysis {[1 := Direct 2; 3 := Direct 4]} (mk_obj_analysis 0 []) (mk_spatial (TRotation 90) []);
     mk_analysis {[1 := Direct 2]} (mk_obj_analysis 0 []) (mk_spatial (TRotation 90) [])]
    = Some c' /\
  c_value_mappings c = c_value_mappings c' /\
  c_object_count_change (c_object_transforms c) = c_object_count_change (c_object_transforms c') /\
  c_global_transform (c_spatial_transforms c) = c_global_transform (c_spatial_transforms c').
Proof.
  eexists _, _. split; [reflexivity|]. split; [reflexivity|].
  apply (proj2 find_consistent_transforms_spec
    [mk_analysis {[1 := Direct 2]} (mk_obj_analysis 0 []) (mk_spatial (TRotation 90) []);
     mk_analysis {[1 := Direct 2; 3 := Direct 4]} (mk_obj_analysis 0 []) (mk_spatial (TRotation 90) [])]
    [mk_analysis {[1 := Direct 2; 3 := Direct 4]} (mk_obj_analysis 0 []) (mk_spatial (TRotation 90) []);
     mk_analysis {[1 := Direct 2]} (mk_obj_analysis 0 []) (mk_spatial (TRotation 90) [])]);
    [apply Permutation_swap|reflexivity|reflexivity].
Defined.

(** C8: a call of [_apply_transforms] that returns leaves every buffer
    that existed before the call unchanged, the input's included, and
    returns an array on a buffer allocated during the call, so the result
    shares no storage with the input. When the reduction result is empty
    the call returns, and the values of the result are those of the
    input. *)
Theorem apply_transforms_no_alias (input : ndarray) (tr : option consistent) :
  (forall st st' res, apply_transforms input tr st = Ok (res, st') ->
     (length st <= buf res)%nat /\ take (length st) st' = st) /\
  (forall c, tr = Some c -> empty_consistent c -> forall st,
     exists res st', apply_transforms input tr st = Ok (res, st') /\
       (length st <= buf res)%nat /\ to_grid st' res = to_grid st input).
Proof.
  split.
  - intros st st' res E.
    destruct (keeps_apply_transforms (length st) input tr st res st' (le_n _) E) as (_ & Ht & Hb).
    split; [done|]. rewrite Ht. apply take_ge. lia.
  - intros c -> He st. rewrite (apply_transforms_empty input c st He).
    eexists _, _. split; [reflexivity|]. split; [simpl; lia|].
    apply (alloc_read_back _ _ (ncols input)), to_grid_rect.
Qed.

Lemma apply_transforms_no_alias_witness :
  match apply_transforms (mk_nd 0 2 2 (fun i j => (i * 2 + j)%nat))
          (Some (mk_consistent ∅ (mk_cobj None []) (mk_cspatial None []))) [[1;2;3;4]] with
  | Ok (res, st') => Nat.le (length [[1;2;3;4]]) (buf res) /\ take (length [[1;2;3;4]]) st' = [[1;2;3;4]]
  | Err _ => False
  end /\
  empty_consistent (mk_consistent ∅ (mk_cobj None []) (mk_cspatial None [])) /\
  exists res st',
    apply_transforms (mk_nd 0 2 2 (fun i j => (i * 2 + j)%nat))
      (Some (mk_consistent ∅ (mk_cobj None []) (mk_cspatial None []))) [[1;2;3;4]] = Ok (res, st') /\
    Nat.le (length [[1;2;3;4]]) (buf res) /\
    to_grid st' res = to_grid [[1;2;3;4]] (mk_nd 0 2 2 (fun i j => (i * 2 + j)%nat)).
Proof.
  split.
  - destruct (apply_transforms (mk_nd 0 2 2 (fun i j => (i * 2 + j)%nat))
               (Some (mk_consistent ∅ (mk_cobj None []) (mk_cspatial None []))) [[1;2;3;4]])
      as [[res st']|e] eqn:E.
    + exact (proj1 (apply_transforms_no_alias _ _) _ st' res E).
    + vm_compute in E. discriminate.
  - assert (He : empty_consistent (mk_consistent ∅ (mk_cobj None []) (mk_cspatial None [])))
      by (repeat split).
    split; [exact He|].
    exact (proj2 (apply_transforms_no_alias (mk_nd 0 2 2 (fun i j => (i * 2 + j)%nat))
                    (Some (mk_consistent ∅ (mk_cobj None []) (mk_cspatial None []))))
             _ eq_refl He [[1;2;3;4]]).
Defined.

(* ================================================================== *)
(** ** Further properties of the code *)

Lemma zrange_length (n : Z) : length (zrange n) = Z.to_nat n.
Proof. unfold zrange. by rewrite length_map, length_seq. Qed.

Lemma row_major_cells_length (g : grid) :
  length (row_major_cells g) = (length g * length (hd [] g))%nat.
Proof.
  unfold row_major_cells.
  rewrite (flat_map_constant_length (c := length (hd [] g))).
  - rewrite zrange_length. unfold height. lia.
  - intros r _. rewrite length_map, zrange_length. unfold width. lia.
Qed.

(** A duplicate-free list of in-bounds cells has at most [H*W] entries. *)
Lemma seen_length_bound (g : grid) (s : list cell) :
  NoDup s -> (forall x, x ∈ s -> in_bounds g x) ->
  (length s <= length g * length (hd [] g))%nat.
Proof.
  intros Hnd Hb. rewrite <- row_major_cells_length.
  apply NoDup_incl_length; [by apply NoDup_ListNoDup|].
  intros x Hx. apply row_major_cells_spec, Hb. by apply elem_of_In_iff.
Qed.

(** With enough fuel the flood fill reaches every cell holding [v] next to
    a cell it returns: the fill is closed under 4-neighbourhood. *)
Lemma flood_fill_closed (fuel : nat) (g : grid) :
  forall (r c v : Z) (seen : list cell), NoDup seen ->
  (forall x, x ∈ seen -> in_bounds g x) ->
  (length g * length (hd [] g) < length seen + fuel)%nat ->
  let res := flood_fill fuel g r c v seen in
  (forall x, x ∈ seen -> x ∈ res.2) /\
  (in_bounds g (r, c) -> get g r c = v -> (r, c) ∈ res.2) /\
  (forall x y, x ∈ res.1 -> y ∈ neighbors x -> in_bounds g y ->
     get g y.1 y.2 = v -> y ∈ res.2).
Proof.
  induction fuel as [|fuel IH]; intros r c v seen Hnd Hib Hlen.
  { pose proof (seen_length_bound g seen Hnd Hib). lia. }
  simpl.
  destruct ((r <? 0) || (r >=? height g) || (c <? 0) || (c >=? width g)
            || negb (get g r c =? v) || bool_decide ((r, c) ∈ seen)) eqn:Hcond.
  { simpl. split; [done|]. split.
    - intros [Hr Hc] Hv; simpl in Hr, Hc.
      repeat rewrite orb_true_iff in Hcond.
      destruct Hcond as [[[[[H|H]|H]|H]|H]|H].
      + apply Z.ltb_lt in H. lia.
      + apply Z.geb_le in H. lia.
      + apply Z.ltb_lt in H. lia.
      + apply Z.geb_le in H. lia.
      + rewrite Hv, Z.eqb_refl in H. done.
      + by apply bool_decide_eq_true in H.
    - intros x y Hx. by apply not_elem_of_nil in Hx. }
  repeat rewrite orb_false_iff in Hcond.
  destruct Hcond as [[[[[H1 H2] H3] H4] H5] H6].
  apply bool_decide_eq_false in H6.
  apply negb_false_iff, Z.eqb_eq in H5.
  assert (Hb0 : in_bounds g (r, c)).
  { unfold in_bounds; simpl.
    apply Z.ltb_ge in H1, H3. rewrite Z.geb_leb, Z.leb_gt in H2, H4. lia. }
  assert (Hnd0 : NoDup ((r, c) :: seen)) by (apply NoDup_cons_2; assumption).
  assert (Hib0 : forall x, x ∈ (r, c) :: seen -> in_bounds g x).
  { intros x Hx. apply elem_of_cons in Hx as [->|Hx]; auto. }
  assert (Hlen0 : (length g * length (hd [] g) < length ((r, c) :: seen) + fuel)%nat)
    by (simpl; lia).
  (* one recursive call: its facts and the invariant for the next call *)
  assert (Hstep : forall r' c' s, NoDup s -> (forall x, x ∈ s -> in_bounds g x) ->
            (length ((r, c) :: seen) <= length s)%nat ->
            let res := flood_fill fuel g r' c' v s in
            NoDup res.2 /\ (forall x, x ∈ res.2 -> in_bounds g x) /\
            (length s <= length res.2)%nat /\
            (forall x, x ∈ s -> x ∈ res.2) /\
            (in_bounds g (r', c') -> get g r' c' = v -> (r', c') ∈ res.2) /\
            (forall x y, x ∈ res.1 -> y ∈ neighbors x -> in_bounds g y ->
               get g y.1 y.2 = v -> y ∈ res.2)).
  { intros r' c' s Hn Hi Hl res.
    destruct (flood_fill_spec fuel g r' c' v s Hn) as [Hn' [Hp' Hv']].
    destruct (IH r' c' v s Hn Hi ltac:(lia)) as [Hm [Hs Hcl]].
    split; [done|]. split; [|split; [|done]].
    - intros x Hx. unfold res in Hx. rewrite Hp' in Hx.
      apply elem_of_app in Hx as [Hx|Hx]; [apply (Hv' x Hx)|auto].
    - fold res in Hp'. rewrite (Permutation_length Hp'), length_app. lia. }
  destruct (flood_fill fuel g (r + 1) c v ((r, c) :: seen)) as [l1 s1] eqn:E1.
  pose proof (Hstep (r + 1) c _ Hnd0 Hib0 ltac:(lia)) as S1. rewrite E1 in S1.
  destruct S1 as [Hn1 [Hi1 [Hl1 [Hm1 [Hs1 Hc1]]]]]; simpl in *.
  destruct (flood_fill fuel g (r - 1) c v s1) as [l2 s2] eqn:E2.
  pose proof (Hstep (r - 1) c _ Hn1 Hi1 ltac:(simpl; lia)) as S2. rewrite E2 in S2.
  destruct S2 as [Hn2 [Hi2 [Hl2 [Hm2 [Hs2 Hc2]]]]]; simpl in *.
  destruct (flood_fill fuel g r (c + 1) v s2) as [l3 s3] eqn:E3.
  pose proof (Hstep r (c + 1) _ Hn2 Hi2 ltac:(simpl; lia)) as S3. rewrite E3 in S3.
  destruct S3 as [Hn3 [Hi3 [Hl3 [Hm3 [Hs3 Hc3]]]]]; simpl in *.
  destruct (flood_fill fuel g r (c - 1) v s3) as [l4 s4] eqn:E4.
  pose proof (Hstep r (c - 1) _ Hn3 Hi3 ltac:(simpl; lia)) as S4. rewrite E4 in S4.
  destruct S4 as [Hn4 [Hi4 [Hl4 [Hm4 [Hs4 Hc4]]]]]; simpl in *.
  split; [|split].
  - intros x Hx. apply Hm4, Hm3, Hm2, Hm1, elem_of_cons. by right.
  - intros _ _. apply Hm4, Hm3, Hm2, Hm1, elem_of_cons. by left.
  - intros x y Hx Hy Hyb Hyv. apply elem_of_cons in Hx as [->|Hx].
    + unfold neighbors in Hy; simpl in Hy.
      repeat rewrite elem_of_cons in Hy.
      destruct Hy as [->|[->|[->|[->|Hy]]]].
      * apply Hm4, Hm3, Hm2, Hs1; done.
      * apply Hm4, Hm3, Hs2; done.
      * apply Hm4, Hs3; done.
      * apply Hs4; done.
      * by apply not_elem_of_nil in Hy.
    + repeat rewrite elem_of_app in Hx.
      destruct Hx as [Hx|[Hx|[Hx|Hx]]].
      * apply Hm4, Hm3, Hm2, (Hc1 x); done.
      * apply Hm4, Hm3, (Hc2 x); done.
      * apply Hm4, (Hc3 x); done.
      * apply (Hc4 x); done.
Qed.

Lemma neighbors_sym (x y : cell) : y ∈ neighbors x -> x ∈ neighbors y.
Proof.
  destruct x as [a b]. unfold neighbors; simpl.
  repeat rewrite elem_of_cons. intros [->|[->|[->|[->|Hy]]]]; simpl.
  - right; left. f_equal; lia.
  - left. f_equal; lia.
  - right; right; right; left. f_equal; lia.
  - right; right; left. f_equal; lia.
  - by apply not_elem_of_nil in Hy.
Qed.

(** The facts [get_objects] keeps about each object it has built. *)
Lemma scan_objects_inv (g : grid) (L : list cell) :
  forall st, (forall x, In x L -> in_bounds g x) -> scan_inv g st ->
  (forall o, o ∈ st.1 ->
     coords o <> [] /\ value o <> 0 /\ o = make_obj (value o) (coords o) /\
     NoDup (coords o) /\
     (forall x, x ∈ coords o -> in_bounds g x /\ get g x.1 x.2 = value o) /\
     (forall x y, x ∈ coords o -> y ∈ neighbors x -> in_bounds g y ->
        get g y.1 y.2 = value o -> y ∈ coords o)) ->
  forall o, o ∈ (fold_left (scan_cell g) L st).1 ->
     coords o <> [] /\ value o <> 0 /\ o = make_obj (value o) (coords o) /\
     NoDup (coords o) /\
     (forall x, x ∈ coords o -> in_bounds g x /\ get g x.1 x.2 = value o) /\
     (forall x y, x ∈ coords o -> y ∈ neighbors x -> in_bounds g y ->
        get g y.1 y.2 = value o -> y ∈ coords o).
Proof.
  induction L as [|rc L IH]; intros st HL Hinv Hobj; simpl; [done|].
  destruct (scan_cell_inv g st rc (HL rc (or_introl eq_refl)) Hinv) as [Hinv1 _].
  apply (IH _ (fun x Hx => HL x (or_intror Hx)) Hinv1).
  clear IH. destruct st as [objs seen], rc as [r c].
  destruct Hinv as [Hnd [Hp Hv]]; simpl in *. unfold scan_cell.
  destruct (negb (bool_decide ((r, c) ∈ seen)) && negb (get g r c =? 0)) eqn:Hc;
    [|done].
  apply andb_true_iff in Hc as [Hc1 Hc2].
  apply negb_true_iff, Z.eqb_neq in Hc2.
  assert (Hib : forall x, x ∈ seen -> in_bounds g x) by (intros x Hx; apply Hv, Hx).
  pose proof (flood_fill_spec (ff_fuel g) g r c (get g r c) seen Hnd) as Hff.
  pose proof (flood_fill_closed (ff_fuel g) g r c (get g r c) seen Hnd Hib
                ltac:(unfold ff_fuel; lia)) as Hcl.
  destruct (flood_fill (ff_fuel g) g r c (get g r c) seen) as [cs seen'].
  simpl in Hff, Hcl. destruct Hff as [Hnd' [Hp' Hv']]. destruct Hcl as [_ [_ Hcl]].
  destruct cs as [|p cs]; [done|]. cbn [fst].
  intros o Ho. apply elem_of_app in Ho as [Ho|Ho]; [by apply Hobj|].
  apply list_elem_of_singleton in Ho as ->. cbn [value coords make_obj].
  assert (Hdis : forall x, x ∈ p :: cs -> x ∉ seen).
  { rewrite Hp' in Hnd'. apply NoDup_app in Hnd' as [_ [Hd _]]. exact Hd. }
  split; [done|]. split; [done|]. split; [done|]. split.
  { rewrite Hp' in Hnd'. by apply NoDup_app in Hnd' as [? _]. }
  split; [done|].
  intros x y Hx Hy Hyb Hyv.
  pose proof (Hcl x y Hx Hy Hyb Hyv) as Hys. rewrite Hp' in Hys.
  apply elem_of_app in Hys as [Hys|Hys]; [done|exfalso].
  rewrite Hp in Hys. apply elem_of_concat_map in Hys as [o' [Ho' Hyo']].
  destruct (Hobj o' Ho') as [_ [_ [_ [_ [Hvo' Hclo']]]]].
  destruct (Hvo' y Hyo') as [_ Hyv'].
  apply (Hdis x Hx). rewrite Hp. apply elem_of_concat_map. exists o'.
  split; [done|]. apply (Hclo' y x Hyo' (neighbors_sym x y Hy)).
  - by destruct (Hv' x Hx).
  - rewrite <- Hyv', Hyv. by destruct (Hv' x Hx).
Qed.

Lemma linked_mono (s s' : list cell) (x y : cell) :
  linked s x y -> (forall z, z ∈ s -> z ∈ s') -> linked s' x y.
Proof.
  intros H Hs. induction H as [x Hx|x y z _ IH Hz Hzs].
  - apply linked_refl; auto.
  - eapply linked_step; eauto.
Qed.

Lemma linked_in_l (s : list cell) (x y : cell) : linked s x y -> x ∈ s.
Proof. induction 1; auto. Qed.

Lemma linked_trans (s : list cell) (x y z : cell) :
  linked s x y -> linked s y z -> linked s x z.
Proof.
  intros Hxy Hyz. induction Hyz as [y Hy|y w z _ IH Hz Hzs]; [exact Hxy|].
  exact (linked_step s x w z (IH Hxy) Hz Hzs).
Qed.

Lemma linked_sym (s : list cell) (x y : cell) : linked s x y -> linked s y x.
Proof.
  induction 1 as [x Hx|x y z Hxy IH Hz Hzs].
  - by apply linked_refl.
  - eapply linked_trans; [|exact IH].
    eapply linked_step; [apply linked_refl; exact Hzs| |].
    + by apply neighbors_sym.
    + induction Hxy; auto.
Qed.

(** Every cell returned by the flood fill is linked to the start cell
    through returned cells. *)
Lemma flood_fill_linked (fuel : nat) (g : grid) :
  forall (r c v : Z) (seen : list cell),
  let l := (flood_fill fuel g r c v seen).1 in
  forall x, x ∈ l -> linked l (r, c) x.
Proof.
  induction fuel as [|fuel IH]; intros r c v seen; simpl.
  { intros x Hx. by apply not_elem_of_nil in Hx. }
  destruct ((r <? 0) || (r >=? height g) || (c <? 0) || (c >=? width g)
            || negb (get g r c =? v) || bool_decide ((r, c) ∈ seen)).
  { intros x Hx. by apply not_elem_of_nil in Hx. }
  destruct (flood_fill fuel g (r + 1) c v ((r, c) :: seen)) as [l1 s1] eqn:E1.
  pose proof (IH (r + 1) c v ((r, c) :: seen)) as I1. rewrite E1 in I1.
  destruct (flood_fill fuel g (r - 1) c v s1) as [l2 s2] eqn:E2.
  pose proof (IH (r - 1) c v s1) as I2. rewrite E2 in I2.
  destruct (flood_fill fuel g r (c + 1) v s2) as [l3 s3] eqn:E3.
  pose proof (IH r (c + 1) v s2) as I3. rewrite E3 in I3.
  destruct (flood_fill fuel g r (c - 1) v s3) as [l4 s4] eqn:E4.
  pose proof (IH r (c - 1) v s3) as I4. rewrite E4 in I4.
  simpl in *. clear IH E1 E2 E3 E4.
  set (L := (r, c) :: l1 ++ l2 ++ l3 ++ l4).
  assert (Hsub : forall l, (forall z, z ∈ l -> z ∈ L) ->
            forall n, n ∈ neighbors (r, c) ->
            (forall x, x ∈ l -> linked l n x) ->
            forall x, x ∈ l -> linked L (r, c) x).
  { intros l HlL n Hn Hl x Hx.
    pose proof (Hl x Hx) as Hnx.
    apply linked_trans with n; [|by apply (linked_mono l)].
    eapply linked_step; [apply linked_refl; apply elem_of_cons; by left|done|].
    apply HlL. apply (linked_in_l l n x Hnx). }
  intros x Hx. unfold L in Hx. apply elem_of_cons in Hx as [->|Hx].
  { apply linked_refl. apply elem_of_cons. by left. }
  repeat rewrite elem_of_app in Hx. destruct Hx as [Hx|[Hx|[Hx|Hx]]].
  - apply (Hsub l1) with (r + 1, c); auto.
    + intros z Hz. unfold L. rewrite elem_of_cons, !elem_of_app. auto.
    + unfold neighbors. simpl. apply elem_of_cons. by left.
  - apply (Hsub l2) with (r - 1, c); auto.
    + intros z Hz. unfold L. rewrite elem_of_cons, !elem_of_app. auto.
    + unfold neighbors. simpl. rewrite !elem_of_cons. auto.
  - apply (Hsub l3) with (r, c + 1); auto.
    + intros z Hz. unfold L. rewrite elem_of_cons, !elem_of_app. auto.
    + unfold neighbors. simpl. rewrite !elem_of_cons. auto.
  - apply (Hsub l4) with (r, c - 1); auto.
    + intros z Hz. unfold L. rewrite elem_of_cons, !elem_of_app. auto 6.
    + unfold neighbors. simpl. rewrite !elem_of_cons. auto.
Qed.

Lemma fold_min_spec (l : list Z) :
  forall a, In (fold_left Z.min l a) (a :: l) /\
  forall x, In x (a :: l) -> fold_left Z.min l a <= x.
Proof.
  induction l as [|b l IH]; intros a; simpl.
  - split; [by left|]. intros x [<-|[]]. lia.
  - destruct (IH (Z.min a b)) as [Hin Hle]. split.
    + destruct Hin as [Hin|Hin]; [|auto].
      rewrite <- Hin. destruct (Z.min_spec a b) as [[_ ->]|[_ ->]]; auto.
    + intros x [<-|[<-|Hx]].
      * specialize (Hle (Z.min a b) (or_introl eq_refl)). lia.
      * specialize (Hle (Z.min a b) (or_introl eq_refl)). lia.
      * apply Hle. by right.
Qed.

Lemma fold_max_spec (l : list Z) :
  forall a, In (fold_left Z.max l a) (a :: l) /\
  forall x, In x (a :: l) -> x <= fold_left Z.max l a.
Proof.
  induction l as [|b l IH]; intros a; simpl.
  - split; [by left|]. intros x [<-|[]]. lia.
  - destruct (IH (Z.max a b)) as [Hin Hle]. split.
    + destruct Hin as [Hin|Hin]; [|auto].
      rewrite <- Hin. destruct (Z.max_spec a b) as [[_ ->]|[_ ->]]; auto.
    + intros x [<-|[<-|Hx]].
      * specialize (Hle (Z.max a b) (or_introl eq_refl)). lia.
      * specialize (Hle (Z.max a b) (or_introl eq_refl)). lia.
      * apply Hle. by right.
Qed.

Lemma zmin_spec (l : list Z) :
  l <> [] -> In (zmin l) l /\ forall x, In x l -> zmin l <= x.
Proof. destruct l as [|a l]; [done|]. intros _. apply fold_min_spec. Qed.

Lemma zmax_spec (l : list Z) :
  l <> [] -> In (zmax l) l /\ forall x, In x l -> x <= zmax l.
Proof. destruct l as [|a l]; [done|]. intros _. apply fold_max_spec. Qed.

Lemma get_objects_inv (g : grid) (o : obj) :
  o ∈ get_objects g ->
  coords o <> [] /\ value o <> 0 /\ o = make_obj (value o) (coords o) /\
  NoDup (coords o) /\
  (forall x, x ∈ coords o -> in_bounds g x /\ get g x.1 x.2 = value o) /\
  (forall x y, x ∈ coords o -> y ∈ neighbors x -> in_bounds g y ->
     get g y.1 y.2 = value o -> y ∈ coords o).
Proof.
  unfold get_objects. apply scan_objects_inv.
  - intros x Hx. by apply row_major_cells_spec.
  - split; [constructor|]. split; [done|].
    intros x Hx. by apply not_elem_of_nil in Hx.
  - intros o' Ho'. by apply not_elem_of_nil in Ho'.
Qed.

(** Every object of [get_objects] was produced by one flood fill. *)
Lemma get_objects_linked (g : grid) (o : obj) :
  o ∈ get_objects g -> forall x y, x ∈ coords o -> y ∈ coords o ->
  linked (coords o) x y.
Proof.
  unfold get_objects.
  assert (H : forall L st,
    (forall o, o ∈ st.1 -> forall x y, x ∈ coords o -> y ∈ coords o ->
       linked (coords o) x y) ->
    forall o, o ∈ (fold_left (scan_cell g) L st).1 ->
    forall x y, x ∈ coords o -> y ∈ coords o -> linked (coords o) x y).
  { induction L as [|rc L IH]; intros st Hst; simpl; [done|].
    apply IH. destruct st as [objs seen], rc as [r c]. unfold scan_cell.
    destruct (negb (bool_decide ((r, c) ∈ seen)) && negb (get g r c =? 0)); [|done].
    pose proof (flood_fill_linked (ff_fuel g) g r c (get g r c) seen) as Hl.
    destruct (flood_fill (ff_fuel g) g r c (get g r c) seen) as [cs seen'].
    simpl in Hl. destruct cs as [|p cs]; [done|].
    intros o' Ho'. apply elem_of_app in Ho' as [Ho'|Ho']; [by apply Hst|].
    apply list_elem_of_singleton in Ho' as ->. cbn [coords make_obj].
    intros x y Hx Hy. apply linked_trans with (r, c).
    - apply linked_sym, Hl, Hx.
    - apply Hl, Hy. }
  apply H. intros o' Ho'. by apply not_elem_of_nil in Ho'.
Qed.

(** Extra X1: every object returned by [get_objects] has a non-empty,
    duplicate-free list of cells, each in bounds and holding the object's
    non-zero value; its size is the number of cells; the bounding box
    contains every cell and each of its four bounds is attained by a cell;
    its dimensions are the box's height and width. *)
Theorem get_objects_object_cells (g : grid) (o : obj) :
  o ∈ get_objects g ->
  coords o <> [] /\ value o <> 0 /\ NoDup (coords o) /\
  size o = Z.of_nat (length (coords o)) /\
  (forall x, x ∈ coords o ->
     in_bounds g x /\ get g x.1 x.2 = value o /\
     min_r o <= x.1 <= max_r o /\ min_c o <= x.2 <= max_c o) /\
  (exists x, x ∈ coords o /\ x.1 = min_r o) /\
  (exists x, x ∈ coords o /\ x.1 = max_r o) /\
  (exists x, x ∈ coords o /\ x.2 = min_c o) /\
  (exists x, x ∈ coords o /\ x.2 = max_c o) /\
  dimensions o = (max_r o - min_r o + 1, max_c o - min_c o + 1).
Proof.
  intros Ho. destruct (get_objects_inv g o Ho) as [Hne [Hnz [Hmk [Hnd [Hv _]]]]].
  remember (coords o) as cs eqn:Ecs. rewrite Hmk. cbn [make_obj coords value size
    min_r max_r min_c max_c dimensions].
  assert (Hr : map fst cs <> []) by (destruct cs; done).
  assert (Hc : map snd cs <> []) by (destruct cs; done).
  destruct (zmin_spec _ Hr) as [Hr1 Hr2], (zmax_spec _ Hr) as [Hr3 Hr4].
  destruct (zmin_spec _ Hc) as [Hc1 Hc2], (zmax_spec _ Hc) as [Hc3 Hc4].
  split; [done|]. split; [done|]. split; [done|]. split; [done|]. split.
  { intros x Hx. destruct (Hv x Hx) as [Hb Hxv]. split; [done|]. split; [done|].
    apply elem_of_In_iff in Hx.
    pose proof (Hr2 x.1 (in_map fst _ _ Hx)). pose proof (Hr4 x.1 (in_map fst _ _ Hx)).
    pose proof (Hc2 x.2 (in_map snd _ _ Hx)). pose proof (Hc4 x.2 (in_map snd _ _ Hx)).
    lia. }
  apply in_map_iff in Hr1 as [x1 [E1 I1]], Hr3 as [x2 [E2 I2]],
    Hc1 as [x3 [E3 I3]], Hc3 as [x4 [E4 I4]].
  repeat split; [exists x1|exists x2|exists x3|exists x4];
    (split; [by apply elem_of_In_iff|done]).
Qed.

Lemma get_objects_object_cells_witness :
  make_obj 1 [(0, 0); (0, 1)] ∈ get_objects [[1;1];[0;2]] /\
  let o := make_obj 1 [(0, 0); (0, 1)] in
  let g := [[1;1];[0;2]] in
  coords o <> [] /\ value o <> 0 /\ NoDup (coords o) /\
  size o = Z.of_nat (length (coords o)) /\
  (forall x, x ∈ coords o ->
     in_bounds g x /\ get g x.1 x.2 = value o /\
     min_r o <= x.1 <= max_r o /\ min_c o <= x.2 <= max_c o) /\
  (exists x, x ∈ coords o /\ x.1 = min_r o) /\
  (exists x, x ∈ coords o /\ x.1 = max_r o) /\
  (exists x, x ∈ coords o /\ x.2 = min_c o) /\
  (exists x, x ∈ coords o /\ x.2 = max_c o) /\
  dimensions o = (max_r o - min_r o + 1, max_c o - min_c o + 1).
Proof.
  assert (H : make_obj 1 [(0, 0); (0, 1)] ∈ get_objects [[1;1];[0;2]]).
  { vm_compute. apply list_elem_of_here. }
  split; [exact H|]. exact (get_objects_object_cells _ _ H).
Defined.

(** Extra X2: the cells of every object returned by [get_objects] form one
    4-connected component: any two of them are linked by neighbour steps
    inside the object, and a same-valued in-bounds neighbour of one of its
    cells belongs to the object. *)
Theorem get_objects_components (g : grid) (o : obj) :
  o ∈ get_objects g ->
  (forall x y, x ∈ coords o -> y ∈ coords o -> linked (coords o) x y) /\
  (forall x y, x ∈ coords o -> y ∈ neighbors x -> in_bounds g y ->
     get g y.1 y.2 = value o -> y ∈ coords o).
Proof.
  intros Ho. split; [by apply (get_objects_linked g)|].
  apply (get_objects_inv g o Ho).
Qed.

Lemma get_objects_components_witness :
  make_obj 1 [(0, 0); (0, 1)] ∈ get_objects [[1;1];[0;2]] /\
  let o := make_obj 1 [(0, 0); (0, 1)] in
  (forall x y, x ∈ coords o -> y ∈ coords o -> linked (coords o) x y) /\
  (forall x y, x ∈ coords o -> y ∈ neighbors x -> in_bounds [[1;1];[0;2]] y ->
     get [[1;1];[0;2]] y.1 y.2 = value o -> y ∈ coords o).
Proof.
  assert (H : make_obj 1 [(0, 0); (0, 1)] ∈ get_objects [[1;1];[0;2]]).
  { vm_compute. apply list_elem_of_here. }
  split; [exact H|]. exact (get_objects_components _ _ H).
Defined.

Lemma nth_map_in {A B} (f : A -> B) (l : list A) (n : nat) (da : A) (db : B) :
  (n < length l)%nat -> nth n (map f l) db = f (nth n l da).
Proof.
  intros Hn. rewrite (nth_indep _ db (f da)) by (rewrite length_map; lia).
  apply map_nth.
Qed.

Lemma nth_zrange (n : nat) (m : Z) :
  (n < Z.to_nat m)%nat -> nth n (zrange m) 0 = Z.of_nat n.
Proof.
  intros Hn. unfold zrange. rewrite (nth_map_in _ _ _ 0%nat) by (rewrite length_seq; lia).
  rewrite seq_nth by lia. lia.
Qed.

(** The bounding box of a non-empty cell list built by [make_obj]. *)
Lemma make_obj_box (v : Z) (cs : list cell) :
  cs <> [] ->
  let o := make_obj v cs in
  (forall x, x ∈ cs -> min_r o <= x.1 <= max_r o /\ min_c o <= x.2 <= max_c o) /\
  (exists x, x ∈ cs /\ x.1 = min_r o) /\ (exists x, x ∈ cs /\ x.1 = max_r o) /\
  (exists x, x ∈ cs /\ x.2 = min_c o) /\ (exists x, x ∈ cs /\ x.2 = max_c o) /\
  dimensions o = (max_r o - min_r o + 1, max_c o - min_c o + 1).
Proof.
  intros Hne. cbn [make_obj min_r max_r min_c max_c dimensions].
  assert (Hr : map fst cs <> []) by (destruct cs; done).
  assert (Hc : map snd cs <> []) by (destruct cs; done).
  destruct (zmin_spec _ Hr) as [Hr1 Hr2], (zmax_spec _ Hr) as [Hr3 Hr4].
  destruct (zmin_spec _ Hc) as [Hc1 Hc2], (zmax_spec _ Hc) as [Hc3 Hc4].
  split.
  { intros x Hx. apply elem_of_In_iff in Hx.
    pose proof (Hr2 x.1 (in_map fst _ _ Hx)). pose proof (Hr4 x.1 (in_map fst _ _ Hx)).
    pose proof (Hc2 x.2 (in_map snd _ _ Hx)). pose proof (Hc4 x.2 (in_map snd _ _ Hx)).
    lia. }
  apply in_map_iff in Hr1 as [x1 [E1 I1]], Hr3 as [x2 [E2 I2]],
    Hc1 as [x3 [E3 I3]], Hc3 as [x4 [E4 I4]].
  repeat split; [exists x1|exists x2|exists x3|exists x4];
    (split; [by apply elem_of_In_iff|done]).
Qed.

(** Extra X3: for an object of [get_objects g], [get_object_grid g o] has the
    object's dimensions as shape, and its entry (i, j) is the object's
    value when (min_r + i, min_c + j) is a cell of the object and 0
    otherwise. *)
Theorem get_object_grid_spec (g : grid) (o : obj) :
  o ∈ get_objects g ->
  let og := get_object_grid g o in
  shape og = dimensions o /\
  Forall (fun row => Z.of_nat (length row) = (dimensions o).2) og /\
  forall i j, 0 <= i < (dimensions o).1 -> 0 <= j < (dimensions o).2 ->
    get og i j =
    if bool_decide ((min_r o + i, min_c o + j) ∈ coords o) then value o else 0.
Proof.
  intros Ho. destruct (get_objects_inv g o Ho) as [Hne [_ [Hmk [_ [Hv _]]]]].
  pose proof (make_obj_box (value o) (coords o) Hne) as Hbox. rewrite <- Hmk in Hbox.
  destruct Hbox as [Hin [[x [Hx _]] [_ [_ [_ Hdim]]]]].
  destruct (Hin x Hx) as [Hxr Hxc]. rewrite Hdim. simpl.
  set (dr := max_r o - min_r o + 1). set (dc := max_c o - min_c o + 1).
  assert (Hlr : forall r, length (map (fun c => if bool_decide ((r, c) ∈ coords o)
                   then get g r c else 0) (map (fun k => min_c o + k) (zrange dc)))
                = Z.to_nat dc).
  { intros r. by rewrite !length_map, zrange_length. }
  unfold get_object_grid. fold dr dc. split; [|split].
  - unfold shape, height, width. rewrite !length_map, zrange_length.
    destruct (zrange dr) as [|k ks] eqn:Ez.
    + pose proof (zrange_length dr) as L. rewrite Ez in L. simpl in L. lia.
    + simpl. rewrite Hlr. f_equal; lia.
  - apply Forall_forall. intros row Hrow. apply elem_of_In_iff in Hrow.
    apply in_map_iff in Hrow as [r [<- _]]. rewrite Hlr. lia.
  - intros i j Hi Hj. unfold get.
    rewrite (nth_map_in _ _ _ 0) by (rewrite ?length_map, ?zrange_length; lia).
    cbv beta.
    rewrite (nth_map_in _ _ _ 0) by (rewrite ?length_map, ?zrange_length; lia).
    cbv beta.
    rewrite (nth_map_in _ (zrange dr) _ 0) by (rewrite ?length_map, ?zrange_length; lia).
    rewrite (nth_map_in _ (zrange dc) _ 0) by (rewrite ?length_map, ?zrange_length; lia).
    rewrite !nth_zrange by lia.
    rewrite !Z2Nat.id by lia.
    case_bool_decide as Hm; [|done]. apply (Hv _ Hm).
Qed.

Lemma result_map_Ok {A B} (f : A -> result B) (l : list A) (ys : list B) :
  result_map f l = Ok ys -> forall y, y ∈ ys -> exists x, x ∈ l /\ f x = Ok y.
Proof.
  revert ys. induction l as [|x l IH]; intros ys E y Hy; simpl in E.
  - injection E as <-. by apply not_elem_of_nil in Hy.
  - unfold mbind, result_bind in E. destruct (f x) as [y0|] eqn:Ef; [|done].
    destruct (result_map f l) as [ys0|] eqn:El; [|done]. injection E as <-.
    apply elem_of_cons in Hy as [->|Hy].
    + exists x. split; [apply list_elem_of_here|done].
    + destruct (IH ys0 eq_refl y Hy) as [x' [Hx' Hf']].
      exists x'. split; [by apply elem_of_cons; right|done].
Qed.

Lemma result_map_total {A B} (f : A -> result B) (l : list A) :
  (forall x, x ∈ l -> exists y, f x = Ok y) -> exists ys, result_map f l = Ok ys.
Proof.
  induction l as [|x l IH]; intros H; [by exists []|].
  destruct (H x (list_elem_of_here x l)) as [y Ey].
  destruct IH as [ys Eys]; [intros z Hz; apply H; by apply elem_of_cons; right|].
  exists (y :: ys). simpl. unfold mbind, result_bind. by rewrite Ey, Eys.
Qed.

Lemma scale_check_ok (h1 w1 h2 w2 : Z) :
  h1 <> 0 -> w1 <> 0 -> exists r, scale_check h1 w1 h2 w2 = Ok r.
Proof.
  intros H1 H2. unfold scale_check.
  rewrite (proj2 (Z.eqb_neq _ _) H1), (proj2 (Z.eqb_neq _ _) H2).
  repeat case_match; eauto.
Qed.

(** [_find_object_transform] only raises on a grid with no rows or no
    columns. *)
Lemma find_object_transform_ok (g1 g2 : grid) :
  height g1 <> 0 -> width g1 <> 0 -> exists t, find_object_transform g1 g2 = Ok t.
Proof.
  intros Hh Hw. unfold find_object_transform, shape.
  destruct (if (height g1 =? height g2) && (width g1 =? width g2) then _ else None)
    as [t|]; [by exists t|].
  destruct (scale_check_ok (height g1) (width g1) (height g2) (width g2) Hh Hw)
    as [sc Esc].
  unfold mbind, result_bind. rewrite Esc. repeat case_match; eauto.
Qed.

Lemma object_grid_shape (g : grid) (o : obj) :
  o ∈ get_objects g -> height (get_object_grid g o) <> 0 /\ width (get_object_grid g o) <> 0.
Proof.
  intros Ho. destruct (get_objects_inv g o Ho) as [Hne [_ [Hmk _]]].
  pose proof (make_obj_box (value o) (coords o) Hne) as Hbox. rewrite <- Hmk in Hbox.
  destruct Hbox as [Hin [[x [Hx _]] _]].
  destruct (Hin x Hx) as [Hxr Hxc].
  unfold get_object_grid, height, width.
  rewrite !length_map, zrange_length.
  set (dr := max_r o - min_r o + 1). set (dc := max_c o - min_c o + 1).
  destruct (zrange dr) as [|k ks] eqn:Ez.
  - pose proof (zrange_length dr) as L. rewrite Ez in L. simpl in L. lia.
  - simpl. rewrite !length_map, zrange_length. lia.
Qed.

(** Extra X9: [analyze_object_transformations] always succeeds; its count
    change is the number of output objects minus the number of input
    objects; every mapping is for an input object and has at least one
    match, and each match is an output object whose object grid is related
    to the input object's by the recorded transform, never none. *)
Theorem analyze_object_transformations_spec (i o : grid) :
  exists a, analyze_object_transformations i o = Ok a /\
  object_count_change a =
    Z.of_nat (length (get_objects o)) - Z.of_nat (length (get_objects i)) /\
  forall m, m ∈ object_mappings a ->
    input_object m ∈ get_objects i /\ matches m <> [] /\
    forall mt, mt ∈ matches m ->
      output_object mt ∈ get_objects o /\ mtransform mt <> TNone /\
      find_object_transform (get_object_grid i (input_object m))
                            (get_object_grid o (output_object mt))
        = Ok (mtransform mt).
Proof.
  unfold analyze_object_transformations.
  set (fin := fun in_obj : obj =>
    found ← result_map (fun out_obj =>
        t ← find_object_transform (get_object_grid i in_obj) (get_object_grid o out_obj);
        Ok (out_obj, t)) (get_objects o);
    let ms := map (fun '(oo, t) => mk_match oo t)
                  (List.filter (fun '(_, t) => negb (bool_decide (t = TNone))) found) in
    Ok (match ms with [] => None | _ => Some (mk_mapping in_obj ms) end)).
  destruct (result_map_total fin (get_objects i)) as [mappings Em].
  { intros x Hx. unfold fin.
    destruct (object_grid_shape i x Hx) as [Hh Hw].
    destruct (result_map_total (fun out_obj =>
        t ← find_object_transform (get_object_grid i x) (get_object_grid o out_obj);
        Ok (out_obj, t)) (get_objects o)) as [found Ef].
    { intros y _. destruct (find_object_transform_ok (get_object_grid i x)
                              (get_object_grid o y) Hh Hw) as [t Et].
      exists (y, t). unfold mbind, result_bind. by rewrite Et. }
    unfold mbind at 1, result_bind at 1. rewrite Ef. eauto. }
  unfold mbind at 1, result_bind at 1. rewrite Em.
  eexists. split; [reflexivity|]. cbn [object_count_change object_mappings].
  split; [done|]. intros m Hm.
  apply list_elem_of_omap in Hm as [om [Hom Hid]]. simpl in Hid. subst om.
  destruct (result_map_Ok fin _ _ Em _ Hom) as [x [Hx Efx]]. unfold fin in Efx.
  unfold mbind at 1, result_bind at 1 in Efx.
  destruct (result_map _ (get_objects o)) as [found|] eqn:Ef; [|done].
  injection Efx as Efx.
  destruct (map _ (List.filter _ found)) as [|mt0 ms0] eqn:Ems; [done|].
  injection Efx as <-. cbn [input_object matches].
  split; [done|]. split; [done|]. rewrite <- Ems.
  intros mt Hmt. apply elem_of_In_iff, in_map_iff in Hmt as [[oo t] [<- Hp]].
  apply filter_In in Hp as [Hp Ht]. apply negb_true_iff, bool_decide_eq_false in Ht.
  apply elem_of_In_iff in Hp.
  destruct (result_map_Ok _ _ _ Ef _ Hp) as [y [Hy Ey]].
  unfold mbind, result_bind in Ey.
  destruct (find_object_transform _ _) as [t'|] eqn:Et; [|done].
  injection Ey as <- <-. cbn [output_object mtransform]. auto.
Qed.

Lemma match_score_nonneg (o x : obj) : 0 <= match_score o x.
Proof. unfold match_score. repeat case_match; lia. Qed.

(** The best-score loop of [_find_matching_object]: it either keeps its
    start value, when no candidate beats it, or ends on the first candidate
    of maximal score. *)
Lemma match_fold_spec (o : obj) (f : option obj * Z -> obj -> option obj * Z)
  (Hf : forall bm bs x, f (bm, bs) x =
          if bs <? match_score o x then (Some x, match_score o x) else (bm, bs))
  (objects : list obj) :
  forall bm0 bs0,
  let res := fold_left f objects (bm0, bs0) in
  (res = (bm0, bs0) /\ forall x, x ∈ objects -> match_score o x <= bs0) \/
  (exists k m, objects !! k = Some m /\ res = (Some m, match_score o m) /\
     bs0 < match_score o m /\
     (forall x, x ∈ objects -> match_score o x <= match_score o m) /\
     forall k' x, (k' < k)%nat -> objects !! k' = Some x ->
       match_score o x < match_score o m).
Proof.
  induction objects as [|x objects IH]; intros bm0 bs0; simpl; rewrite ?Hf.
  { left. split; [done|]. intros x Hx. by apply not_elem_of_nil in Hx. }
  destruct (Z.ltb_spec bs0 (match_score o x)) as [Hlt|Hge].
  - destruct (IH (Some x) (match_score o x)) as [[-> Hall]|[k [m [Hk [-> [Hb [Hall Hfirst]]]]]]].
    + right. exists 0%nat, x. split; [done|]. split; [done|]. split; [done|].
      split; [|intros k' y Hk'; lia].
      intros y Hy. apply elem_of_cons in Hy as [->|Hy]; [lia|auto].
    + right. exists (S k), m. split; [done|]. split; [done|]. split; [lia|].
      split.
      * intros y Hy. apply elem_of_cons in Hy as [->|Hy]; [lia|auto].
      * intros [|k'] y Hk' Hy; simpl in Hy; [injection Hy as <-; lia|].
        apply (Hfirst k'); [lia|done].
  - destruct (IH bm0 bs0) as [[-> Hall]|[k [m [Hk [-> [Hb [Hall Hfirst]]]]]]].
    + left. split; [done|]. intros y Hy. apply elem_of_cons in Hy as [->|Hy]; [lia|auto].
    + right. exists (S k), m. split; [done|]. split; [done|]. split; [lia|].
      split.
      * intros y Hy. apply elem_of_cons in Hy as [->|Hy]; [lia|auto].
      * intros [|k'] y Hk' Hy; simpl in Hy; [injection Hy as <-; lia|].
        apply (Hfirst k'); [lia|done].
Qed.

(** Extra X10: [_find_matching_object] returns None exactly when every
    candidate scores 0; otherwise it returns the first candidate of maximal
    positive score. *)
Theorem find_matching_object_spec (o : obj) (objects : list obj) :
  (find_matching_object o objects = None <->
   forall x, x ∈ objects -> match_score o x = 0) /\
  forall m, find_matching_object o objects = Some m ->
  exists k, objects !! k = Some m /\ 0 < match_score o m /\
    (forall x, x ∈ objects -> match_score o x <= match_score o m) /\
    forall k' x, (k' < k)%nat -> objects !! k' = Some x ->
      match_score o x < match_score o m.
Proof.
  unfold find_matching_object.
  match goal with |- context [fold_left ?f objects (None, 0)] =>
    pose proof (match_fold_spec o f (fun bm bs x => eq_refl) objects None 0) as Hfold
  end.
  destruct Hfold as [[-> Hall]|[k [m [Hk [-> [Hb [Hall Hfirst]]]]]]].
  - simpl. split.
    + split; [|done]. intros _ x Hx. pose proof (match_score_nonneg o x).
      specialize (Hall x Hx). lia.
    + done.
  - rewrite (proj2 (Z.ltb_lt _ _) Hb). split.
    + split; [done|]. intros H. specialize (H m (list_elem_of_lookup_2 _ _ _ Hk)). lia.
    + intros m' Em. injection Em as <-. exists k. auto.
Qed.

Lemma dedup_sorted_const (l : list Z) (t : Z) :
  l <> [] -> (forall x, In x l -> x = t) -> dedup_sorted l = [t].
Proof.
  induction l as [|a l IH]; [done|]. intros _ H.
  destruct l as [|b l'].
  - simpl. f_equal. apply H. by left.
  - change (dedup_sorted (a :: b :: l')) with
      (if a =? b then dedup_sorted (b :: l') else a :: dedup_sorted (b :: l')).
    pose proof (H a (or_introl eq_refl)) as ->.
    destruct (Z.eqb_spec t b) as [<-|Hb]; [|exfalso; apply Hb; symmetry; apply H; right; by left].
    apply IH; [done|]. intros x Hx. apply H. by right.
Qed.

(** [np.unique] returns a single value exactly on a non-empty constant
    array. *)
Lemma np_unique_single (l : list Z) (t : Z) :
  np_unique l = [t] <-> l <> [] /\ forall x, In x l -> x = t.
Proof.
  split.
  - intros E. split.
    + intros ->. discriminate.
    + intros x Hx. apply np_unique_In in Hx. rewrite E in Hx. by destruct Hx as [<-|[]].
  - intros [Hne H]. unfold np_unique. apply dedup_sorted_const.
    + intros E. apply Hne. apply Permutation_nil.
      rewrite <- (merge_sort_Permutation Z.le l), E. done.
    + intros x Hx. apply H. apply elem_of_In_iff.
      rewrite <- (merge_sort_Permutation Z.le l). by apply elem_of_In_iff.
Qed.

Lemma np_unique_nil (l : list Z) : np_unique l = [] <-> l = [].
Proof.
  split; [|by intros ->].
  intros E. destruct l as [|x l]; [done|].
  pose proof (proj2 (np_unique_In (x :: l) x) (or_introl eq_refl)) as H.
  rewrite E in H. done.
Qed.

(** The loop body of [analyze_value_mappings] on a value that occurs:
    it always records a mapping, and a direct one exactly when all its
    positions carry one output value. *)
Lemma classify_value_spec (i o : grid) (v : Z) :
  value_positions i v <> [] ->
  classify_value i o v <> None /\
  forall t, classify_value i o v = Some (Direct t) <->
    Forall (fun rc => get o rc.1 rc.2 = t) (value_positions i v).
Proof.
  intros Hne. unfold classify_value.
  set (ps := value_positions i v) in *.
  set (ovs := map (fun rc => get o rc.1 rc.2) ps).
  assert (Hall : forall t, Forall (fun rc => get o rc.1 rc.2 = t) ps <->
                  forall x, In x ovs -> x = t).
  { intros t. rewrite List.Forall_forall. unfold ovs. split.
    - intros H x Hx. apply in_map_iff in Hx as [rc [<- Hrc]]. auto.
    - intros H rc Hrc. apply H, in_map_iff. by exists rc. }
  assert (Hovs : ovs <> []) by (unfold ovs; by destruct ps).
  destruct (np_unique ovs) as [|t [|t' rest]] eqn:E.
  - apply (proj1 (np_unique_nil ovs)) in E. contradiction.
  - simpl. split; [done|]. intros t0. rewrite Hall.
    apply np_unique_single in E as [_ Ht]. split.
    + intros Eq. injection Eq as <-. done.
    + intros H. destruct ovs as [|x xs]; [done|].
      rewrite <- (Ht x (or_introl eq_refl)), (H x (or_introl eq_refl)). done.
  - simpl. split; [by repeat case_match|]. intros t0. rewrite Hall. split.
    + intros Eq. exfalso. revert Eq. by repeat case_match.
    + intros H. exfalso. assert (H2 : np_unique ovs = [t0]) by (apply np_unique_single; tauto).
      rewrite H2 in E. discriminate.
Qed.

(** With shapes that differ the loop raises at the first non-zero value. *)
Lemma analyze_value_mappings_fold_mismatch (i o : grid) (L : list Z) :
  shape i <> shape o ->
  forall acc : result (gmap Z value_mapping),
  fold_left (fun acc in_val =>
               m ← acc;
               if in_val =? 0 then Ok m
               else if negb (bool_decide (shape i = shape o)) then Err IndexError
               else match classify_value i o in_val with
                    | Some vm => Ok (<[in_val := vm]> m)
                    | None => Ok m
                    end) L acc =
  match acc with
  | Ok m => if existsb (fun v => negb (v =? 0)) L then Err IndexError else Ok m
  | Err e => Err e
  end.
Proof.
  intros Hs. induction L as [|x L IH]; intros acc; simpl; [by destruct acc|].
  rewrite IH. destruct acc as [m|e]; simpl; [|done].
  rewrite bool_decide_false by done.
  destruct (x =? 0); simpl; [done|]. done.
Qed.

(** Extra X7: when the shapes differ, [analyze_value_mappings] raises
    IndexError if the input has a non-zero cell and returns no mapping
    otherwise; when they agree it maps exactly the non-zero input values,
    and a value maps directly to t exactly when every one of its positions
    holds t in the output. *)
Theorem analyze_value_mappings_spec (i o : grid) :
  (shape i <> shape o ->
     analyze_value_mappings i o =
     if existsb (fun v => negb (v =? 0)) (concat i) then Err IndexError else Ok ∅) /\
  (shape i = shape o ->
   exists m, analyze_value_mappings i o = Ok m /\
   forall v,
     (m !! v <> None <-> v <> 0 /\ value_positions i v <> []) /\
     forall t, m !! v = Some (Direct t) <->
       v <> 0 /\ value_positions i v <> [] /\
       Forall (fun rc => get o rc.1 rc.2 = t) (value_positions i v)).
Proof.
  split.
  - intros Hs. unfold analyze_value_mappings.
    rewrite (analyze_value_mappings_fold_mismatch i o _ Hs).
    destruct (existsb _ (np_unique (concat i))) eqn:E1,
             (existsb _ (concat i)) eqn:E2; try done.
    + apply existsb_exists in E1 as [x [Hx Hnz]].
      apply (proj1 (np_unique_In _ _)) in Hx.
      assert (existsb (fun v => negb (v =? 0)) (concat i) = true)
        by (apply existsb_exists; exists x; split; [done|exact Hnz]). congruence.
    + apply existsb_exists in E2 as [x [Hx Hnz]].
      apply (proj2 (np_unique_In _ _)) in Hx.
      assert (existsb (fun v => negb (v =? 0)) (np_unique (concat i)) = true)
        by (apply existsb_exists; exists x; split; [done|exact Hnz]). congruence.
  - intros Hs. unfold analyze_value_mappings.
    destruct (analyze_value_mappings_fold i o (np_unique (concat i)) ∅ Hs)
      as (m & Hf & Hin & Hout).
    exists m. split; [exact Hf|]. intros v.
    assert (Hocc : v <> 0 -> value_positions i v <> [] -> In v (np_unique (concat i))).
    { intros Hv Hp. destruct (value_positions i v) as [|rc ps] eqn:Ep; [done|].
      assert (Hrc : In rc (value_positions i v)) by (rewrite Ep; by left).
      apply filter_In in Hrc as [_ Hg]. apply Z.eqb_eq in Hg.
      apply np_unique_In. rewrite <- Hg. apply get_in_concat. by rewrite Hg. }
    destruct (decide (v <> 0 /\ value_positions i v <> [])) as [[Hv Hp]|Hn].
    + rewrite (Hin v Hv (Hocc Hv Hp)), lookup_empty.
      destruct (classify_value_spec i o v Hp) as [Hsome Hdir].
      replace (classify_value i o v ∪ None) with (classify_value i o v)
        by (by destruct (classify_value i o v)).
      split; [tauto|]. intros t. rewrite Hdir. tauto.
    + assert (Hnone : m !! v = None).
      { destruct (decide (v <> 0)) as [Hv|Hv];
          [destruct (in_dec Z.eq_dec v (np_unique (concat i))) as [HL|HL]|].
        - rewrite (Hin v Hv HL), lookup_empty.
          unfold classify_value.
          destruct (value_positions i v) eqn:Ep;
            [reflexivity|exfalso; apply Hn; split; [done|discriminate]].
        - rewrite (Hout v ltac:(tauto)). apply lookup_empty.
        - rewrite (Hout v ltac:(tauto)). apply lookup_empty. }
      rewrite Hnone. split; [tauto|]. intros t. split; [done|tauto].
Qed.

Lemma ordered_pairs_lookup {A} (l : list A) (k1 k2 : nat) (a b : A) :
  l !! k1 = Some a -> l !! k2 = Some b -> (k1 < k2)%nat -> (a, b) ∈ ordered_pairs l.
Proof.
  revert k1 k2. induction l as [|x l IH]; intros k1 k2 H1 H2 Hlt; [done|].
  simpl. apply elem_of_app. destruct k1 as [|k1], k2 as [|k2]; try lia.
  - left. simpl in H1, H2. injection H1 as <-. apply list_elem_of_fmap.
    exists b. split; [done|]. by eapply list_elem_of_lookup_2.
  - right. apply (IH k1 k2); [done|done|lia].
Qed.

Lemma find_matching_object_some (o : obj) (objects : list obj) (x : obj) :
  x ∈ objects -> 0 < match_score o x -> exists m, find_matching_object o objects = Some m.
Proof.
  intros Hx Hs. unfold find_matching_object.
  match goal with |- context [fold_left ?f objects (None, 0)] =>
    pose proof (match_fold_spec o f (fun bm bs x => eq_refl) objects None 0) as Hfold
  end.
  destruct Hfold as [[-> Hall]|[k [m [Hk [-> [Hb _]]]]]].
  - specialize (Hall x Hx). lia.
  - rewrite (proj2 (Z.ltb_lt _ _) Hb). eauto.
Qed.

Lemma find_global_transform_ok (g1 g2 : grid) :
  height g1 <> 0 -> width g1 <> 0 -> exists t, find_global_transform g1 g2 = Ok t.
Proof.
  intros Hh Hw. unfold find_global_transform, shape.
  destruct (if (height g1 =? height g2) && (width g1 =? width g2) then _ else None)
    as [t|]; [by exists t|].
  destruct (scale_check_ok (height g1) (width g1) (height g2) (width g2) Hh Hw)
    as [sc Esc].
  unfold mbind, result_bind. rewrite Esc. repeat case_match; eauto.
Qed.

(** Extra X11: with the same grid as input and output, two distinct objects
    (in the order of [get_objects]) with the same value, size and dimensions
    but different centres make [analyze_spatial_transformations] report a
    relative-position change for the pair, whose new position is (0, 0). *)
Theorem analyze_spatial_unchanged_pair (g : grid) (k1 k2 : nat) (o1 o2 : obj) :
  get_objects g !! k1 = Some o1 -> get_objects g !! k2 = Some o2 -> (k1 < k2)%nat ->
  value o1 = value o2 -> size o1 = size o2 -> dimensions o1 = dimensions o2 ->
  center2 o1 <> center2 o2 ->
  exists sa, analyze_spatial_transformations g g = Ok sa /\
  mk_rel_change (value o1, value o2) (get_relative_position o1 o2) (mk_rel_pos 0 0)
    ∈ relative_positions sa.
Proof.
  intros H1 H2 Hlt Hv Hs Hd Hc.
  assert (Ho1 : o1 ∈ get_objects g) by (by eapply list_elem_of_lookup_2).
  destruct (get_objects_inv g o1 Ho1) as [Hne [_ [_ [_ [Hcells _]]]]].
  destruct (coords o1) as [|x xs] eqn:Ec; [done|].
  destruct (Hcells x ltac:(apply list_elem_of_here)) as [[Hxr Hxc] _].
  destruct (find_global_transform_ok g g ltac:(lia) ltac:(lia)) as [gt Egt].
  unfold analyze_spatial_transformations. rewrite Egt. simpl.
  eexists. split; [reflexivity|]. cbn [relative_positions].
  assert (Hlen : (1 < length (get_objects g))%nat).
  { apply lookup_lt_Some in H2. lia. }
  rewrite (proj2 (Nat.ltb_lt _ _) Hlen), Nat.eqb_refl. simpl.
  apply list_elem_of_omap. exists (o1, o2).
  split; [by apply (ordered_pairs_lookup _ k1 k2)|].
  assert (Hsame : find_matching_object o2 (get_objects g) =
                  find_matching_object o1 (get_objects g)).
  { unfold find_matching_object, match_score. by rewrite Hv, Hs, Hd. }
  rewrite Hsame.
  destruct (find_matching_object_some o1 (get_objects g) o1 Ho1) as [m Em].
  { unfold match_score. rewrite Z.eqb_refl, Z.eqb_refl, bool_decide_true by done. lia. }
  rewrite Em.
  assert (Hm : get_relative_position m m = mk_rel_pos 0 0).
  { unfold get_relative_position. by rewrite !Z.sub_diag. }
  rewrite Hm, bool_decide_false; [done|].
  unfold get_relative_position. intros E. injection E as E1 E2.
  apply Hc. destruct (center2 o1), (center2 o2). simpl in *. f_equal; lia.
Qed.

Lemma eqb_mirror (x n : Z) : (n - 1 - x =? 0) = (x =? n - 1).
Proof. destruct (Z.eqb_spec (n - 1 - x) 0), (Z.eqb_spec x (n - 1)); lia. Qed.

Lemma eqb_mirror' (x n : Z) : (n - 1 - x =? n - 1) = (x =? 0).
Proof. destruct (Z.eqb_spec (n - 1 - x) (n - 1)), (Z.eqb_spec x 0); lia. Qed.

(** Extra X8: the corner/edge/interior category of [_get_position_type] is
    unchanged by mirroring the row or the column and by transposing the
    position together with the shape. *)
Theorem get_position_type_symmetric (r c h w : Z) :
  get_position_type (h - 1 - r, c) (h, w) = get_position_type (r, c) (h, w) /\
  get_position_type (r, w - 1 - c) (h, w) = get_position_type (r, c) (h, w) /\
  get_position_type (c, r) (w, h) = get_position_type (r, c) (h, w).
Proof.
  unfold get_position_type. rewrite !eqb_mirror, !eqb_mirror'.
  split; [|split]; by destruct (r =? 0), (r =? h - 1), (c =? 0), (c =? w - 1).
Qed.

Lemma dims_width (g : grid) (h w : nat) : dims g h w -> length (hd [] g) = w.
Proof.
  intros [Hl [Hf [Hh _]]]. destruct g as [|row g]; simpl in *; [lia|].
  by apply Forall_cons in Hf as [? _].
Qed.

Lemma dims_row (g : grid) (h w : nat) (i : nat) :
  dims g h w -> (i < h)%nat -> length (nth i g []) = w.
Proof.
  intros [Hl [Hf _]] Hi. rewrite List.Forall_forall in Hf. apply Hf, nth_In. lia.
Qed.

(** Two grids of the same dimensions with the same entries are equal. *)
Lemma grid_ext (a b : grid) (h w : nat) :
  dims a h w -> dims b h w ->
  (forall i j, (i < h)%nat -> (j < w)%nat -> entry a i j = entry b i j) -> a = b.
Proof.
  intros Ha Hb H. apply (nth_ext _ _ [] []); [destruct Ha, Hb; lia|].
  intros i Hi. pose proof Ha as [Hla _]. rewrite Hla in Hi.
  apply (nth_ext _ _ 0 0).
  - by rewrite (dims_row a h w i), (dims_row b h w i).
  - intros j Hj. rewrite (dims_row a h w i) in Hj by done. apply (H i j); lia.
Qed.

Lemma rot90_once_dims (g : grid) (h w : nat) : dims g h w -> dims (rot90_once g) w h.
Proof.
  intros Hd. pose proof (dims_width g h w Hd) as Hw.
  destruct Hd as [Hl [Hf [Hh Hw']]].
  unfold rot90_once, transpose. rewrite Hw. split; [|split; [|done]].
  - by rewrite length_rev, length_map, length_seq.
  - apply List.Forall_forall. intros row Hrow. apply in_rev in Hrow.
    apply in_map_iff in Hrow as [j [<- _]]. by rewrite length_map.
Qed.

Lemma rot90_once_entry (g : grid) (h w : nat) (i j : nat) :
  dims g h w -> (i < w)%nat -> (j < h)%nat ->
  entry (rot90_once g) i j = entry g j (w - 1 - i).
Proof.
  intros Hd Hi Hj. pose proof (dims_width g h w Hd) as Hw.
  unfold entry, rot90_once, transpose. rewrite Hw.
  rewrite rev_nth by (rewrite length_map, length_seq; lia).
  rewrite length_map, length_seq.
  rewrite (nth_map_in _ _ _ 0%nat) by (rewrite length_seq; lia).
  rewrite seq_nth by lia.
  rewrite (nth_map_in _ _ _ []) by (destruct Hd; lia).
  f_equal. lia.
Qed.

Lemma flip0_dims (g : grid) (h w : nat) : dims g h w -> dims (flip0 g) h w.
Proof.
  intros [Hl [Hf Hp]]. unfold flip0. split; [by rewrite length_rev|].
  split; [|done]. apply List.Forall_forall. intros row Hrow. apply in_rev in Hrow.
  rewrite List.Forall_forall in Hf. auto.
Qed.

Lemma flip1_dims (g : grid) (h w : nat) : dims g h w -> dims (flip1 g) h w.
Proof.
  intros [Hl [Hf Hp]]. unfold flip1. split; [by rewrite length_map|].
  split; [|done]. apply List.Forall_forall. intros row Hrow.
  apply in_map_iff in Hrow as [r [<- Hr]]. rewrite length_rev.
  rewrite List.Forall_forall in Hf. auto.
Qed.

Lemma flip0_entry (g : grid) (h w i j : nat) :
  dims g h w -> (i < h)%nat -> entry (flip0 g) i j = entry g (h - 1 - i) j.
Proof.
  intros Hd Hi. unfold entry, flip0. rewrite rev_nth by (destruct Hd; lia).
  destruct Hd as [-> _]. do 2 f_equal. lia.
Qed.

Lemma flip1_entry (g : grid) (h w i j : nat) :
  dims g h w -> (i < h)%nat -> (j < w)%nat -> entry (flip1 g) i j = entry g i (w - 1 - j).
Proof.
  intros Hd Hi Hj. unfold entry, flip1.
  rewrite (nth_map_in _ _ _ []) by (destruct Hd; lia).
  rewrite rev_nth by (rewrite (dims_row g h w i); [lia|done|done]).
  rewrite (dims_row g h w i) by done. f_equal. lia.
Qed.

Lemma rot90_twice (g : grid) (h w : nat) :
  dims g h w -> rot90_once (rot90_once g) = flip0 (flip1 g).
Proof.
  intros Hd. pose proof (rot90_once_dims g h w Hd) as Hd1.
  pose proof (rot90_once_dims _ w h Hd1) as Hd2.
  apply (grid_ext _ _ h w Hd2); [apply flip0_dims, flip1_dims, Hd|].
  intros i j Hi Hj.
  rewrite (rot90_once_entry _ w h) by (done || lia).
  rewrite (rot90_once_entry _ h w) by (done || lia).
  rewrite (flip0_entry _ h w) by (try apply flip1_dims; done || lia).
  rewrite (flip1_entry _ h w) by (done || lia). f_equal; lia.
Qed.

Lemma flip01_involutive (g : grid) : flip0 (flip1 (flip0 (flip1 g))) = g.
Proof.
  unfold flip0, flip1. rewrite map_rev, rev_involutive, map_map.
  rewrite <- (map_id g) at 2. apply map_ext. apply rev_involutive.
Qed.

Lemma rot90_iter_dims (g : grid) (h w : nat) (n : nat) :
  dims g h w -> dims (Nat.iter n rot90_once g) h w \/ dims (Nat.iter n rot90_once g) w h.
Proof.
  intros Hd. induction n as [|n IH]; [by left|]. simpl.
  destruct IH as [IH|IH]; [right|left]; by eapply rot90_once_dims.
Qed.

Lemma rot90_four (g : grid) (h w : nat) :
  dims g h w -> Nat.iter 4 rot90_once g = g.
Proof.
  intros Hd. change (Nat.iter 4 rot90_once g) with
    (rot90_once (rot90_once (rot90_once (rot90_once g)))).
  pose proof (rot90_once_dims _ _ _ (rot90_once_dims g h w Hd)) as Hd2.
  rewrite (rot90_twice _ h w Hd2), (rot90_twice g h w Hd).
  apply flip01_involutive.
Qed.

Lemma iter_add {A} (f : A -> A) (m n : nat) (x : A) :
  Nat.iter m f (Nat.iter n f x) = Nat.iter (m + n) f x.
Proof. induction m as [|m IH]; simpl; [done|]. by rewrite IH. Qed.

(** Extra X4: on a well-formed grid, [rotate_grid g 1] has the transposed
    shape and entry (i, j) equal to [g[j, w-1-i]]; rotating by k and then by
    -k gives back the grid; flipping along axis 1 then axis 0 is the
    rotation by 2; flipping twice along the same axis is the identity for
    the axes -2 .. 1 and raises ValueError for the others. *)
Theorem rotate_flip_laws (g : grid) :
  well_formed g ->
  shape (rotate_grid g 1) = (width g, height g) /\
  (forall i j, 0 <= i < width g -> 0 <= j < height g ->
     get (rotate_grid g 1) i j = get g j (width g - 1 - i)) /\
  (forall k, rotate_grid (rotate_grid g k) (- k) = g) /\
  (g1 ← flip_grid g 1; flip_grid g1 0) = Ok (rotate_grid g 2) /\
  (forall axis, (g1 ← flip_grid g axis; flip_grid g1 axis) =
     if (-2 <=? axis) && (axis <? 2) then Ok g else Err ValueError).
Proof.
  intros [Hne [Hw Hf]].
  assert (Hd : dims g (length g) (length (hd [] g))).
  { split; [done|]. split; [done|]. split; [destruct g; simpl; [done|lia]|done]. }
  set (h := length g) in *. set (w := length (hd [] g)) in *.
  split; [|split; [|split; [|split]]].
  - pose proof (rot90_once_dims g h w Hd) as Hd1.
    unfold rotate_grid, rot90, shape, height, width. simpl.
    rewrite (dims_width _ w h Hd1). destruct Hd1 as [-> _]. done.
  - intros i j Hi Hj. unfold height, width in *. fold h w in Hi, Hj |- *.
    unfold rotate_grid, rot90. simpl.
    change (get (rot90_once g) i j = get g j (Z.of_nat w - 1 - i)) with
      (entry (rot90_once g) (Z.to_nat i) (Z.to_nat j) =
       entry g (Z.to_nat j) (Z.to_nat (Z.of_nat w - 1 - i))).
    rewrite (rot90_once_entry g h w) by (done || lia). f_equal. lia.
  - intros k. unfold rotate_grid, rot90. rewrite iter_add.
    assert (Hk : (k mod 4 = 0 /\ - k mod 4 = 0) \/
                 (0 < k mod 4 /\ k mod 4 + - k mod 4 = 4)).
    { destruct (Z.eq_dec (k mod 4) 0) as [E|E].
      - left. split; [done|]. apply Z_mod_zero_opp_full. done.
      - right. rewrite Z_mod_nz_opp_full by done.
        pose proof (Z.mod_pos_bound k 4). lia. }
    destruct Hk as [[E1 E2]|[E1 E2]].
    + by rewrite E2, E1.
    + replace (Z.to_nat (- k mod 4) + Z.to_nat (k mod 4))%nat with 4%nat
        by (pose proof (Z.mod_pos_bound (- k) 4); lia).
      apply (rot90_four g h w Hd).
  - unfold flip_grid, mbind, result_bind. simpl. unfold rotate_grid, rot90. simpl.
    by rewrite (rot90_twice g h w Hd).
  - intros axis. unfold flip_grid, mbind, result_bind, flip0.
    destruct (Z.eqb_spec axis 0) as [->|H0]; [simpl; by rewrite rev_involutive|].
    destruct (Z.eqb_spec axis (-2)) as [->|H2]; [simpl; by rewrite rev_involutive|].
    destruct (Z.eqb_spec axis 1) as [->|H1].
    { simpl. unfold flip1. rewrite map_map. f_equal.
      rewrite <- (map_id g) at 2. apply map_ext. apply rev_involutive. }
    destruct (Z.eqb_spec axis (-1)) as [->|H3].
    { simpl. unfold flip1. rewrite map_map. f_equal.
      rewrite <- (map_id g) at 2. apply map_ext. apply rev_involutive. }
    simpl. replace ((-2 <=? axis) && (axis <? 2)) with false; [done|].
    symmetry. apply andb_false_iff.
    destruct (Z.leb_spec (-2) axis); [right; apply Z.ltb_ge; lia|by left].
Qed.

Lemma list_sum_cons' (x : nat) (xs : list nat) : list_sum (x :: xs) = (x + list_sum xs)%nat.
Proof. reflexivity. Qed.

Lemma dedup_sorted_strict (l : list Z) :
  StronglySorted Z.le l -> StronglySorted Z.lt (dedup_sorted l).
Proof.
  induction l as [|a l IH]; intros Hs; [constructor|].
  destruct l as [|b l'].
  - repeat constructor.
  - change (dedup_sorted (a :: b :: l')) with
      (if a =? b then dedup_sorted (b :: l') else a :: dedup_sorted (b :: l')).
    apply StronglySorted_inv in Hs as [Hs Ha].
    destruct (Z.eqb_spec a b) as [->|Hab]; [by apply IH|].
    constructor; [by apply IH|].
    apply List.Forall_forall. intros x Hx. apply (proj1 (dedup_sorted_In _ _)) in Hx.
    rewrite List.Forall_forall in Ha. pose proof (Ha b (or_introl eq_refl)).
    destruct Hx as [<-|Hx]; [lia|].
    apply StronglySorted_inv in Hs as [_ Hb]. rewrite List.Forall_forall in Hb.
    specialize (Hb x Hx). lia.
Qed.

Lemma np_unique_sorted (l : list Z) : StronglySorted Z.lt (np_unique l).
Proof.
  apply dedup_sorted_strict. apply StronglySorted_merge_sort.
  - intros x y z; lia.
  - intros x y; lia.
Qed.

Lemma np_unique_NoDup (l : list Z) : List.NoDup (np_unique l).
Proof.
  pose proof (np_unique_sorted l) as Hs. induction Hs as [|a u Hs IH Ha]; constructor; [|done].
  intros Hin. rewrite List.Forall_forall in Ha. specialize (Ha a Hin). lia.
Qed.

(** Counting the occurrences, over a duplicate-free list [u] of candidate
    values covering [l], of the values satisfying [p] counts the elements
    of [l] satisfying [p]. *)
Lemma sum_count_occ (p : Z -> bool) (u l : list Z) :
  List.NoDup u -> (forall x, In x l -> In x u) ->
  list_sum (map (count_occ Z.eq_dec l) (List.filter p u)) = length (List.filter p l).
Proof.
  intros Hnd. induction l as [|a l IH]; intros Hcov.
  - simpl. induction (List.filter p u) as [|v vs IHv]; simpl; [done|]. by rewrite IHv.
  - assert (Ha : In a u) by (apply Hcov; by left).
    assert (E : forall vs, List.NoDup vs ->
      list_sum (map (count_occ Z.eq_dec (a :: l)) vs) =
      ((if in_dec Z.eq_dec a vs then 1 else 0) +
       list_sum (map (count_occ Z.eq_dec l) vs))%nat).
    { induction vs as [|v vs IHv]; intros Hn; [done|]. rewrite !map_cons, !list_sum_cons'.
      apply NoDup_cons_iff in Hn as [Hv Hn]. rewrite IHv by done.
      destruct (Z.eq_dec a v) as [->|Hav].
      - rewrite count_occ_cons_eq by done.
        destruct (in_dec Z.eq_dec v vs); [done|].
        destruct (in_dec Z.eq_dec v (v :: vs)) as [_|Hn']; [lia|].
        exfalso. apply Hn'. by left.
      - rewrite count_occ_cons_neq by done.
        destruct (in_dec Z.eq_dec a vs) as [Hin|Hnin];
          destruct (in_dec Z.eq_dec a (v :: vs)) as [Hin'|Hnin'].
        + lia.
        + exfalso. apply Hnin'. by right.
        + destruct Hin' as [->|Hin']; done.
        + lia. }
    rewrite E by (by apply List.NoDup_filter).
    rewrite IH by (intros x Hx; apply Hcov; by right).
    cbn [List.filter]. destruct (p a) eqn:Hp; simpl.
    + destruct (in_dec Z.eq_dec a (List.filter p u)) as [_|Hn]; [lia|].
      exfalso. apply Hn, filter_In. done.
    + destruct (in_dec Z.eq_dec a (List.filter p u)) as [Hin|_]; [|lia].
      apply filter_In in Hin as [_ Hin]. congruence.
Qed.

(** Extra X5: [count_values] lists each value of the grid once, in increasing
    order, with its number of occurrences; the counts add up to the number
    of cells. *)
Theorem count_values_spec (g : grid) :
  StronglySorted Z.lt (map fst (count_values g)) /\
  (forall v n, In (v, n) (count_values g) <->
     In v (concat g) /\ n = count_occ Z.eq_dec (concat g) v) /\
  list_sum (map snd (count_values g)) = length (concat g).
Proof.
  unfold count_values. split; [|split].
  - rewrite map_map. simpl. rewrite map_id. apply np_unique_sorted.
  - intros v n. rewrite in_map_iff. split.
    + intros [v' [E Hv']]. injection E as <- <-. split; [|done].
      by apply np_unique_In.
    + intros [Hv ->]. exists v. split; [done|]. by apply np_unique_In.
  - rewrite map_map. simpl.
    pose proof (sum_count_occ (fun _ => true) (np_unique (concat g)) (concat g)
                  (np_unique_NoDup _) (fun x Hx => proj2 (np_unique_In _ x) Hx)) as H.
    rewrite !filter_true in H. exact H.
Qed.



Lemma get_object_grid_spec_witness :
  make_obj 1 [(0,0);(0,1)] ∈ get_objects [[1;1];[0;2]] /\
  shape (get_object_grid [[1;1];[0;2]] (make_obj 1 [(0,0);(0,1)]))
    = dimensions (make_obj 1 [(0,0);(0,1)]).
Proof.
  assert (H : make_obj 1 [(0,0);(0,1)] ∈ get_objects [[1;1];[0;2]])
    by (vm_compute; apply list_elem_of_here).
  split; [exact H|]. exact (proj1 (get_object_grid_spec _ _ H)).
Defined.

Lemma analyze_spatial_unchanged_pair_witness :
  exists sa, analyze_spatial_transformations [[1;0;1]] [[1;0;1]] = Ok sa /\
  mk_rel_change (1, 1) (mk_rel_pos 4 0) (mk_rel_pos 0 0) ∈ relative_positions sa.
Proof.
  refine (analyze_spatial_unchanged_pair [[1;0;1]] 0 1
            (make_obj 1 [(0,0)]) (make_obj 1 [(0,2)]) _ _ _ _ _ _ _);
    try reflexivity; try lia. vm_compute. discriminate.
Defined.

Lemma rotate_flip_laws_witness :
  well_formed [[1;2;3];[4;5;6]] /\
  shape (rotate_grid [[1;2;3];[4;5;6]] 1) = (3, 2).
Proof.
  assert (H : well_formed [[1;2;3];[4;5;6]]).
  { split; [discriminate|]. split; [simpl; lia|]. repeat constructor. }
  split; [exact H|]. exact (proj1 (rotate_flip_laws _ H)).
Defined.


(* ================================================================== *)
(** ** Grid windows and the pattern tests *)

Lemma fold_add_symmetry {A} (c : A -> bool) (t : A -> symmetry_type)
    (f : symmetry_result -> A -> symmetry_result) (l : list A) (r : symmetry_result) :
  (forall res x, f res x = if c x then add_symmetry res (t x) else res) ->
  fold_left f l r =
  mk_symmetry_result (symmetry_found r || existsb c l)
                     (symmetry_types r ++ map t (List.filter c l)).
Proof.
  intros Hf. revert r. induction l as [|x l IH]; intros r; simpl.
  - destruct r; simpl. by rewrite orb_false_r, app_nil_r.
  - rewrite IH, Hf. destruct (c x); simpl.
    + by rewrite orb_true_r, <- app_assoc.
    + done.
Qed.

(** Extra X12: on a well-formed grid [test_symmetry] succeeds and always
    reports [rotational_90] with order 4 (a rotation by 4 quarter turns is
    the identity), so [symmetry_found] is always true; [rotational_180] is
    reported iff a half turn leaves the grid unchanged; a horizontal
    reflection at [p] is reported iff [2 p] is the height and the top [p]
    rows are the remaining rows reversed; a vertical reflection at [p] iff
    [2 p] is the width and in every row the first [p] entries are the
    remaining entries reversed. *)
Theorem test_symmetry_spec (g : grid) :
  well_formed g ->
  exists r, test_symmetry g = Ok r /\
  symmetry_found r = true /\
  Rotational 90 4 ∈ symmetry_types r /\
  (Rotational 180 2 ∈ symmetry_types r <-> rot90 g 2 = g) /\
  (forall p, HorizontalReflection p ∈ symmetry_types r <->
     2 * p = height g /\ firstn (Z.to_nat p) g = rev (skipn (Z.to_nat p) g)) /\
  (forall p, VerticalReflection p ∈ symmetry_types r <->
     2 * p = width g /\
     map (firstn (Z.to_nat p)) g = map (@rev Z) (map (skipn (Z.to_nat p)) g)).
Proof.
  intros [Hne [Hw Hrows]].
  destruct g as [|row rows] eqn:Eg; [done|]. rewrite <- Eg in *.
  unfold test_symmetry. rewrite Eg; cbv zeta. rewrite <- Eg.
  set (ch := fun i : nat => Nat.eqb (length (firstn i g)) (length (skipn i g))
                            && grid_eqb (firstn i g) (flip0 (skipn i g))).
  set (cv := fun i : nat => Nat.eqb (length (hd [] (map (firstn i) g)))
                                    (length (hd [] (map (skipn i) g)))
                            && grid_eqb (map (firstn i) g) (flip1 (map (skipn i) g))).
  set (cr := fun k : Z => grid_eqb g (rot90 g k)).
  rewrite (fold_add_symmetry cr (fun k => Rotational (360 / k) k)); [|intros res k; done].
  rewrite (fold_add_symmetry cv (fun i => VerticalReflection (Z.of_nat i)));
    [|intros res i; unfold cv; by destruct (Nat.eqb _ _), (grid_eqb _ _)].
  rewrite (fold_add_symmetry ch (fun i => HorizontalReflection (Z.of_nat i)));
    [|intros res i; unfold ch; by destruct (Nat.eqb _ _), (grid_eqb _ _)].
  cbn [symmetry_found symmetry_types app].
  assert (Hr4 : cr 4 = true) by (unfold cr, grid_eqb; by apply bool_decide_eq_true).
  eexists. split; [reflexivity|]. cbn [symmetry_found symmetry_types].
  split; [cbn [existsb]; rewrite Hr4; by rewrite !orb_true_r|].
  split; [|split; [|split]].
  - rewrite !elem_of_app. right. cbn [List.filter]. rewrite Hr4.
    destruct (cr 2); simpl; set_solver.
  - assert (Hr2 : cr 2 = true <-> rot90 g 2 = g).
    { unfold cr, grid_eqb. rewrite bool_decide_eq_true. split; intros; by symmetry. }
    rewrite !elem_of_app. cbn [List.filter]. rewrite Hr4.
    destruct (cr 2) eqn:E2; cbn [map].
    + split; [intros; by apply Hr2|]. intros _. right. apply list_elem_of_here.
    + split; [|intros H; apply Hr2 in H; congruence].
      intros [[H|H]|H].
      * apply list_elem_of_fmap in H as [i [H _]]. done.
      * apply list_elem_of_fmap in H as [i [H _]]. done.
      * apply list_elem_of_singleton in H. done.
  - intros p. rewrite !elem_of_app.
    assert (Hr : HorizontalReflection p ∉ map (fun k => Rotational (360 / k) k) (List.filter cr [2; 4])).
    { intros H. apply list_elem_of_fmap in H as [k [H _]]. done. }
    assert (Hv : HorizontalReflection p ∉ map (fun i => VerticalReflection (Z.of_nat i)) (List.filter cv (seq 1 (length (hd [] g) - 1)))).
    { intros H. apply list_elem_of_fmap in H as [k [H _]]. done. }
    rewrite list_elem_of_fmap. split.
    + intros [[[i [Hi Hin]]|H]|H]; [|done|done].
      injection Hi as ->. apply elem_of_In_iff, filter_In in Hin as [Hin Hc].
      apply in_seq in Hin.
      unfold ch in Hc. apply andb_prop in Hc as [H1 H2].
      apply Nat.eqb_eq in H1. unfold grid_eqb in H2. apply bool_decide_eq_true in H2.
      rewrite length_firstn, length_skipn in H1. unfold height. rewrite Nat2Z.id.
      split; [lia|]. exact H2.
    + intros [Hp Heq]. left. left. exists (Z.to_nat p).
      unfold height in Hp. split; [f_equal; lia|].
      apply elem_of_In_iff, filter_In. split; cycle 1.
      * unfold ch. apply andb_true_intro. split.
        -- apply Nat.eqb_eq. rewrite length_firstn, length_skipn. lia.
        -- unfold grid_eqb. by apply bool_decide_eq_true.
      * apply in_seq. subst g. simpl in *. lia.
  - intros p. rewrite !elem_of_app.
    assert (Hr : VerticalReflection p ∉ map (fun k => Rotational (360 / k) k) (List.filter cr [2; 4])).
    { intros H. apply list_elem_of_fmap in H as [k [H _]]. done. }
    assert (Hh : VerticalReflection p ∉ map (fun i => HorizontalReflection (Z.of_nat i)) (List.filter ch (seq 1 (length g - 1)))).
    { intros H. apply list_elem_of_fmap in H as [k [H _]]. done. }
    rewrite (list_elem_of_fmap (fun i => VerticalReflection (Z.of_nat i))). split.
    + intros [[H|[i [Hi Hin]]]|H]; [done| |done].
      injection Hi as ->. apply elem_of_In_iff, filter_In in Hin as [Hin Hc].
      apply in_seq in Hin.
      unfold cv in Hc. apply andb_prop in Hc as [H1 H2].
      apply Nat.eqb_eq in H1. unfold grid_eqb in H2. apply bool_decide_eq_true in H2.
      rewrite Eg in H1. cbn [map hd] in H1.
      rewrite length_firstn, length_skipn in H1. unfold width. rewrite Nat2Z.id.
      split; [|exact H2]. rewrite Eg in Hin |- *. simpl in Hin |- *. lia.
    + intros [Hp Heq]. left. right. exists (Z.to_nat p).
      unfold width in Hp. split; [f_equal; lia|].
      apply elem_of_In_iff, filter_In. split; cycle 1.
      * unfold cv. apply andb_true_intro. split.
        -- apply Nat.eqb_eq. rewrite Eg. cbn [map hd]. rewrite length_firstn, length_skipn.
           subst g. simpl in Hp. lia.
        -- unfold grid_eqb. by apply bool_decide_eq_true.
      * apply in_seq. lia.
Qed.

Lemma py_slice_in {A} (l : list A) (a b : Z) :
  0 <= a <= b -> b <= Z.of_nat (length l) ->
  py_slice l a b = firstn (Z.to_nat (b - a)) (skipn (Z.to_nat a) l).
Proof.
  intros Hab Hb. unfold py_slice, py_norm.
  destruct (Z.ltb_spec a 0); [lia|]. destruct (Z.ltb_spec b 0); [lia|].
  by rewrite !Z.min_l by lia.
Qed.

Lemma well_formed_dims (g : grid) :
  well_formed g -> dims g (length g) (length (hd [] g)).
Proof.
  intros [Hne [Hw Hf]]. split; [done|]. split; [done|].
  split; [destruct g; simpl; [done|lia]|done].
Qed.

Lemma slice2_spec (g : grid) (H W : nat) (i j h w : Z) :
  dims g H W -> 0 <= i -> 0 <= j -> 0 < h -> 0 < w ->
  i + h <= Z.of_nat H -> j + w <= Z.of_nat W ->
  let s := slice2 g i (i + h) j (j + w) in
  dims s (Z.to_nat h) (Z.to_nat w) /\
  forall a b, 0 <= a < h -> 0 <= b < w -> get s a b = get g (i + a) (j + b).
Proof.
  intros Hd Hi Hj Hh Hw Hih Hjw s.
  pose proof Hd as [Hl [Hf _]].
  assert (Hrows : py_slice g i (i + h) = firstn (Z.to_nat h) (skipn (Z.to_nat i) g)).
  { rewrite py_slice_in by lia. f_equal. lia. }
  assert (Hrowlen : length (firstn (Z.to_nat h) (skipn (Z.to_nat i) g)) = Z.to_nat h).
  { apply firstn_length_le. rewrite length_skipn. lia. }
  assert (Hcut : forall row : list Z, length row = W ->
            py_slice row j (j + w) = firstn (Z.to_nat w) (skipn (Z.to_nat j) row)).
  { intros row Hr. rewrite py_slice_in by lia. f_equal. lia. }
  split; [split; [|split; [|split]]|].
  - unfold s, slice2. by rewrite length_map, Hrows.
  - unfold s, slice2. rewrite Hrows. apply List.Forall_map.
    apply Forall_take, Forall_drop. eapply Forall_impl; [exact Hf|].
    intros row Hr. cbv beta in Hr |- *. rewrite Hcut by done.
    apply firstn_length_le. rewrite length_skipn. lia.
  - lia.
  - lia.
  - intros a b Ha Hb. unfold s, get, slice2. rewrite Hrows.
    rewrite (nth_map_in _ _ _ []) by lia.
    rewrite nth_firstn. destruct (Nat.ltb_spec (Z.to_nat a) (Z.to_nat h)); [|lia].
    rewrite nth_skipn. rewrite Hcut by (apply (dims_row g H W); [done|lia]).
    rewrite nth_firstn. destruct (Nat.ltb_spec (Z.to_nat b) (Z.to_nat w)); [|lia].
    rewrite nth_skipn. by rewrite !Z2Nat.inj_add by lia.
Qed.

Lemma get_entry (g : grid) (a b : nat) : get g (Z.of_nat a) (Z.of_nat b) = entry g a b.
Proof. unfold get, entry. by rewrite !Nat2Z.id. Qed.

Lemma flat_map_zrange_lookup {A} (F : Z -> Z -> A) (n m i j : Z) :
  0 <= i < n -> 0 <= j < m ->
  flat_map (fun i => map (F i) (zrange m)) (zrange n) !! Z.to_nat (i * m + j) = Some (F i j).
Proof.
  intros Hi Hj. unfold zrange.
  assert (Hgen : forall (N s k : nat), (k < N)%nat ->
    flat_map (fun i => map (F i) (map Z.of_nat (seq 0 (Z.to_nat m)))) (map Z.of_nat (seq s N))
      !! (k * Z.to_nat m + Z.to_nat j)%nat = Some (F (Z.of_nat (s + k)) j)).
  { induction N as [|N IH]; intros s k Hk; [lia|].
    cbn [seq map flat_map].
    assert (Hlen : length (map (F (Z.of_nat s)) (map Z.of_nat (seq 0 (Z.to_nat m)))) = Z.to_nat m)
      by (by rewrite !length_map, length_seq).
    destruct k as [|k].
    - rewrite lookup_app_l by lia. rewrite Nat.add_0_r.
      rewrite !list_lookup_fmap, lookup_seq_lt by lia. simpl. do 2 f_equal. lia.
    - rewrite lookup_app_r by (simpl; lia). rewrite Hlen.
      replace ((S k * Z.to_nat m + Z.to_nat j) - Z.to_nat m)%nat
        with (k * Z.to_nat m + Z.to_nat j)%nat by lia.
      rewrite IH by lia. do 2 f_equal. lia. }
  replace (Z.to_nat (i * m + j)) with (Z.to_nat i * Z.to_nat m + Z.to_nat j)%nat by lia.
  rewrite Hgen by lia. do 2 f_equal. lia.
Qed.

Lemma NoDup_flat_map_keyed {A B} (k : B -> A) (f : A -> list B) (l : list A) :
  NoDup l -> (forall a, NoDup (f a)) -> (forall a x, x ∈ f a -> k x = a) ->
  NoDup (flat_map f l).
Proof.
  intros Hl Hf Hk. induction l as [|a l IH]; simpl; [constructor|].
  apply NoDup_cons in Hl as [Ha Hl].
  apply NoDup_app. split; [done|]. split; [|by apply IH].
  intros x Hx Hx'. apply elem_of_In_iff, in_flat_map in Hx' as [a' [Ha' Hx']].
  apply elem_of_In_iff in Hx'. apply elem_of_In_iff in Ha'.
  apply Hk in Hx, Hx'. subst. done.
Qed.

Lemma NoDup_zrange (n : Z) : NoDup (zrange n).
Proof.
  unfold zrange. apply NoDup_fmap_2; [|apply NoDup_seq].
  intros x y E. lia.
Qed.

(** Extra X13: for a well-formed grid and a positive size [(h, w)],
    [extract_subgrids] returns the empty list when the size exceeds the
    grid, and otherwise [(H - h + 1) * (W - w + 1)] subgrids in row-major
    order of their top-left corner, the one at [(i, j)] being the [h] by
    [w] window of the grid at [(i, j)]. *)
Theorem extract_subgrids_spec (g : grid) (h w : Z) :
  well_formed g -> 1 <= h -> 1 <= w ->
  exists subs, extract_subgrids g (h, w) = Ok subs /\
  (h > height g \/ w > width g -> subs = []) /\
  (h <= height g -> w <= width g ->
     length subs = Z.to_nat ((height g - h + 1) * (width g - w + 1)) /\
     forall i j, 0 <= i <= height g - h -> 0 <= j <= width g - w ->
     exists s, subs !! Z.to_nat (i * (width g - w + 1) + j) = Some s /\
       shape s = (h, w) /\ Forall (fun row => Z.of_nat (length row) = w) s /\
       forall a b, 0 <= a < h -> 0 <= b < w -> get s a b = get g (i + a) (j + b)).
Proof.
  intros Hwf Hh Hw. pose proof (well_formed_dims g Hwf) as Hd.
  destruct g as [|row rows] eqn:Eg; [by destruct Hwf|]. rewrite <- Eg in *.
  assert (Ef : extract_subgrids g (h, w) =
    if h >? height g then Ok []
    else if w >? width g then Ok []
    else Ok (flat_map (fun i => map (fun j => slice2 g i (i + h) j (j + w))
                                    (zrange (width g - w + 1)))
                      (zrange (height g - h + 1)))) by (by rewrite Eg).
  rewrite Ef. clear Ef.
  destruct (Z.gtb_spec h (height g)) as [Hgt|Hle].
  { eexists; split; [reflexivity|]. split; [done|]. intros; lia. }
  destruct (Z.gtb_spec w (width g)) as [Hgt|Hle'].
  { exists []. split; [reflexivity|]. split; [done|]. intros; lia. }
  eexists; split; [reflexivity|]. split; [intros [?|?]; lia|]. intros _ _. split.
  - erewrite flat_map_constant_length.
    2: { intros x _. by rewrite length_map, zrange_length. }
    rewrite zrange_length, Z2Nat.inj_mul by lia. done.
  - intros i j Hi Hj.
    pose proof (flat_map_zrange_lookup (fun i j => slice2 g i (i + h) j (j + w))
                  (height g - h + 1) (width g - w + 1) i j ltac:(lia) ltac:(lia)) as HL.
    cbv beta in HL. rewrite HL.
    eexists; split; [reflexivity|].
    unfold height, width in *.
    destruct (slice2_spec g (length g) (length (hd [] g)) i j h w Hd)
      as [Hsd Hget]; try lia.
    split; [|split].
    + unfold shape, height, width. rewrite (dims_width _ _ _ Hsd).
      destruct Hsd as [Hl _]. rewrite Hl. f_equal; lia.
    + destruct Hsd as [_ [Hf _]]. eapply Forall_impl; [exact Hf|]. intros r Hr. cbv beta in *. lia.
    + exact Hget.
Qed.

(** Extra X14: for well-formed grids, [find_subgrid] returns a list
    without duplicates holding exactly the top-left positions [(i, j)] at
    which the subgrid fits inside the grid and agrees with it entry by
    entry. *)
Theorem find_subgrid_spec (g s : grid) :
  well_formed g -> well_formed s ->
  exists locs, find_subgrid g s = Ok locs /\ NoDup locs /\
  forall i j, (i, j) ∈ locs <->
    0 <= i <= height g - height s /\ 0 <= j <= width g - width s /\
    forall a b, 0 <= a < height s -> 0 <= b < width s ->
      get g (i + a) (j + b) = get s a b.
Proof.
  intros Hg Hs. pose proof (well_formed_dims g Hg) as Hd.
  pose proof (well_formed_dims s Hs) as Hsd.
  destruct s as [|srow srows] eqn:Es; [by destruct Hs|]. rewrite <- Es in *.
  assert (Ef : find_subgrid g s =
    Ok (flat_map (fun i => flat_map (fun j =>
          if grid_eqb (slice2 g i (i + height s) j (j + width s)) s then [(i, j)] else [])
          (zrange (width g - width s + 1)))
        (zrange (height g - height s + 1)))) by (by rewrite Es).
  eexists; split; [exact Ef|].
  assert (Hs0 : 0 < height s /\ 0 < width s).
  { destruct Hs as [_ [Hw _]]. unfold height, width. rewrite Es in *. simpl in *. lia. }
  split.
  - apply (NoDup_flat_map_keyed fst); [apply NoDup_zrange| |].
    + intros a. apply (NoDup_flat_map_keyed snd); [apply NoDup_zrange| |].
      * intros b. destruct (grid_eqb _ _); [apply NoDup_singleton|constructor].
      * intros b x Hx. destruct (grid_eqb _ _).
        -- apply list_elem_of_singleton in Hx. by subst.
        -- by apply not_elem_of_nil in Hx.
    + intros a x Hx. apply elem_of_In_iff, in_flat_map in Hx as [b [_ Hx]].
      destruct (grid_eqb _ _); [destruct Hx as [<-|[]]; done|destruct Hx].
  - intros i j. rewrite elem_of_In_iff, in_flat_map. setoid_rewrite in_flat_map.
    split.
    + intros [i' [Hi' [j' [Hj' Hin]]]].
      destruct (grid_eqb (slice2 g i' (i' + height s) j' (j' + width s)) s) eqn:Eq;
        [|destruct Hin].
      destruct Hin as [E|[]]. injection E as -> ->.
      apply zrange_spec in Hi', Hj'.
      unfold grid_eqb in Eq. apply bool_decide_eq_true in Eq.
      split; [lia|]. split; [lia|]. intros a b Ha Hb.
      destruct (slice2_spec g (length g) (length (hd [] g)) i j (height s) (width s) Hd)
        as [_ Hget]; try (unfold height, width in *; lia).
      rewrite <- Hget by lia. by rewrite Eq.
    + intros [Hi [Hj Hall]].
      exists i; split; [apply zrange_spec; lia|].
      exists j; split; [apply zrange_spec; lia|].
      destruct (slice2_spec g (length g) (length (hd [] g)) i j (height s) (width s) Hd)
        as [Hsl Hget]; try (unfold height, width in *; lia).
      replace (grid_eqb (slice2 g i (i + height s) j (j + width s)) s) with true;
        [by left|].
      symmetry. unfold grid_eqb. apply bool_decide_eq_true.
      apply (grid_ext _ _ (Z.to_nat (height s)) (Z.to_nat (width s))); [exact Hsl| |].
      * unfold height, width. by rewrite !Nat2Z.id.
      * intros a b Ha Hb. rewrite <- !get_entry. rewrite Hget by lia.
        apply Hall; lia.
Qed.

Lemma extend_if (res : repetition_result) (c : bool) (p : repetition_pattern) :
  (if c then add_pattern res p else res) = extend res (if c then [p] else []).
Proof.
  destruct res as [f ps]. unfold extend, add_pattern. destruct c; simpl.
  - by rewrite orb_true_r.
  - by rewrite orb_false_r, app_nil_r.
Qed.

Lemma extend_extend (res : repetition_result) (a b : list repetition_pattern) :
  extend (extend res a) b = extend res (a ++ b).
Proof.
  destruct res as [f ps]. unfold extend. simpl. rewrite app_assoc. f_equal.
  destruct a, b; simpl; rewrite ?orb_false_r, ?orb_true_r; done.
Qed.

Lemma extend_nil (res : repetition_result) : extend res [] = mk_repetition_result (repetition_found res) (rp_patterns res).
Proof. unfold extend. simpl. by rewrite orb_false_r, app_nil_r. Qed.

Lemma fold_extend {A} (E : A -> list repetition_pattern)
    (f : repetition_result -> A -> repetition_result) (l : list A) (res : repetition_result) :
  (forall r x, f r x = extend r (E x)) ->
  fold_left f l res = extend res (flat_map E l).
Proof.
  intros Hf. revert res. induction l as [|x l IH]; intros res; simpl.
  - rewrite extend_nil. by destruct res.
  - by rewrite IH, Hf, extend_extend.
Qed.

Lemma py_range_1 (a b z : Z) : In z (py_range a b 1) <-> a <= z < b.
Proof.
  unfold py_range. rewrite in_map_iff. split.
  - intros [k [<- Hk]]. apply zrange_spec in Hk. rewrite Z.div_1_r in Hk. lia.
  - intros Hz. exists (z - a). split; [lia|]. apply zrange_spec. rewrite Z.div_1_r. lia.
Qed.

Lemma py_range_mult (n w : Z) :
  0 < w -> 0 <= n -> n mod w = 0 ->
  py_range 0 n w = map (fun k => k * w) (zrange (n / w)).
Proof.
  intros Hw Hn Hm. unfold py_range.
  rewrite (map_ext (fun k => 0 + k * w) (fun k => k * w)) by (intros; lia).
  do 2 f_equal. rewrite Z.sub_0_r.
    rewrite (Z.div_mod n w) at 1 by lia. rewrite Hm, Z.add_0_r.
    replace (w * (n / w) + w - 1) with ((w - 1) + (n / w) * w) by ring.
    rewrite Z.div_add by lia. rewrite Z.div_small by lia. lia.
Qed.

Lemma horizontal_blocks_spec (g : grid) (H W : nat) (h w : Z) :
  dims g H W -> 1 <= h <= Z.of_nat H -> 1 <= w -> Z.of_nat W mod w = 0 ->
  forallb (fun b => grid_eqb (slice2 g 0 h 0 w) b)
          (map (fun i => slice2 g 0 h i (i + w)) (py_range 0 (Z.of_nat W) w)) = true <->
  forall a b, 0 <= a < h -> 0 <= b < Z.of_nat W -> get g a b = get g a (b mod w).
Proof.
  intros Hd Hh Hw Hm. pose proof Hd as [_ [_ [_ HW]]].
  pose proof (Z.div_mod (Z.of_nat W) w ltac:(lia)) as HWd. rewrite Hm, Z.add_0_r in HWd.
  assert (Hq : 1 <= Z.of_nat W / w) by nia.
  rewrite py_range_mult by lia. rewrite map_map, forallb_forall. split.
  - intros Hall a b Ha Hb.
    assert (Hk : 0 <= b / w < Z.of_nat W / w).
    { split; [apply Z.div_pos; lia|]. apply Z.div_lt_upper_bound; lia. }
    specialize (Hall (slice2 g 0 h (b / w * w) (b / w * w + w))
                  ltac:(apply in_map_iff; exists (b / w); split; [done|]; by apply zrange_spec)).
    unfold grid_eqb in Hall. apply bool_decide_eq_true in Hall.
    destruct (slice2_spec g H W 0 0 h w Hd) as [_ H0]; try nia.
    destruct (slice2_spec g H W 0 (b / w * w) h w Hd) as [_ Hk']; try nia.
    pose proof (Z.mod_pos_bound b w ltac:(lia)) as Hb'.
    specialize (H0 a (b mod w) Ha Hb'). specialize (Hk' a (b mod w) Ha Hb').
    rewrite ?Z.add_0_l in H0. rewrite ?Z.add_0_l in Hk'. rewrite Hall in H0. rewrite H0 in Hk'.
    rewrite Hk'. f_equal. pose proof (Z.div_mod b w ltac:(lia)). lia.
  - intros Hper x Hx. apply in_map_iff in Hx as [k [<- Hk]]. apply zrange_spec in Hk.
    unfold grid_eqb. apply bool_decide_eq_true.
    destruct (slice2_spec g H W 0 0 h w Hd) as [D0 H0]; try nia.
    destruct (slice2_spec g H W 0 (k * w) h w Hd) as [Dk Hk']; try nia.
    rewrite ?Z.add_0_l in D0. rewrite ?Z.add_0_l in H0.
    rewrite ?Z.add_0_l in Dk. rewrite ?Z.add_0_l in Hk'.
    apply (grid_ext _ _ (Z.to_nat h) (Z.to_nat w)); [exact D0|exact Dk|].
    intros a b Ha Hb. rewrite <- !get_entry. rewrite H0, Hk' by lia.
    rewrite !Z.add_0_l. rewrite (Hper (Z.of_nat a) (k * w + Z.of_nat b)) by nia.
    f_equal. rewrite Z.add_comm, Z_mod_plus_full. symmetry. apply Z.mod_small. lia.
Qed.

Lemma vertical_blocks_spec (g : grid) (H W : nat) (h w : Z) :
  dims g H W -> 1 <= h -> 1 <= w <= Z.of_nat W -> Z.of_nat H mod h = 0 ->
  forallb (fun b => grid_eqb (slice2 g 0 h 0 w) b)
          (map (fun i => slice2 g i (i + h) 0 w) (py_range 0 (Z.of_nat H) h)) = true <->
  forall a b, 0 <= a < Z.of_nat H -> 0 <= b < w -> get g a b = get g (a mod h) b.
Proof.
  intros Hd Hh Hw Hm. pose proof Hd as [_ [_ [HH _]]].
  pose proof (Z.div_mod (Z.of_nat H) h ltac:(lia)) as HHd. rewrite Hm, Z.add_0_r in HHd.
  assert (Hq : 1 <= Z.of_nat H / h) by nia.
  rewrite py_range_mult by lia. rewrite map_map, forallb_forall. split.
  - intros Hall a b Ha Hb.
    assert (Hk : 0 <= a / h < Z.of_nat H / h).
    { split; [apply Z.div_pos; lia|]. apply Z.div_lt_upper_bound; lia. }
    specialize (Hall (slice2 g (a / h * h) (a / h * h + h) 0 w)
                  ltac:(apply in_map_iff; exists (a / h); split; [done|]; by apply zrange_spec)).
    unfold grid_eqb in Hall. apply bool_decide_eq_true in Hall.
    destruct (slice2_spec g H W 0 0 h w Hd) as [_ H0]; try nia.
    destruct (slice2_spec g H W (a / h * h) 0 h w Hd) as [_ Hk']; try nia.
    pose proof (Z.mod_pos_bound a h ltac:(lia)) as Ha'.
    specialize (H0 (a mod h) b Ha' Hb). specialize (Hk' (a mod h) b Ha' Hb).
    rewrite ?Z.add_0_l in H0. rewrite ?Z.add_0_l in Hk'. rewrite Hall in H0. rewrite H0 in Hk'.
    rewrite Hk'. f_equal. pose proof (Z.div_mod a h ltac:(lia)). lia.
  - intros Hper x Hx. apply in_map_iff in Hx as [k [<- Hk]]. apply zrange_spec in Hk.
    unfold grid_eqb. apply bool_decide_eq_true.
    destruct (slice2_spec g H W 0 0 h w Hd) as [D0 H0]; try nia.
    destruct (slice2_spec g H W (k * h) 0 h w Hd) as [Dk Hk']; try nia.
    rewrite ?Z.add_0_l in D0. rewrite ?Z.add_0_l in H0.
    rewrite ?Z.add_0_l in Dk. rewrite ?Z.add_0_l in Hk'.
    apply (grid_ext _ _ (Z.to_nat h) (Z.to_nat w)); [exact D0|exact Dk|].
    intros a b Ha Hb. rewrite <- !get_entry. rewrite H0, Hk' by lia.
    rewrite !Z.add_0_l. rewrite (Hper (k * h + Z.of_nat a) (Z.of_nat b)) by nia.
    f_equal. rewrite Z.add_comm, Z_mod_plus_full. symmetry. apply Z.mod_small. lia.
Qed.

Lemma add_pattern_extend (res : repetition_result) (p : repetition_pattern) :
  add_pattern res p = extend res [p].
Proof. by rewrite <- (extend_if res true p). Qed.

Lemma extend_nil' (res : repetition_result) : extend res [] = res.
Proof. rewrite extend_nil. by destruct res. Qed.

Lemma repetition_step_eq (res : repetition_result) (c1 c2 c3 c4 : bool)
    (P V : repetition_pattern) :
  (if c3 then if c4 then add_pattern (if c1 then if c2 then add_pattern res P else res else res) V
              else (if c1 then if c2 then add_pattern res P else res else res)
   else (if c1 then if c2 then add_pattern res P else res else res))
  = extend res ((if c1 then if c2 then [P] else [] else []) ++
                (if c3 then if c4 then [V] else [] else [])).
Proof.
  destruct c1, c2, c3, c4; simpl;
    rewrite ?add_pattern_extend, ?extend_extend, ?extend_nil'; done.
Qed.

(** Extra X15: on a well-formed grid, [repetition_found] is true iff a
    pattern is reported; a horizontal repeat with block size [(h, w)] is
    reported iff [1 <= h <= H / 2], [1 <= w <= W / 2], [w] divides [W],
    and the top [h] rows are [w]-periodic (rows below [h] are never
    compared), with the top-left [h] by [w] block and [W / w]
    repetitions; a vertical repeat iff [h] divides [H] and the left [w]
    columns are [h]-periodic, with [H / h] repetitions. *)
Theorem test_repetition_spec (g : grid) :
  well_formed g ->
  let r := test_repetition g in
  (repetition_found r = true <-> rp_patterns r <> []) /\
  (forall blk h w n,
     mk_repetition_pattern HorizontalRepeat blk (h, w) n ∈ rp_patterns r <->
     1 <= h <= height g / 2 /\ 1 <= w <= width g / 2 /\ width g mod w = 0 /\
     blk = slice2 g 0 h 0 w /\ n = width g / w /\
     forall a b, 0 <= a < h -> 0 <= b < width g -> get g a b = get g a (b mod w)) /\
  (forall blk h w n,
     mk_repetition_pattern VerticalRepeat blk (h, w) n ∈ rp_patterns r <->
     1 <= h <= height g / 2 /\ 1 <= w <= width g / 2 /\ height g mod h = 0 /\
     blk = slice2 g 0 h 0 w /\ n = height g / h /\
     forall a b, 0 <= a < height g -> 0 <= b < w -> get g a b = get g (a mod h) b).
Proof.
  intros Hwf r. pose proof (well_formed_dims g Hwf) as Hd.
  set (H := length g) in *. set (W := length (hd [] g)) in *.
  pose proof Hd as [_ [_ [HH HW]]].
  assert (HH2 : Z.of_nat H / 2 <= Z.of_nat H) by (apply Z.div_le_upper_bound; lia).
  assert (HW2 : Z.of_nat W / 2 <= Z.of_nat W) by (apply Z.div_le_upper_bound; lia).
  set (E := fun h w =>
    (if width g mod w =? 0 then
       if forallb (fun b => grid_eqb (slice2 g 0 h 0 w) b)
            (map (fun i => slice2 g 0 h i (i + w)) (py_range 0 (width g) w))
       then [mk_repetition_pattern HorizontalRepeat (slice2 g 0 h 0 w) (h, w)
               (Z.of_nat (length (map (fun i => slice2 g 0 h i (i + w)) (py_range 0 (width g) w))))]
       else [] else []) ++
    (if height g mod h =? 0 then
       if forallb (fun b => grid_eqb (slice2 g 0 h 0 w) b)
            (map (fun i => slice2 g i (i + h) 0 w) (py_range 0 (height g) h))
       then [mk_repetition_pattern VerticalRepeat (slice2 g 0 h 0 w) (h, w)
               (Z.of_nat (length (map (fun i => slice2 g i (i + h) 0 w) (py_range 0 (height g) h))))]
       else [] else [])).
  assert (Hr : r = extend (mk_repetition_result false [])
             (flat_map (fun h => flat_map (E h) (py_range 1 (width g / 2 + 1) 1))
                       (py_range 1 (height g / 2 + 1) 1))).
  { unfold r, test_repetition. apply fold_extend. intros res h.
    apply fold_extend. intros res' w. cbv zeta. apply repetition_step_eq. }
  rewrite Hr. unfold extend. cbn [repetition_found rp_patterns orb app].
  assert (Hlen : forall n s, 0 < s -> 0 <= n -> n mod s = 0 ->
            Z.of_nat (length (py_range 0 n s)) = n / s).
  { intros n s Hs Hn Hm. rewrite py_range_mult by done.
    rewrite length_map, zrange_length. apply Z2Nat.id, Z.div_pos; lia. }
  unfold height, width in *. fold H W in E |- *.
  split; [|split].
  - rewrite negb_true_iff, bool_decide_eq_false. done.
  - intros blk h w n. rewrite elem_of_In_iff, in_flat_map. setoid_rewrite in_flat_map.
    split.
    + intros [h' [Hh' [w' [Hw' Hin]]]]. apply py_range_1 in Hh', Hw'.
      unfold E in Hin. apply in_app_iff in Hin as [Hin|Hin].
      * destruct (Z.eqb_spec (Z.of_nat W mod w') 0) as [Hm|]; [|destruct Hin].
        destruct (forallb _ _) eqn:Hall; [|destruct Hin].
        destruct Hin as [Hin|[]]. injection Hin as E1 E2 E3 E4. subst.
        rewrite length_map, Hlen by lia.
        split; [lia|]. split; [lia|]. split; [done|]. split; [done|]. split; [done|].
        apply (horizontal_blocks_spec g H W _ _ Hd); [| |done|done]; lia.
      * destruct (_ =? 0); [|destruct Hin]. destruct (forallb _ _); [|destruct Hin].
        destruct Hin as [Hin|[]]. discriminate.
    + intros [Hh [Hw [Hm [-> [-> Hper]]]]].
      exists h. split; [apply py_range_1; lia|].
      exists w. split; [apply py_range_1; lia|].
      unfold E. apply in_app_iff. left.
      rewrite (proj2 (Z.eqb_eq _ _) Hm).
      rewrite (proj2 (horizontal_blocks_spec g H W h w Hd ltac:(lia) ltac:(lia) Hm) Hper).
      rewrite length_map, Hlen by lia. by left.
  - intros blk h w n. rewrite elem_of_In_iff, in_flat_map. setoid_rewrite in_flat_map.
    split.
    + intros [h' [Hh' [w' [Hw' Hin]]]]. apply py_range_1 in Hh', Hw'.
      unfold E in Hin. apply in_app_iff in Hin as [Hin|Hin].
      * destruct (_ =? 0); [|destruct Hin]. destruct (forallb _ _); [|destruct Hin].
        destruct Hin as [Hin|[]]. discriminate.
      * destruct (Z.eqb_spec (Z.of_nat H mod h') 0) as [Hm|]; [|destruct Hin].
        destruct (forallb _ _) eqn:Hall; [|destruct Hin].
        destruct Hin as [Hin|[]]. injection Hin as E1 E2 E3 E4. subst.
        rewrite length_map, Hlen by lia.
        split; [lia|]. split; [lia|]. split; [done|]. split; [done|]. split; [done|].
        apply (vertical_blocks_spec g H W _ _ Hd); [| |done|done]; lia.
    + intros [Hh [Hw [Hm [-> [-> Hper]]]]].
      exists h. split; [apply py_range_1; lia|].
      exists w. split; [apply py_range_1; lia|].
      unfold E. apply in_app_iff. right.
      rewrite (proj2 (Z.eqb_eq _ _) Hm).
      rewrite (proj2 (vertical_blocks_spec g H W h w Hd ltac:(lia) ltac:(lia) Hm) Hper).
      rewrite length_map, Hlen by lia. by left.
Qed.

Lemma argwhere_eq_In (g : grid) (v : Z) (rc : cell) :
  In rc (argwhere_eq g v) <-> in_bounds g rc /\ get g (fst rc) (snd rc) = v.
Proof.
  unfold argwhere_eq. rewrite filter_In, row_major_cells_spec, Z.eqb_eq. done.
Qed.

Lemma cell_diffs_cons2 (x y : cell) (rest : list cell) :
  cell_diffs (x :: y :: rest) = (fst y - fst x, snd y - snd x) :: cell_diffs (y :: rest).
Proof. unfold cell_diffs. destruct rest; reflexivity. Qed.

Lemma cell_diffs_lookup (cs : list cell) (k : nat) (d : cell) :
  cell_diffs cs !! k = Some d <->
  exists a b, cs !! k = Some a /\ cs !! S k = Some b /\ d = (fst b - fst a, snd b - snd a).
Proof.
  revert k. induction cs as [|x cs IH]; intros k.
  - split; [done|]. intros (a & b & Ha & _). done.
  - destruct cs as [|y rest].
    + split; [destruct k; done|]. intros (a & b & _ & Hb & _). destruct k; done.
    + rewrite cell_diffs_cons2. destruct k as [|k].
      * simpl. split.
        -- intros [= <-]. by exists x, y.
        -- intros (a & b & [= <-] & [= <-] & ->). done.
      * simpl. rewrite IH. done.
Qed.

Lemma cell_diffs_length (cs : list cell) : length (cell_diffs cs) = (length cs - 1)%nat.
Proof.
  induction cs as [|x [|y rest] IH]; [done|done|].
  rewrite cell_diffs_cons2. simpl in *. rewrite IH. lia.
Qed.

Lemma one_distinct_cell_spec (l : list cell) :
  one_distinct_cell l = true <->
  exists x, l !! 0%nat = Some x /\ forall k e, l !! k = Some e -> e = x.
Proof.
  destruct l as [|x xs]; simpl.
  - split; [done|]. by intros (? & ? & _).
  - rewrite forallb_forall. split.
    + intros H. exists x. split; [done|]. intros [|k] e Hk; simpl in Hk.
      * by injection Hk.
      * apply list_elem_of_lookup_2, elem_of_In_iff, H in Hk. by apply bool_decide_eq_true in Hk.
    + intros (y & [= <-] & H) e He. apply bool_decide_eq_true.
      apply elem_of_In_iff, list_elem_of_lookup_1 in He as [k Hk]. by apply (H (S k)).
Qed.

Lemma value_patterns_value (g : grid) (v : Z) (p : spatial_pattern) :
  In p (value_patterns g v) ->
  match p with
  | LinearArrangement w _ _ | DiagonalPattern w _ _ | RectangularArrangement w _ _ => w = v
  end.
Proof.
  unfold value_patterns. destruct (Nat.ltb _ _); [|done].
  rewrite !in_app_iff. intros [H|[H|H]].
  - destruct (one_distinct_cell _); [|done]. destruct H as [<-|[]]; done.
  - destruct (_ && _); [|done]. destruct H as [<-|[]]; done.
  - destruct (Nat.leb _ _); [|done]. destruct (forallb _ _); [|done].
    destruct H as [<-|[]]; done.
Qed.

Lemma value_patterns_nonempty (g : grid) (v : Z) (p : spatial_pattern) :
  In p (value_patterns g v) -> (2 <= length (argwhere_eq g v))%nat.
Proof.
  unfold value_patterns. destruct (Nat.ltb_spec 1 (length (argwhere_eq g v))); [lia|done].
Qed.

(** The values visited are the nonzero values occurring in the grid. *)
Lemma spatial_unique_values (g : grid) (v : Z) :
  In v (np_unique (List.filter (fun x => negb (x =? 0)) (concat g))) <->
  v <> 0 /\ (argwhere_eq g v <> [] \/ In v (concat g)).
Proof.
  rewrite np_unique_In, filter_In, negb_true_iff, Z.eqb_neq. split.
  - intros [H1 H2]. split; [done|by right].
  - intros [Hv [Hc|Hc]]; (split; [|done]); [|done].
    destruct (argwhere_eq g v) as [|rc cs] eqn:E; [done|].
    assert (Hrc : In rc (argwhere_eq g v)) by (rewrite E; left; done).
    apply argwhere_eq_In in Hrc as [_ Hget]. rewrite <- Hget.
    apply get_in_concat. by rewrite Hget.
Qed.

Lemma test_spatial_relations_In (g : grid) (p : spatial_pattern) (v : Z) :
  match p with
  | LinearArrangement w _ _ | DiagonalPattern w _ _ | RectangularArrangement w _ _ => w = v
  end ->
  p ∈ spatial_patterns (test_spatial_relations g) <->
  v <> 0 /\ In p (value_patterns g v).
Proof.
  intros Hw. simpl. rewrite elem_of_In_iff, in_flat_map. split.
  - intros [u [Hu Hp]]. pose proof (value_patterns_value g u p Hp) as Hu'.
    assert (u = v) as -> by (destruct p; congruence).
    split; [|done]. by apply spatial_unique_values in Hu as [? _].
  - intros [Hv Hp]. exists v. split; [|done]. apply spatial_unique_values.
    split; [done|left]. apply value_patterns_nonempty in Hp.
    destruct (argwhere_eq g v); simpl in Hp; [lia|done].
Qed.

Lemma concat_dims (s : grid) (H W : nat) (x : Z) :
  dims s H W ->
  In x (concat s) <-> exists a b, (a < H)%nat /\ (b < W)%nat /\ x = entry s a b.
Proof.
  intros Hd. pose proof Hd as [Hl [Hf _]]. rewrite in_concat. split.
  - intros [row [Hrow Hx]]. apply In_nth with (d := []) in Hrow as [a [Ha Hra]].
    apply In_nth with (d := 0) in Hx as [b [Hb Hxb]].
    exists a, b. rewrite <- Hl. split; [done|]. split.
    + rewrite <- (dims_row s H W a Hd) by lia. by rewrite Hra.
    + unfold entry. by rewrite Hra.
  - intros (a & b & Ha & Hb & ->). exists (nth a s []). split; [apply nth_In; lia|].
    apply nth_In. rewrite (dims_row s H W a Hd) by lia. done.
Qed.

Lemma cell_diffs_In (cs : list cell) (d : cell) :
  In d (cell_diffs cs) <->
  exists k a b, cs !! k = Some a /\ cs !! S k = Some b /\ d = (fst b - fst a, snd b - snd a).
Proof.
  rewrite <- elem_of_In_iff, list_elem_of_lookup. split.
  - intros [k Hk]. exists k. by apply cell_diffs_lookup.
  - intros [k Hk]. exists k. by apply cell_diffs_lookup.
Qed.

Lemma one_distinct_cell_In (l : list cell) :
  one_distinct_cell l = true <-> exists x, l <> [] /\ forall e, In e l -> e = x.
Proof.
  destruct l as [|y ys]; simpl.
  - split; [done|]. by intros (? & ? & _).
  - rewrite forallb_forall. split.
    + intros H. exists y. split; [done|]. intros e [<-|He]; [done|].
      apply H in He. by apply bool_decide_eq_true in He.
    + intros (x & _ & H) e He. apply bool_decide_eq_true.
      rewrite (H e (or_intror He)). symmetry. apply H. by left.
Qed.

Lemma cell_diffs_nonempty (cs : list cell) :
  (2 <= length cs)%nat -> cell_diffs cs <> [].
Proof.
  intros H E. pose proof (cell_diffs_length cs) as Hl. rewrite E in Hl. simpl in Hl. lia.
Qed.

Lemma linear_condition (ds : list cell) (d : cell) :
  ds <> [] ->
  (one_distinct_cell ds = true /\ hd (0, 0) ds = d) <-> forall e, In e ds -> e = d.
Proof.
  intros Hne. assert (Hhd : In (hd (0, 0) ds) ds) by (destruct ds; [done|by left]).
  rewrite one_distinct_cell_In. split.
  - intros [(x & _ & H) <-] e He. rewrite (H e He). symmetry. by apply H.
  - intros H. split; [by exists d|]. by apply H.
Qed.

Lemma diagonal_condition (ds : list cell) :
  ds <> [] ->
  (one_distinct_cell (map (fun d => (Z.abs (fst d), Z.abs (snd d))) ds)
   && forallb (fun d => fst d =? snd d) (map (fun d => (Z.abs (fst d), Z.abs (snd d))) ds)) = true
  <-> exists m, forall e, In e ds -> Z.abs (fst e) = m /\ Z.abs (snd e) = m.
Proof.
  intros Hne. rewrite andb_true_iff, one_distinct_cell_In, forallb_forall. split.
  - intros [(x & _ & Hx) Heq]. destruct ds as [|e0 ds]; [done|].
    exists (Z.abs (fst e0)). intros e He.
    assert (Hm : forall e', In e' (e0 :: ds) ->
              (Z.abs (fst e'), Z.abs (snd e')) = (Z.abs (fst e0), Z.abs (snd e0))).
    { intros e' He'. rewrite (Hx _ (in_map _ _ _ He')). symmetry. apply Hx. by left. }
    pose proof (Heq _ (in_map _ _ _ He)) as He1. simpl in He1. apply Z.eqb_eq in He1.
    pose proof (Hm e He) as [= E1 E2]. lia.
  - intros [m Hm]. split.
    + exists (m, m). split; [by destruct ds|]. intros e' He'.
      apply in_map_iff in He' as [e [<- He]]. destruct (Hm e He) as [-> ->]. done.
    + intros e' He'. apply in_map_iff in He' as [e [<- He]].
      destruct (Hm e He) as [E1 E2]. simpl. apply Z.eqb_eq. lia.
Qed.

(** Extra X16: [test_spatial_relations] reports a linear arrangement of
    a value [v] with direction [d] iff [v] is nonzero, occurs in at least
    two cells, and every two consecutive cells of [v] in row-major order
    differ by [d]; it reports a diagonal pattern iff all consecutive
    differences have both coordinates of one common absolute value, the
    direction being positive iff the product of the coordinates of the
    first difference is positive.  The count is the number of cells. *)
Theorem test_spatial_relations_lines (g : grid) :
  let pats := spatial_patterns (test_spatial_relations g) in
  (forall v d n, LinearArrangement v d n ∈ pats <->
     v <> 0 /\ (2 <= length (argwhere_eq g v))%nat /\
     n = Z.of_nat (length (argwhere_eq g v)) /\
     forall k a b, argwhere_eq g v !! k = Some a -> argwhere_eq g v !! S k = Some b ->
       (fst b - fst a, snd b - snd a) = d) /\
  (forall v dir n, DiagonalPattern v dir n ∈ pats <->
     v <> 0 /\ (2 <= length (argwhere_eq g v))%nat /\
     n = Z.of_nat (length (argwhere_eq g v)) /\
     (exists m, forall k a b, argwhere_eq g v !! k = Some a -> argwhere_eq g v !! S k = Some b ->
        Z.abs (fst b - fst a) = m /\ Z.abs (snd b - snd a) = m) /\
     forall a b, argwhere_eq g v !! 0%nat = Some a -> argwhere_eq g v !! 1%nat = Some b ->
       dir = if 0 <? (fst b - fst a) * (snd b - snd a) then "positive" else "negative").
Proof.
  intros pats. split.
  - intros v d n. unfold pats. rewrite (test_spatial_relations_In g _ v) by done.
    unfold value_patterns. set (cs := argwhere_eq g v).
    destruct (Nat.ltb_spec 1 (length cs)) as [Hl|Hl]; [|split; [intros [_ []]|lia]].
    pose proof (cell_diffs_nonempty cs Hl) as Hne.
    rewrite !in_app_iff.
    assert (Hlin : (forall e, In e (cell_diffs cs) -> e = d) <->
                   forall k a b, cs !! k = Some a -> cs !! S k = Some b ->
                     (fst b - fst a, snd b - snd a) = d).
    { split.
      - intros H k a b Ha Hb. apply H, cell_diffs_In. by exists k, a, b.
      - intros H e He. apply cell_diffs_In in He as (k & a & b & Ha & Hb & ->). by apply (H k). }
    rewrite <- Hlin, <- (linear_condition _ d Hne). split.
    + intros [Hv [H|[H|H]]].
      * destruct (one_distinct_cell _); [|done]. destruct H as [[= <- <-]|[]]. done.
      * destruct (_ && _); [|done]. destruct H as [H|[]]; done.
      * destruct (Nat.leb _ _); [|done]. destruct (forallb _ _); [|done].
        destruct H as [H|[]]; done.
    + intros (Hv & _ & -> & [-> <-]). split; [done|]. left. by left.
  - intros v dir n. unfold pats. rewrite (test_spatial_relations_In g _ v) by done.
    unfold value_patterns. set (cs := argwhere_eq g v).
    destruct (Nat.ltb_spec 1 (length cs)) as [Hl|Hl]; [|split; [intros [_ []]|lia]].
    pose proof (cell_diffs_nonempty cs Hl) as Hne.
    assert (Hdiag : (exists m, forall e, In e (cell_diffs cs) -> Z.abs (fst e) = m /\ Z.abs (snd e) = m) <->
                    exists m, forall k a b, cs !! k = Some a -> cs !! S k = Some b ->
                      Z.abs (fst b - fst a) = m /\ Z.abs (snd b - snd a) = m).
    { split; intros [m H]; exists m.
      - intros k a b Ha Hb. apply (H (fst b - fst a, snd b - snd a)), cell_diffs_In.
        by exists k, a, b.
      - intros e He. apply cell_diffs_In in He as (k & a & b & Ha & Hb & ->). by apply (H k). }
    rewrite <- Hdiag, <- (diagonal_condition _ Hne).
    destruct (lookup_lt_is_Some_2 cs 0 ltac:(lia)) as [a0 Ha0].
    destruct (lookup_lt_is_Some_2 cs 1 ltac:(lia)) as [b0 Hb0].
    assert (Hd0 : hd (0, 0) (cell_diffs cs) = (fst b0 - fst a0, snd b0 - snd a0)).
    { assert (E : cell_diffs cs !! 0%nat = Some (fst b0 - fst a0, snd b0 - snd a0))
        by (apply cell_diffs_lookup; by exists a0, b0).
      destruct (cell_diffs cs); [done|]. simpl in E. by injection E. }
    rewrite !in_app_iff. split.
    + intros [Hv [H|[H|H]]].
      * destruct (one_distinct_cell _); [|done]. destruct H as [H|[]]; done.
      * destruct (_ && _) eqn:Hc; [|done]. destruct H as [[= <- <-]|[]].
        split; [done|]. split; [lia|]. split; [done|]. split; [done|].
        intros a b Ha Hb. rewrite Ha in Ha0. rewrite Hb in Hb0.
        injection Ha0 as ->. injection Hb0 as ->. by rewrite Hd0.
      * destruct (Nat.leb _ _); [|done]. destruct (forallb _ _); [|done].
        destruct H as [H|[]]; done.
    + intros (Hv & _ & -> & Hc & Hdir). split; [done|]. right. left.
      rewrite Hc. left. rewrite Hd0, (Hdir a0 b0 Ha0 Hb0). done.
Qed.

Lemma argwhere_eq_bounds (g : grid) (v : Z) :
  argwhere_eq g v <> [] ->
  let cs := argwhere_eq g v in
  0 <= zmin (map fst cs) <= zmax (map fst cs) /\ zmax (map fst cs) < height g /\
  0 <= zmin (map snd cs) <= zmax (map snd cs) /\ zmax (map snd cs) < width g.
Proof.
  intros Hne cs.
  assert (Hf : map fst cs <> []) by (unfold cs; destruct (argwhere_eq g v); done).
  assert (Hs : map snd cs <> []) by (unfold cs; destruct (argwhere_eq g v); done).
  destruct (zmin_spec _ Hf) as [Hr1 Hr1'], (zmax_spec _ Hf) as [Hr2 Hr2'].
  destruct (zmin_spec _ Hs) as [Hc1 Hc1'], (zmax_spec _ Hs) as [Hc2 Hc2'].
  assert (Hb : forall rc, In rc cs -> in_bounds g rc)
    by (intros rc Hrc; by apply argwhere_eq_In in Hrc as [? _]).
  apply in_map_iff in Hr1 as [rc1 [E1 I1]]. apply in_map_iff in Hr2 as [rc2 [E2 I2]].
  apply in_map_iff in Hc1 as [rc3 [E3 I3]]. apply in_map_iff in Hc2 as [rc4 [E4 I4]].
  pose proof (Hr2' _ (in_map fst _ _ I1)). pose proof (Hc2' _ (in_map snd _ _ I3)).
  apply Hb in I1 as [[? ?] _]. apply Hb in I2 as [[? ?] _].
  apply Hb in I3 as [_ [? ?]]. apply Hb in I4 as [_ [? ?]].
  split; [|split; [|split]]; lia.
Qed.

(** Extra X17: on a well-formed grid, [test_spatial_relations] reports a
    rectangular arrangement of [v] iff [v] is nonzero, occurs in at least
    four cells, and every nonzero entry in the bounding box of its cells
    equals [v]; the reported position is the box's top-left corner and
    the dimensions are the box's height and width. *)
Theorem test_spatial_relations_rect (g : grid) :
  well_formed g ->
  forall v dm pos,
  RectangularArrangement v dm pos ∈ spatial_patterns (test_spatial_relations g) <->
  let cs := argwhere_eq g v in
  let min_r := zmin (map fst cs) in let max_r := zmax (map fst cs) in
  let min_c := zmin (map snd cs) in let max_c := zmax (map snd cs) in
  v <> 0 /\ (4 <= length cs)%nat /\
  pos = (min_r, min_c) /\ dm = (max_r - min_r + 1, max_c - min_c + 1) /\
  forall r c, min_r <= r <= max_r -> min_c <= c <= max_c ->
    get g r c <> 0 -> get g r c = v.
Proof.
  intros Hwf v dm pos. rewrite (test_spatial_relations_In g _ v) by done.
  unfold value_patterns. cbv zeta. set (cs := argwhere_eq g v).
  set (min_r := zmin (map fst cs)). set (max_r := zmax (map fst cs)).
  set (min_c := zmin (map snd cs)). set (max_c := zmax (map snd cs)).
  destruct (Nat.ltb_spec 1 (length cs)) as [Hl|Hl]; [|split; [intros [_ []]|lia]].
  rewrite !in_app_iff.
  destruct (Nat.leb_spec 4 (length cs)) as [H4|H4].
  2: { split; [|lia]. intros [_ [H|[H|[]]]].
       - destruct (one_distinct_cell _); [|done]. destruct H as [H|[]]; done.
       - destruct (_ && _); [|done]. destruct H as [H|[]]; done. }
  assert (Hne : cs <> []) by (destruct cs; simpl in Hl; [lia|done]).
  destruct (argwhere_eq_bounds g v Hne) as (Hr & Hrh & Hc & Hcw). fold cs min_r max_r min_c max_c in Hr, Hrh, Hc, Hcw.
  pose proof (slice2_spec g (length g) (length (hd [] g)) min_r min_c
                (max_r - min_r + 1) (max_c - min_c + 1) (well_formed_dims g Hwf))
    as Hs.
  unfold height, width in Hrh, Hcw.
  specialize (Hs ltac:(lia) ltac:(lia) ltac:(lia) ltac:(lia) ltac:(lia) ltac:(lia)).
  cbv zeta in Hs.
  replace (min_r + (max_r - min_r + 1)) with (max_r + 1) in Hs by lia.
  replace (min_c + (max_c - min_c + 1)) with (max_c + 1) in Hs by lia.
  destruct Hs as [Hd Hget].
  set (rect := slice2 g min_r (max_r + 1) min_c (max_c + 1)) in Hd, Hget |- *.
  assert (Hall : forallb (fun x => x =? v) (List.filter (fun x => negb (x =? 0)) (concat rect)) = true
             <-> forall r c, min_r <= r <= max_r -> min_c <= c <= max_c ->
                   get g r c <> 0 -> get g r c = v).
  { rewrite forallb_forall. split.
    - intros H r c Hr' Hc' Hz. apply Z.eqb_eq, H, filter_In.
      split; [|by apply negb_true_iff, Z.eqb_neq].
      apply (concat_dims rect _ _ _ Hd).
      exists (Z.to_nat (r - min_r)), (Z.to_nat (c - min_c)). split; [lia|]. split; [lia|].
      rewrite <- get_entry, !Z2Nat.id by lia. rewrite Hget by lia. f_equal; lia.
    - intros H x Hx. apply filter_In in Hx as [Hx Hz].
      apply negb_true_iff, Z.eqb_neq in Hz. apply Z.eqb_eq.
      apply (concat_dims rect _ _ _ Hd) in Hx as (a & b & Ha & Hb & ->).
      rewrite <- get_entry, Hget in * by lia. apply H; [lia|lia|done]. }
  split.
  - intros [Hv [H|[H|H]]].
    + destruct (one_distinct_cell _); [|done]. destruct H as [H|[]]; done.
    + destruct (_ && _); [|done]. destruct H as [H|[]]; done.
    + destruct (forallb _ _) eqn:Hf; [|done]. destruct H as [[= <- <-]|[]].
      split; [done|]. split; [done|]. split; [done|]. split; [done|]. by apply Hall.
  - intros (Hv & _ & -> & -> & H). split; [done|]. right. right.
    apply Hall in H. rewrite H. by left.
Qed.

Lemma test_symmetry_spec_witness :
  well_formed [[1;2];[3;4]] /\
  exists r, test_symmetry [[1;2];[3;4]] = Ok r /\ symmetry_found r = true /\
    Rotational 90 4 ∈ symmetry_types r.
Proof.
  assert (Hw : well_formed [[1;2];[3;4]]) by (split; [discriminate|split; [simpl; lia|repeat constructor]]).
  split; [exact Hw|].
  destruct (test_symmetry_spec [[1;2];[3;4]] Hw) as (r & H1 & H2 & H3 & _).
  exists r. exact (conj H1 (conj H2 H3)).
Defined.

Lemma extract_subgrids_spec_witness :
  well_formed [[1;2;3];[4;5;6]] /\
  exists subs, extract_subgrids [[1;2;3];[4;5;6]] (2, 2) = Ok subs /\
    length subs = Z.to_nat ((height [[1;2;3];[4;5;6]] - 2 + 1) * (width [[1;2;3];[4;5;6]] - 2 + 1)).
Proof.
  assert (Hw : well_formed [[1;2;3];[4;5;6]]) by (split; [discriminate|split; [simpl; lia|repeat constructor]]).
  split; [exact Hw|].
  destruct (extract_subgrids_spec [[1;2;3];[4;5;6]] 2 2 Hw ltac:(lia) ltac:(lia)) as (subs & H1 & _ & H3).
  exists subs. split; [exact H1|].
  apply H3; unfold height, width; simpl; lia.
Defined.

Lemma find_subgrid_spec_witness :
  well_formed [[1;2;1];[3;1;2]] /\ well_formed [[1;2]] /\
  exists locs, find_subgrid [[1;2;1];[3;1;2]] [[1;2]] = Ok locs /\ NoDup locs.
Proof.
  assert (Hg : well_formed [[1;2;1];[3;1;2]]) by (split; [discriminate|split; [simpl; lia|repeat constructor]]).
  assert (Hs : well_formed [[1;2]]) by (split; [discriminate|split; [simpl; lia|repeat constructor]]).
  split; [exact Hg|]. split; [exact Hs|].
  destruct (find_subgrid_spec _ _ Hg Hs) as (locs & H1 & H2 & _).
  exists locs. exact (conj H1 H2).
Defined.

Lemma test_repetition_spec_witness :
  well_formed [[1;2;1;2];[3;4;3;4]] /\
  (repetition_found (test_repetition [[1;2;1;2];[3;4;3;4]]) = true <->
   rp_patterns (test_repetition [[1;2;1;2];[3;4;3;4]]) <> []).
Proof.
  assert (Hw : well_formed [[1;2;1;2];[3;4;3;4]]) by (split; [discriminate|split; [simpl; lia|repeat constructor]]).
  split; [exact Hw|].
  exact (proj1 (test_repetition_spec _ Hw)).
Defined.

Lemma test_spatial_relations_rect_witness :
  well_formed [[3;3];[3;3]] /\
  forall v dm pos,
  RectangularArrangement v dm pos ∈ spatial_patterns (test_spatial_relations [[3;3];[3;3]]) <->
  let cs := argwhere_eq [[3;3];[3;3]] v in
  let min_r := zmin (map fst cs) in let max_r := zmax (map fst cs) in
  let min_c := zmin (map snd cs) in let max_c := zmax (map snd cs) in
  v <> 0 /\ (4 <= length cs)%nat /\
  pos = (min_r, min_c) /\ dm = (max_r - min_r + 1, max_c - min_c + 1) /\
  forall r c, min_r <= r <= max_r -> min_c <= c <= max_c ->
    get [[3;3];[3;3]] r c <> 0 -> get [[3;3];[3;3]] r c = v.
Proof.
  assert (Hw : well_formed [[3;3];[3;3]]) by (split; [discriminate|split; [simpl; lia|repeat constructor]]).
  split; [exact Hw|].
  exact (test_spatial_relations_rect _ Hw).
Defined.
